(** * MPG network-capture scripts: a shallow embedding

    The repository holds browser-console scripts that wrap
    [window.fetch] and [XMLHttpRequest.prototype.open/send], buffer the
    observed calls and download the buffer as JSON:

    - [extract_no_har.js]      (module [NoHar]),
    - [extract_data_simple.js] (module [Simple]),
    - [extract_data.js]        (modules [SafeSerialize] and [ExtractData],
                                [GlobalScan] and [JsonReplacer]),
    - [extract_with_reload.js] (module [Reload]).

    A script is a state machine over the events of the page and of the
    network ([Browser.event]); what it does to the outside is a list of
    effects ([Browser.effect]).  The scripts come first, then the
    vocabulary of the properties and the example sessions, then the
    properties.

    Browser objects are modelled as far as the scripts touch them: strings
    are sequences of code units, [Date.now()] is an integer, ISO timestamps
    are strings handed in by the environment. *)

From Stdlib Require Import String Ascii ZArith List Bool Lia.
From stdpp Require Import base option list gmap strings.
From Equations Require Import Equations.
Import ListNotations.
Local Open Scope string_scope.
Set Warnings "-register-all".

(** ** JavaScript values that the scripts store and export *)

(** A JSON-shaped value: what [JSON.parse] and [response.json()] return,
    what [safeSerialize] builds, and what object literals of the exported
    artifact hold.  [JUndefined] is the value of an absent property.
    Numbers are integers: the scripts copy them and test them for zero. *)
Inductive jsval : Type :=
| JUndefined
| JNull
| JBool (b : bool)
| JNum (z : Z)
| JStr (s : string)
| JArr (items : list jsval)
| JObj (fields : list (string * jsval)).

(** JavaScript truthiness, as [||] and [&&] test it.  Arrays and objects
    are always truthy. *)
Definition truthy (v : jsval) : bool :=
  match v with
  | JUndefined | JNull => false
  | JBool b => b
  | JNum z => negb (z =? 0)%Z
  | JStr s => negb (String.eqb s "")
  | JArr _ | JObj _ => true
  end.

(** [a || b] on values. *)
Definition js_or (a b : jsval) : jsval := if truthy a then a else b.

(** [s.includes(needle)]. *)
Definition includes (s needle : string) : bool :=
  match String.index 0 needle s with Some _ => true | None => false end.

(** [s.substring(0, n)]. *)
Definition substring0 (n : nat) (s : string) : string := String.substring 0 n s.

(** [s.split(sep)] for a non-empty separator: [cur] is the piece being
    read and [skip] the number of separator characters still to pass. *)
Fixpoint split_from (sep : string) (skip : nat) (cur s : string) : list string :=
  match s with
  | EmptyString => [cur]
  | String c rest =>
      match skip with
      | S n => split_from sep n cur rest
      | O =>
          if String.prefix sep s
          then cur :: split_from sep (String.length sep - 1) EmptyString rest
          else split_from sep 0 (cur ++ String c EmptyString) rest
      end
  end.

(** [s.split(sep)] *)
Definition split (sep s : string) : list string := split_from sep 0 EmptyString s.

(** Nesting depth of a value: a leaf has depth 0. *)
Fixpoint jdepth (v : jsval) : nat :=
  match v with
  | JArr items => S (fold_right (fun x acc => Nat.max (jdepth x) acc) 0 items)
  | JObj fields => S (fold_right (fun kv acc => Nat.max (jdepth (snd kv)) acc) 0 fields)
  | _ => 0
  end.

(** Keys of an object literal, in insertion order. *)
Definition keys (v : jsval) : list string :=
  match v with JObj fields => map fst fields | _ => [] end.

(** [obj[key]]. *)
Fixpoint assoc_get (k : string) (fields : list (string * jsval)) : option jsval :=
  match fields with
  | [] => None
  | (k', v) :: r => if String.eqb k k' then Some v else assoc_get k r
  end.

(** [v.k]: [undefined] when the property is absent or [v] is no object. *)
Definition get_field (k : string) (v : jsval) : jsval :=
  match v with
  | JObj fields => default JUndefined (assoc_get k fields)
  | _ => JUndefined
  end.

(** [result[key] = v] on a plain object: overwrite in place or append. *)
Fixpoint assoc_set (k : string) (v : jsval) (fields : list (string * jsval))
  : list (string * jsval) :=
  match fields with
  | [] => [(k, v)]
  | (k', v') :: r =>
      if String.eqb k k' then (k, v) :: r else (k', v') :: assoc_set k v r
  end.

(** The value is a plain object. *)
Definition is_object (v : jsval) : bool :=
  match v with JObj _ => true | _ => false end.

(** ** Exceptions *)

(** A computation that returns or throws; the payload of [Throw] is the
    error's [message]. *)
Inductive exc (A : Type) : Type :=
| Ret (a : A)
| Throw (msg : string).
Arguments Ret {A} a.
Arguments Throw {A} msg.

(** Sequencing: the first exception ends the computation. *)
#[global] Instance exc_bind : MBind exc := fun A B (k : A -> exc B) (c : exc A) =>
  match c with Ret a => k a | Throw m => Throw m end.

(** [try { c } catch(e) { h e }]. *)
Definition try_catch {A} (c : exc A) (h : string -> exc A) : exc A :=
  match c with Ret a => Ret a | Throw m => h m end.


(** ** extract_data.js: the safe serializer *)

Module SafeSerialize.

(** A runtime value as [typeof] classifies it.  Arrays and objects live
    in a heap and are reached through references, so that a value may
    contain itself. *)
Inductive value : Type :=
| VNull
| VUndefined
| VString (s : string)
| VNumber (z : Z)
| VBoolean (b : bool)
| VFunction
| VSymbol
| VBigInt (z : Z)
| VRef (a : nat).

(** Reading a property either yields a value or throws (a getter that
    throws, a cross-origin read). *)
Inductive prop : Type :=
| Data (v : value)
| Denied.

(** A heap object: an array (what [Array.isArray] accepts), an object with
    its enumerable keys in [for..in] order, or an object whose enumeration
    itself throws. *)
Inductive hobj : Type :=
| HArray (elems : list prop)
| HObject (props : list (string * prop))
| HSealed.

(** The objects behind the references. *)
Definition heap := nat -> hobj.

(** [obj[key]] *)
Definition read (p : prop) : exc value :=
  match p with Data v => Ret v | Denied => Throw "SecurityError" end.

(** [arr.map(f)]: each element is read, then passed to the callback. *)
Fixpoint array_map (f : value -> exc jsval) (elems : list prop) : exc (list jsval) :=
  match elems with
  | [] => Ret []
  | p :: r =>
      item ← read p;
      x ← f item;
      xs ← array_map f r;
      Ret (x :: xs)
  end.

(** [for (const key in obj) body]: the loop body threads [result]. *)
Fixpoint for_in (body : string -> prop -> list (string * jsval) -> exc (list (string * jsval)))
    (props : list (string * prop)) (result : list (string * jsval))
  : exc (list (string * jsval)) :=
  match props with
  | [] => Ret result
  | (key, p) :: r =>
      result' ← body key p result;
      for_in body r result'
  end.

(** The keys the loop skips before reading them. *)
Definition skipped (key : string) : bool :=
  String.eqb key "toJSON" || includes key "iframe" || includes key "frame".

(** [function safeSerialize(obj, maxDepth = 3, currentDepth = 0)] *)
Equations? safeSerialize (h : heap) (obj : value) (maxDepth currentDepth : nat)
  : exc jsval by wf (S maxDepth - currentDepth) lt :=
safeSerialize h obj maxDepth currentDepth with lt_dec maxDepth currentDepth := {
  | left _ => Ret (JStr "[Max Depth Reached]")
  | right Hle =>
      match obj with
      | VNull => Ret JNull
      | VUndefined => Ret JUndefined
      | VString s => Ret (JStr s)
      | VNumber z => Ret (JNum z)
      | VBoolean b => Ret (JBool b)
      | VFunction => Ret (JStr "[Function]")
      | VRef a =>
          match h a with
          | HArray elems =>
              try_catch
                (items ← array_map
                            (fun item => safeSerialize h item maxDepth (currentDepth + 1))
                            elems;
                 Ret (JArr items))
                (fun _ => Ret (JStr "[Array - Access Denied]"))
          | HObject props =>
              try_catch
                (result ← for_in
                   (fun key p result =>
                      try_catch
                        (if skipped key then Ret result
                         else
                           value ← read p;
                           r ← safeSerialize h value maxDepth (currentDepth + 1);
                           Ret (assoc_set key r result))
                        (fun _ => Ret (assoc_set key (JStr "[Access Denied]") result)))
                   props [];
                 Ret (JObj result))
                (fun _ => Ret (JStr "[Object - Access Denied]"))
          | HSealed =>
              try_catch (Throw "SecurityError")
                (fun _ => Ret (JStr "[Object - Access Denied]"))
          end
      | VSymbol | VBigInt _ => Ret (JStr "[Unknown Type]")
      end }.
Proof. all: lia. Qed.

(** [safeSerialize(value)] with the default [maxDepth = 3]. *)
Definition safeSerialize_default (h : heap) (obj : value) : exc jsval :=
  safeSerialize h obj 3 0.

(** The value is nested at most [d] levels deep. *)
Definition depth_le (d : nat) (v : jsval) : Prop := jdepth v <= d.

(** An object that contains itself. *)
Definition cyclic_heap : heap := fun _ => HObject [("self", Data (VRef 0))].

End SafeSerialize.

(** ** The browser interfaces the scripts wrap *)

Module Browser.

(** [JSON.parse(text)], where [None] stands for the thrown [SyntaxError],
    and [JSON.stringify(value)] of a JSON value, which does not throw. *)
Class JSONApi := {
  JSON_parse : string -> option jsval;
  JSON_stringify : jsval -> string }.

(** What a page may pass as the first argument of [fetch] or as the URL of
    [xhr.open]: a string, nothing, or a [Request]/[URL] object (truthy, and
    without an [includes] method). *)
Inductive url_arg : Type :=
| UStr (s : string)
| UUndefined
| UObject (href : string).

(** A request body: absent, a string, or a non-string object (FormData,
    Blob, ArrayBuffer). *)
Inductive body_arg : Type :=
| BAbsent
| BString (s : string)
| BBinary.

(** The second argument of [fetch], as far as the wrappers read it. *)
Record fetch_options := { opt_method : option string; opt_body : body_arg }.

(** A [Response].  [body] is [None] when reading the body stream fails;
    [bodyUsed] is the flag of the Fetch standard: a body can be read once. *)
Record Response := {
  resp_status : Z;
  resp_statusText : string;
  body : option string;
  bodyUsed : bool }.

(** The response once its body has been read. *)
Definition mark_used (r : Response) : Response :=
  {| resp_status := resp_status r; resp_statusText := resp_statusText r;
     body := body r; bodyUsed := true |}.

(** [response.clone()]: throws a [TypeError] on a used body. *)
Definition clone (r : Response) : exc Response :=
  if bodyUsed r then Throw "Response body is already used" else Ret r.

(** Reading the body marks it used; a second read is rejected. *)
Definition consume (r : Response) : Response * exc string :=
  if bodyUsed r then (r, Throw "body stream already read")
  else (mark_used r,
        match body r with Some t => Ret t | None => Throw "network error" end).

(** [await r.text()]: the object after the call, and the result. *)
Definition text (r : Response) : Response * exc string := consume r.

(** [await r.json()]: the body is read in full, then parsed. *)
Definition json `{JSONApi} (r : Response) : Response * exc jsval :=
  let '(r', t) := consume r in
  (r', s ← t;
       match JSON_parse s with
       | Some v => Ret v
       | None => Throw "Unexpected token"
       end).

(** How the real [fetch] settles. *)
Inductive fetch_outcome : Type :=
| Resolved (r : Response)
| Rejected (msg : string).

(** How an XMLHttpRequest ends.  [Load] carries what the listener reads:
    [xhr.status], [xhr.statusText], [xhr.responseText] (the request has a
    text [responseType]) and [xhr.getAllResponseHeaders()]. *)
Inductive xhr_completion : Type :=
| Load (st : Z) (stText responseText headers : string)
| Error
| Abort
| Timeout.

(** The listeners the scripts register. *)
Inductive listener_kind : Type := OnLoad | OnError.

(** What a patched global currently holds. *)
Inductive entry : Type := Wrapper | Original.

(** Observable effects, oldest first: the real operations performed, what
    callers got back, and what was handed to the user. *)
Inductive effect : Type :=
| RealOpen (x : nat) (m : string) (u : url_arg)
| RealSend (x : nat) (b : body_arg)
| SendThrew (x : nat) (msg : string)
| RealFetch (k : nat) (u : url_arg) (o : option fetch_options)
| FetchResult (k : nat) (r : fetch_outcome)
| Download (artifact : jsval)
| ConsoleDump (artifact : jsval).

(** What the page and the network do to a script, one event at a time.
    [now] is [Date.now()], [iso] is [new Date().toISOString()] and [href]
    is [window.location.href] at that moment. *)
Inductive event : Type :=
| XhrOpen (x : nat) (m : string) (u : url_arg) (now : Z)
| XhrSend (x : nat) (b : body_arg) (iso : string)
| XhrFire (x : nat) (c : xhr_completion) (now : Z)
| FetchCall (u : url_arg) (o : option fetch_options) (now : Z) (iso : string)
| FetchSettle (k : nat) (r : fetch_outcome) (now : Z) (iso : string)
| Stop (iso href : string) (download_ok : bool).

(** [obj[k] = v] on a record object. *)
Definition set_prop (k : string) (v : jsval) (obj : jsval) : jsval :=
  match obj with
  | JObj fields => JObj (assoc_set k v fields)
  | other => other
  end.

(** [k in obj]: the property has been assigned. *)
Definition has_prop (k : string) (obj : jsval) : bool :=
  match obj with
  | JObj fields => bool_decide (is_Some (assoc_get k fields))
  | _ => false
  end.

(** The URL argument as a property value of a record. *)
Definition url_json (u : url_arg) : jsval :=
  match u with
  | UStr s => JStr s
  | UUndefined => JUndefined
  | UObject _ => JObj []
  end.

(** [options.method || 'GET'] with [options = args[1] || {}]. *)
Definition method_or_GET (o : option fetch_options) : string :=
  match o with
  | Some opts =>
      match opt_method opts with
      | Some m => if String.eqb m "" then "GET" else m
      | None => "GET"
      end
  | None => "GET"
  end.

(** [options.body] *)
Definition body_of (o : option fetch_options) : body_arg :=
  match o with Some opts => opt_body opts | None => BAbsent end.

End Browser.

(** ** extract_no_har.js *)

Module NoHar.
Import Browser.

(** The filter: [url.includes('api.mpg') || url.includes('mpg.football/api')]. *)
Definition matches (url : string) : bool :=
  includes url "api.mpg" || includes url "mpg.football/api".

(** [url && (url.includes(..) || url.includes(..))] as a condition.  On a
    truthy value without [includes] the method call throws a TypeError. *)
Definition in_scope (u : url_arg) : exc bool :=
  match u with
  | UUndefined => Ret false
  | UStr url => Ret (negb (String.eqb url "") && matches url)
  | UObject _ => Throw "url.includes is not a function"
  end.

(** [body ? (typeof body === 'string' ? body : '[Binary Data]') : null] *)
Definition xhr_requestBody (b : body_arg) : jsval :=
  match b with
  | BAbsent => JNull
  | BString s => if String.eqb s "" then JNull else JStr s
  | BBinary => JStr "[Binary Data]"
  end.

(** [options.body || null]; a non-string body object is kept as it is (its
    JSON image is the empty object). *)
Definition fetch_requestBody (o : option fetch_options) : jsval :=
  match body_of o with
  | BAbsent => JNull
  | BString s => if String.eqb s "" then JNull else JStr s
  | BBinary => JObj []
  end.

(** The [requestData] literal of both wrappers. *)
Definition new_requestData (reqId : nat) (u : url_arg) (m iso ty : string)
    (requestBody : jsval) : jsval :=
  JObj [("id", JNum (Z.of_nat reqId)); ("url", url_json u); ("method", JStr m);
        ("timestamp", JStr iso); ("type", JStr ty); ("requestBody", requestBody)].

(** The line separator of [getAllResponseHeaders()]. *)
Definition CRLF : string := String "013"%char (String "010"%char EmptyString).

(** The [forEach] over the header lines: [name: value] lines become
    properties of [responseHeaders]. *)
Definition parse_headers (headersString : string) : jsval :=
  if String.eqb headersString "" then JObj []
  else
    JObj (fold_left
            (fun acc line =>
               match split ": " line with
               | [name; value] => assoc_set name (JStr value) acc
               | _ => acc
               end)
            (split CRLF headersString) []).

(** [s.length] *)
Definition str_length (s : string) : jsval := JNum (Z.of_nat (String.length s)).

(** The slots the [open] wrapper writes on the XHR object. *)
Record xhr_slots := {
  _captureMethod : string;
  _captureUrl : url_arg;
  _captureStartTime : Z }.

(** A listener closure: its kind, the [requestData] it captured (by id)
    and the captured [startTime]. *)
Definition listener : Type := listener_kind * nat * Z.

(** An XHR object: the capture slots, absent until the wrapped [open] ran
    on it, and the listeners the wrapped [send] added, in order. *)
Record xhr_object := { slots : option xhr_slots; listeners : list listener }.

(** An object the scripts have not touched. *)
#[global] Instance xhr_object_inhabited : Inhabited xhr_object :=
  populate {| slots := None; listeners := [] |}.

(** A [fetch] invocation suspended at [await]: either nothing of the
    script's runs on completion, or the capturing branch resumes. *)
Inductive continuation : Type :=
| Direct
| Capturing (reqId : nat) (startTime : Z).

(** The script's variables and the globals it patches.  [requests] holds
    references into [objects]: a [requestData] object is shared between
    the buffer and the closures that assign to it. *)
Record state := {
  window_fetch : entry;
  XHR_open : entry;
  XHR_send : entry;
  started : string;
  requests : list nat;
  stopped : option string;
  totalRequests : option nat;
  requestCounter : nat;
  objects : gmap nat jsval;
  xhrs : gmap nat xhr_object;
  pending : gmap nat continuation;
  calls : nat;
  effects : list effect }.

(** Field updates. *)
Definition with_requests (v : list nat) (s : state) : state :=
  {| window_fetch := window_fetch s; XHR_open := XHR_open s;
     XHR_send := XHR_send s; started := started s; requests := v;
     stopped := stopped s; totalRequests := totalRequests s;
     requestCounter := requestCounter s; objects := objects s;
     xhrs := xhrs s; pending := pending s; calls := calls s;
     effects := effects s |}.

Definition with_requestCounter (v : nat) (s : state) : state :=
  {| window_fetch := window_fetch s; XHR_open := XHR_open s;
     XHR_send := XHR_send s; started := started s; requests := requests s;
     stopped := stopped s; totalRequests := totalRequests s;
     requestCounter := v; objects := objects s; xhrs := xhrs s;
     pending := pending s; calls := calls s; effects := effects s |}.

Definition with_objects (v : gmap nat jsval) (s : state) : state :=
  {| window_fetch := window_fetch s; XHR_open := XHR_open s;
     XHR_send := XHR_send s; started := started s; requests := requests s;
     stopped := stopped s; totalRequests := totalRequests s;
     requestCounter := requestCounter s; objects := v; xhrs := xhrs s;
     pending := pending s; calls := calls s; effects := effects s |}.

Definition with_xhrs (v : gmap nat xhr_object) (s : state) : state :=
  {| window_fetch := window_fetch s; XHR_open := XHR_open s;
     XHR_send := XHR_send s; started := started s; requests := requests s;
     stopped := stopped s; totalRequests := totalRequests s;
     requestCounter := requestCounter s; objects := objects s; xhrs := v;
     pending := pending s; calls := calls s; effects := effects s |}.

Definition with_pending (v : gmap nat continuation) (s : state) : state :=
  {| window_fetch := window_fetch s; XHR_open := XHR_open s;
     XHR_send := XHR_send s; started := started s; requests := requests s;
     stopped := stopped s; totalRequests := totalRequests s;
     requestCounter := requestCounter s; objects := objects s;
     xhrs := xhrs s; pending := v; calls := calls s; effects := effects s |}.

Definition with_calls (v : nat) (s : state) : state :=
  {| window_fetch := window_fetch s; XHR_open := XHR_open s;
     XHR_send := XHR_send s; started := started s; requests := requests s;
     stopped := stopped s; totalRequests := totalRequests s;
     requestCounter := requestCounter s; objects := objects s;
     xhrs := xhrs s; pending := pending s; calls := v; effects := effects s |}.

Definition with_effects (v : list effect) (s : state) : state :=
  {| window_fetch := window_fetch s; XHR_open := XHR_open s;
     XHR_send := XHR_send s; started := started s; requests := requests s;
     stopped := stopped s; totalRequests := totalRequests s;
     requestCounter := requestCounter s; objects := objects s;
     xhrs := xhrs s; pending := pending s; calls := calls s; effects := v |}.

(** An effect on the outside. *)
Definition emit (e : effect) (s : state) : state := with_effects (effects s ++ [e]) s.

(** [capturedData.requests.push(requestData)] *)
Definition push (reqId : nat) (s : state) : state := with_requests (requests s ++ [reqId]) s.

(** An assignment to a property of the [requestData] object [reqId]. *)
Definition assign (reqId : nat) (k : string) (v : jsval) (s : state) : state :=
  with_objects (alter (set_prop k v) reqId (objects s)) s.

(** The XHR object [x]. *)
Definition xhr_at (s : state) (x : nat) : xhr_object := xhrs s !!! x.

(** The state right after the script has been pasted. *)
Definition init (iso : string) : state :=
  {| window_fetch := Wrapper; XHR_open := Wrapper; XHR_send := Wrapper;
     started := iso; requests := []; stopped := None; totalRequests := None;
     requestCounter := 0; objects := ∅; xhrs := ∅; pending := ∅; calls := 0;
     effects := [] |}.

Section Script.
Context `{JSONApi}.

(** [XMLHttpRequest.prototype.open = function(method, url) {...}] *)
Definition open_wrapper (x : nat) (m : string) (u : url_arg) (now : Z) (s : state) : state :=
  let this := xhr_at s x in
  let this' := {| slots := Some {| _captureMethod := m; _captureUrl := u;
                                   _captureStartTime := now |};
                  listeners := listeners this |} in
  emit (RealOpen x m u) (with_xhrs (<[x := this']> (xhrs s)) s).

(** [XMLHttpRequest.prototype.send = function(body) {...}] *)
Definition send_wrapper (x : nat) (b : body_arg) (iso : string) (s : state) : state :=
  let this := xhr_at s x in
  match slots this with
  | None => emit (RealSend x b) s
  | Some sl =>
      match in_scope (_captureUrl sl) with
      | Throw msg => emit (SendThrew x msg) s
      | Ret false => emit (RealSend x b) s
      | Ret true =>
          let reqId := S (requestCounter s) in
          let requestData :=
            new_requestData reqId (_captureUrl sl) (_captureMethod sl) iso "xhr"
                            (xhr_requestBody b) in
          let this' :=
            {| slots := slots this;
               listeners := listeners this ++
                 [(OnLoad, reqId, _captureStartTime sl);
                  (OnError, reqId, _captureStartTime sl)] |} in
          emit (RealSend x b)
            (with_xhrs (<[x := this']> (xhrs s))
               (with_objects (<[reqId := requestData]> (objects s))
                  (with_requestCounter reqId s)))
      end
  end.

(** The ['load'] listener. *)
Definition on_load (reqId : nat) (startTime st : Z) (stText responseText headers : string)
    (now : Z) (s : state) : state :=
  let duration := (now - startTime)%Z in
  let s1 := assign reqId "responseSize" (str_length responseText)
              (assign reqId "duration" (JNum duration)
                 (assign reqId "statusText" (JStr stText)
                    (assign reqId "status" (JNum st) s))) in
  let s2 :=
    match JSON_parse responseText with
    | Some v => assign reqId "response" v s1
    | None => assign reqId "responseText" (JStr (substring0 1000 responseText)) s1
    end in
  push reqId (assign reqId "responseHeaders" (parse_headers headers) s2).

(** The ['error'] listener. *)
Definition on_error (reqId : nat) (s : state) : state :=
  push reqId
    (assign reqId "error" (JStr "Network Error") (assign reqId "status" (JNum 0) s)).

(** One listener on one completion event. *)
Definition run_listener (c : xhr_completion) (now : Z) (s : state) (l : listener) : state :=
  match l, c with
  | (OnLoad, reqId, startTime), Load st stText responseText headers =>
      on_load reqId startTime st stText responseText headers now s
  | (OnError, reqId, _), Error => on_error reqId s
  | _, _ => s
  end.

(** The browser dispatches a completion event to the listeners of the
    object, in the order they were added. *)
Definition fire (x : nat) (c : xhr_completion) (now : Z) (s : state) : state :=
  fold_left (run_listener c now) (listeners (xhr_at s x)) s.

(** [window.fetch = async function(...args) {...}], up to the first
    [await]: the call gets the next call number [k]. *)
Definition fetch_wrapper (u : url_arg) (o : option fetch_options) (now : Z) (iso : string)
    (s : state) : state :=
  let k := calls s in
  let s := with_calls (S k) s in
  match in_scope u with
  | Throw msg => emit (FetchResult k (Rejected msg)) s
  | Ret false => emit (RealFetch k u o) (with_pending (<[k := Direct]> (pending s)) s)
  | Ret true =>
      let reqId := S (requestCounter s) in
      let requestData :=
        new_requestData reqId u (method_or_GET o) iso "fetch" (fetch_requestBody o) in
      emit (RealFetch k u o)
        (with_pending (<[k := Capturing reqId now]> (pending s))
           (with_objects (<[reqId := requestData]> (objects s))
              (with_requestCounter reqId s)))
  end.

(** The outer [catch(error)] of the capturing branch. *)
Definition fetch_catch (k reqId : nat) (msg : string) (s : state) : state :=
  emit (FetchResult k (Rejected msg)) (push reqId (assign reqId "error" (JStr msg) s)).

(** The capturing branch after [await originalFetch.apply(this, args)].
    The reads of the clone are taken as one step. *)
Definition fetch_resume (k reqId : nat) (startTime : Z) (r : fetch_outcome) (now : Z)
    (s : state) : state :=
  match r with
  | Rejected msg => fetch_catch k reqId msg s
  | Resolved response =>
      let duration := (now - startTime)%Z in
      let s1 := assign reqId "duration" (JNum duration)
                  (assign reqId "statusText" (JStr (resp_statusText response))
                     (assign reqId "status" (JNum (resp_status response)) s)) in
      match clone response with
      | Throw msg => fetch_catch k reqId msg s1
      | Ret clone0 =>
          let '(clone1, parsed) := json clone0 in
          let s2 :=
            match parsed with
            | Ret responseData =>
                assign reqId "responseSize" (str_length (JSON_stringify responseData))
                  (assign reqId "response" responseData s1)
            | Throw _ =>
                match snd (text clone1) with
                | Ret t =>
                    assign reqId "responseSize" (str_length t)
                      (assign reqId "responseText" (JStr (substring0 1000 t)) s1)
                | Throw _ => s1
                end
            end in
          emit (FetchResult k (Resolved response)) (push reqId s2)
      end
  end.

(** [capturedData.requests.map(req => ({...}))] on one element. *)
Definition project (req : jsval) : jsval :=
  JObj [("url", get_field "url" req);
        ("method", get_field "method" req);
        ("status", get_field "status" req);
        ("timestamp", get_field "timestamp" req);
        ("response",
          js_or (js_or (get_field "response" req) (get_field "responseText" req)) JNull);
        ("duration_ms", get_field "duration" req)].

(** The object behind a reference of the buffer. *)
Definition deref (s : state) (reqId : nat) : jsval := default JUndefined (objects s !! reqId).

(** The [outputData] literal; [iso] is [capturedData.stopped]. *)
Definition outputData (iso href : string) (s : state) : jsval :=
  JObj [("scrape_timestamp", JStr iso);
        ("url", JStr href);
        ("api_calls", JArr (map (fun reqId => project (deref s reqId)) (requests s)));
        ("total_captured", JNum (Z.of_nat (length (requests s))))].

(** [window.stopCapture = function() {...}]: the new state and the
    returned [outputData].  [download_ok] tells whether the [try] block
    that builds and clicks the download link runs to its end. *)
Definition stopCapture (iso href : string) (download_ok : bool) (s : state)
  : state * jsval :=
  let s1 :=
    {| window_fetch := Original; XHR_open := Original; XHR_send := Original;
       started := started s; requests := requests s;
       stopped := Some iso; totalRequests := Some (length (requests s));
       requestCounter := requestCounter s; objects := objects s; xhrs := xhrs s;
       pending := pending s; calls := calls s; effects := effects s |} in
  let out := outputData iso href s1 in
  (emit (if download_ok then Download out else ConsoleDump out) s1, out).

(** One event.  A call reaches a wrapper only while the global holds it;
    listeners and suspended invocations run whatever the globals hold. *)
Definition step (s : state) (e : event) : state :=
  match e with
  | XhrOpen x m u now =>
      match XHR_open s with
      | Wrapper => open_wrapper x m u now s
      | Original => emit (RealOpen x m u) s
      end
  | XhrSend x b iso =>
      match XHR_send s with
      | Wrapper => send_wrapper x b iso s
      | Original => emit (RealSend x b) s
      end
  | XhrFire x c now => fire x c now s
  | FetchCall u o now iso =>
      match window_fetch s with
      | Wrapper => fetch_wrapper u o now iso s
      | Original =>
          emit (RealFetch (calls s) u o)
            (with_pending (<[calls s := Direct]> (pending s)) (with_calls (S (calls s)) s))
      end
  | FetchSettle k r now _ =>
      match pending s !! k with
      | None => s
      | Some Direct =>
          emit (FetchResult k r) (with_pending (delete k (pending s)) s)
      | Some (Capturing reqId startTime) =>
          fetch_resume k reqId startTime r now (with_pending (delete k (pending s)) s)
      end
  | Stop iso href download_ok => fst (stopCapture iso href download_ok s)
  end.

(** A session: the events in the order they happen. *)
Definition run (tr : list event) (s : state) : state := fold_left step tr s.

End Script.

End NoHar.

(** ** extract_data_simple.js *)

Module Simple.
Import Browser.

(** The filter: [url.includes('api.mpg') || url.includes('mpg.football')]. *)
Definition matches (url : string) : bool :=
  includes url "api.mpg" || includes url "mpg.football".

(** [url && (url.includes(..) || url.includes(..))] as a condition. *)
Definition in_scope (u : url_arg) : exc bool :=
  match u with
  | UUndefined => Ret false
  | UStr url => Ret (negb (String.eqb url "") && matches url)
  | UObject _ => Throw "url.includes is not a function"
  end.

(** The slots the [open] wrapper writes on the XHR object. *)
Record xhr_slots := { _mpg_method : string; _mpg_url : url_arg }.

(** An XHR object: the slots, and the ['load'] listeners the wrapped [send]
    added, each with the [requestInfo] object it captured. *)
Record xhr_object := { slots : option xhr_slots; listeners : list nat }.

(** An object the scripts have not touched. *)
#[global] Instance xhr_object_inhabited : Inhabited xhr_object :=
  populate {| slots := None; listeners := [] |}.

(** A [fetch] invocation suspended at [await originalFetch.apply(this, args)]:
    the native function, or the wrapper with its [args]. *)
Inductive continuation : Type :=
| Direct
| Awaiting (u : url_arg) (o : option fetch_options).

(** The variables of the script body and the globals it patches.
    [capturedRequests] holds references into [objects]; [allocated] counts
    the [requestInfo] objects created; [finished] is set once the body has
    run past its countdown to the end. *)
Record state := {
  window_fetch : entry;
  XHR_open : entry;
  XHR_send : entry;
  capturedRequests : list nat;
  objects : gmap nat jsval;
  allocated : nat;
  xhrs : gmap nat xhr_object;
  pending : gmap nat continuation;
  calls : nat;
  finished : bool;
  effects : list effect }.

(** Field updates. *)
Definition with_capturedRequests (v : list nat) (s : state) : state :=
  {| window_fetch := window_fetch s; XHR_open := XHR_open s;
     XHR_send := XHR_send s; capturedRequests := v; objects := objects s;
     allocated := allocated s; xhrs := xhrs s; pending := pending s;
     calls := calls s; finished := finished s; effects := effects s |}.

Definition with_objects (v : gmap nat jsval) (s : state) : state :=
  {| window_fetch := window_fetch s; XHR_open := XHR_open s;
     XHR_send := XHR_send s; capturedRequests := capturedRequests s;
     objects := v; allocated := allocated s; xhrs := xhrs s;
     pending := pending s; calls := calls s; finished := finished s;
     effects := effects s |}.

Definition with_allocated (v : nat) (s : state) : state :=
  {| window_fetch := window_fetch s; XHR_open := XHR_open s;
     XHR_send := XHR_send s; capturedRequests := capturedRequests s;
     objects := objects s; allocated := v; xhrs := xhrs s;
     pending := pending s; calls := calls s; finished := finished s;
     effects := effects s |}.

Definition with_xhrs (v : gmap nat xhr_object) (s : state) : state :=
  {| window_fetch := window_fetch s; XHR_open := XHR_open s;
     XHR_send := XHR_send s; capturedRequests := capturedRequests s;
     objects := objects s; allocated := allocated s; xhrs := v;
     pending := pending s; calls := calls s; finished := finished s;
     effects := effects s |}.

Definition with_pending (v : gmap nat continuation) (s : state) : state :=
  {| window_fetch := window_fetch s; XHR_open := XHR_open s;
     XHR_send := XHR_send s; capturedRequests := capturedRequests s;
     objects := objects s; allocated := allocated s; xhrs := xhrs s;
     pending := v; calls := calls s; finished := finished s;
     effects := effects s |}.

Definition with_calls (v : nat) (s : state) : state :=
  {| window_fetch := window_fetch s; XHR_open := XHR_open s;
     XHR_send := XHR_send s; capturedRequests := capturedRequests s;
     objects := objects s; allocated := allocated s; xhrs := xhrs s;
     pending := pending s; calls := v; finished := finished s;
     effects := effects s |}.

Definition with_effects (v : list effect) (s : state) : state :=
  {| window_fetch := window_fetch s; XHR_open := XHR_open s;
     XHR_send := XHR_send s; capturedRequests := capturedRequests s;
     objects := objects s; allocated := allocated s; xhrs := xhrs s;
     pending := pending s; calls := calls s; finished := finished s;
     effects := v |}.

(** An effect on the outside. *)
Definition emit (e : effect) (s : state) : state := with_effects (effects s ++ [e]) s.

(** [capturedRequests.push(requestInfo)] *)
Definition push (ref : nat) (s : state) : state :=
  with_capturedRequests (capturedRequests s ++ [ref]) s.

(** An assignment to a property of the [requestInfo] object [ref]. *)
Definition assign (ref : nat) (k : string) (v : jsval) (s : state) : state :=
  with_objects (alter (set_prop k v) ref (objects s)) s.

(** A fresh [requestInfo] object. *)
Definition alloc (requestInfo : jsval) (s : state) : state :=
  with_allocated (S (allocated s))
    (with_objects (<[allocated s := requestInfo]> (objects s)) s).

(** The XHR object [x]. *)
Definition xhr_at (s : state) (x : nat) : xhr_object := xhrs s !!! x.

(** The object behind a reference of the buffer. *)
Definition deref (s : state) (ref : nat) : jsval := default JUndefined (objects s !! ref).

(** The state when the wrappers have been installed. *)
Definition init : state :=
  {| window_fetch := Wrapper; XHR_open := Wrapper; XHR_send := Wrapper;
     capturedRequests := []; objects := ∅; allocated := 0; xhrs := ∅;
     pending := ∅; calls := 0; finished := false; effects := [] |}.

Section Script.
Context `{JSONApi}.

(** [XMLHttpRequest.prototype.open = function(method, url) {...}] *)
Definition open_wrapper (x : nat) (m : string) (u : url_arg) (s : state) : state :=
  let this := xhr_at s x in
  let this' := {| slots := Some {| _mpg_method := m; _mpg_url := u |};
                  listeners := listeners this |} in
  emit (RealOpen x m u) (with_xhrs (<[x := this']> (xhrs s)) s).

(** [XMLHttpRequest.prototype.send = function() {...}] *)
Definition send_wrapper (x : nat) (b : body_arg) (iso : string) (s : state) : state :=
  let this := xhr_at s x in
  match slots this with
  | None => emit (RealSend x b) s
  | Some sl =>
      match in_scope (_mpg_url sl) with
      | Throw msg => emit (SendThrew x msg) s
      | Ret false => emit (RealSend x b) s
      | Ret true =>
          let requestInfo :=
            JObj [("url", url_json (_mpg_url sl)); ("method", JStr (_mpg_method sl));
                  ("timestamp", JStr iso); ("type", JStr "xhr")] in
          let this' := {| slots := slots this;
                          listeners := listeners this ++ [allocated s] |} in
          emit (RealSend x b) (with_xhrs (<[x := this']> (xhrs s)) (alloc requestInfo s))
      end
  end.

(** The ['load'] listener. *)
Definition on_load (ref : nat) (st : Z) (responseText : string) (s : state) : state :=
  let s1 := assign ref "status" (JNum st) s in
  let s2 :=
    match JSON_parse responseText with
    | Some responseData => assign ref "response" responseData s1
    | None => assign ref "response_text" (JStr (substring0 500 responseText)) s1
    end in
  push ref s2.

(** One listener on one completion event: only [load] is listened to. *)
Definition run_listener (c : xhr_completion) (s : state) (ref : nat) : state :=
  match c with
  | Load st _ responseText _ => on_load ref st responseText s
  | _ => s
  end.

(** The browser dispatches a completion event to the listeners of the
    object. *)
Definition fire (x : nat) (c : xhr_completion) (s : state) : state :=
  fold_left (run_listener c) (listeners (xhr_at s x)) s.

(** [window.fetch = async function(...args) {...}] up to its [await]: the
    real fetch is called first, whatever the arguments are. *)
Definition fetch_wrapper (u : url_arg) (o : option fetch_options) (s : state) : state :=
  let k := calls s in
  emit (RealFetch k u o)
    (with_pending (<[k := Awaiting u o]> (pending s)) (with_calls (S k) s)).

(** The two nested [try] blocks: each makes its own clone. *)
Definition read_response (response : Response) (requestInfo : jsval) : jsval :=
  match (clone0 ← clone response; snd (json clone0)) with
  | Ret responseData => set_prop "response" responseData requestInfo
  | Throw _ =>
      match (clone0 ← clone response; snd (text clone0)) with
      | Ret t => set_prop "response_text" (JStr (substring0 500 t)) requestInfo
      | Throw _ => requestInfo
      end
  end.

(** The wrapper after its [await].  A rejection of the real fetch leaves
    the wrapper as it came; the filter is evaluated on the resolved path. *)
Definition fetch_resume (k : nat) (u : url_arg) (o : option fetch_options)
    (r : fetch_outcome) (iso : string) (s : state) : state :=
  match r with
  | Rejected msg => emit (FetchResult k (Rejected msg)) s
  | Resolved response =>
      match in_scope u with
      | Throw msg => emit (FetchResult k (Rejected msg)) s
      | Ret false => emit (FetchResult k (Resolved response)) s
      | Ret true =>
          let requestInfo :=
            JObj [("url", url_json u); ("method", JStr (method_or_GET o));
                  ("timestamp", JStr iso); ("type", JStr "fetch");
                  ("status", JNum (resp_status response))] in
          emit (FetchResult k (Resolved response))
            (push (allocated s) (alloc (read_response response requestInfo) s))
      end
  end.

(** The [data] object built after the countdown. *)
Definition data (iso href : string) (s : state) : jsval :=
  JObj [("scrape_timestamp", JStr iso);
        ("url", JStr href);
        ("api_calls", JArr (map (deref s) (capturedRequests s)));
        ("total_captured", JNum (Z.of_nat (length (capturedRequests s))))].

(** The rest of the script body, from [// Restore] on. *)
Definition finish (iso href : string) (download_ok : bool) (s : state) : state :=
  let s1 :=
    {| window_fetch := Original; XHR_open := Original; XHR_send := Original;
       capturedRequests := capturedRequests s; objects := objects s;
       allocated := allocated s; xhrs := xhrs s; pending := pending s;
       calls := calls s; finished := true; effects := effects s |} in
  let d := data iso href s1 in
  emit (if download_ok then Download d else ConsoleDump d) s1.

(** One event.  The countdown ends once: a [Stop] after the body has
    finished finds nothing left to run. *)
Definition step (s : state) (e : event) : state :=
  match e with
  | XhrOpen x m u _ =>
      match XHR_open s with
      | Wrapper => open_wrapper x m u s
      | Original => emit (RealOpen x m u) s
      end
  | XhrSend x b iso =>
      match XHR_send s with
      | Wrapper => send_wrapper x b iso s
      | Original => emit (RealSend x b) s
      end
  | XhrFire x c _ => fire x c s
  | FetchCall u o _ _ =>
      match window_fetch s with
      | Wrapper => fetch_wrapper u o s
      | Original =>
          emit (RealFetch (calls s) u o)
            (with_pending (<[calls s := Direct]> (pending s)) (with_calls (S (calls s)) s))
      end
  | FetchSettle k r _ iso =>
      match pending s !! k with
      | None => s
      | Some Direct =>
          emit (FetchResult k r) (with_pending (delete k (pending s)) s)
      | Some (Awaiting u o) =>
          fetch_resume k u o r iso (with_pending (delete k (pending s)) s)
      end
  | Stop iso href download_ok =>
      if finished s then s else finish iso href download_ok s
  end.

(** A session: the events in the order they happen. *)
Definition run (tr : list event) (s : state) : state := fold_left step tr s.

End Script.

End Simple.

(** ** extract_data.js: the records it captures and its export *)

Module ExtractData.
Import Browser.

Section Script.
Context `{JSONApi}.

(** The [requestInfo] of the XHR wrapper once its ['load'] or ['error']
    listener has pushed it; no listener runs on the other completions.
    This script has no URL filter. *)
Definition xhr_requestInfo (m : string) (u : url_arg) (iso : string) (c : xhr_completion)
  : option jsval :=
  let requestInfo :=
    JObj [("url", url_json u); ("method", JStr m); ("timestamp", JStr iso);
          ("type", JStr "xhr")] in
  match c with
  | Load st _ responseText _ =>
      let r1 := set_prop "status" (JNum st) requestInfo in
      Some match JSON_parse responseText with
           | Some responseData => set_prop "response" responseData r1
           | None =>
               set_prop "response_preview" (JStr (substring0 200 responseText))
                 (set_prop "response_type" (JStr "non-json") r1)
           end
  | Error => Some (set_prop "error" (JStr "XHR Error") requestInfo)
  | Abort | Timeout => None
  end.

(** The [requestInfo] of the fetch wrapper as it is pushed when the real
    fetch has settled. *)
Definition fetch_requestInfo (u : url_arg) (o : option fetch_options) (iso : string)
    (r : fetch_outcome) : jsval :=
  let requestInfo :=
    JObj [("url", url_json u); ("method", JStr (method_or_GET o));
          ("timestamp", JStr iso); ("type", JStr "fetch")] in
  match r with
  | Rejected msg => set_prop "error" (JStr msg) requestInfo
  | Resolved response =>
      match clone response with
      | Throw msg => set_prop "error" (JStr msg) requestInfo
      | Ret clone0 =>
          let r1 := set_prop "status" (JNum (resp_status response)) requestInfo in
          let '(clone1, parsed) := json clone0 in
          match (responseData ← parsed;
                 match JSON_parse (JSON_stringify responseData) with
                 | Some copy => Ret copy
                 | None => Throw "Unexpected token"
                 end) with
          | Ret copy => set_prop "response" copy r1
          | Throw _ =>
              match snd (text clone1) with
              | Ret t =>
                  set_prop "response_preview" (JStr (substring0 200 t))
                    (set_prop "response_type" (JStr "text") r1)
              | Throw _ => set_prop "response_type" (JStr "non-serializable") r1
              end
          end
      end
  end.

End Script.

(** The [data] object at export time: the two fields of its literal,
    [extracted_data] as filled from storage and globals, and the
    [api_calls] assigned after the capture window. *)
Definition data (iso href : string) (extracted_data : list (string * jsval))
    (capturedRequests : list jsval) : jsval :=
  JObj [("scrape_timestamp", JStr iso);
        ("url", JStr href);
        ("extracted_data", JObj extracted_data);
        ("api_calls", JArr capturedRequests)].

(** The [fallbackData] literal of the [catch] block. *)
Definition fallbackData (data : jsval) : jsval :=
  JObj [("scrape_timestamp", get_field "scrape_timestamp" data);
        ("url", get_field "url" data);
        ("api_calls", get_field "api_calls" data);
        ("note", JStr "Some data could not be serialized due to security restrictions")].

(** What the export hands to the browser as [mpg_auction_data.json]. *)
Inductive saved : Type :=
| SavedText (jsonString : string)
| SavedObject (artifact : jsval).

(** The export.  [primary] is how the first [try] block ends: with the
    text [JSON.stringify(data, jsonReplacer, 2)] downloaded, or with a
    thrown error.  The [catch] block builds [fallbackData] and downloads it
    outside any [try]: [fallback_ok] tells whether that runs to its end. *)
Definition export (primary : exc string) (fallback_ok : bool) (data : jsval)
  : exc (list saved) :=
  match primary with
  | Ret jsonString => Ret [SavedText jsonString]
  | Throw _ =>
      if fallback_ok then Ret [SavedObject (fallbackData data)]
      else Throw "fallback export failed"
  end.

End ExtractData.

(** ** A concrete [JSON] for closed examples

    A parser and a printer for JSON texts built from [null], [true],
    [false], integers, strings without escape sequences, arrays and
    objects.  The general results below hold for any [JSONApi]; this
    instance only serves to run the scripts on concrete inputs, all of
    which lie in that fragment. *)

Module JSONSubset.

(** The double-quote character. *)
Definition dquote : ascii := "034"%char.

(** JSON whitespace. *)
Definition is_ws (c : ascii) : bool :=
  (c =? " ")%char || (c =? "009")%char || (c =? "010")%char || (c =? "013")%char.

(** [s] without its leading whitespace. *)
Fixpoint skip_ws (s : string) : string :=
  match s with
  | String c rest => if is_ws c then skip_ws rest else s
  | EmptyString => s
  end.

(** The value of a decimal digit. *)
Definition digit_of (c : ascii) : option Z :=
  let n := nat_of_ascii c in
  if (48 <=? n)%nat && (n <=? 57)%nat then Some (Z.of_nat (n - 48)) else None.

(** The longest run of digits at the head of [s], as a number. *)
Fixpoint read_digits (acc : Z) (s : string) : Z * string :=
  match s with
  | String c rest =>
      match digit_of c with
      | Some d => read_digits (10 * acc + d) rest
      | None => (acc, s)
      end
  | EmptyString => (acc, s)
  end.

(** An integer literal: digits without a leading zero. *)
Definition read_nat (s : string) : option (Z * string) :=
  match s with
  | String c rest =>
      match digit_of c with
      | Some 0%Z =>
          match rest with
          | String c' _ =>
              match digit_of c' with Some _ => None | None => Some (0%Z, rest) end
          | EmptyString => Some (0%Z, rest)
          end
      | Some d => Some (read_digits d rest)
      | None => None
      end
  | EmptyString => None
  end.

(** The characters up to the closing quote. *)
Fixpoint read_string (acc : string) (s : string) : option (string * string) :=
  match s with
  | String c rest =>
      if (c =? dquote)%char then Some (acc, rest)
      else if (c =? "\")%char then None
      else if (nat_of_ascii c <? 32)%nat then None
      else read_string (acc ++ String c EmptyString) rest
  | EmptyString => None
  end.

(** One of the words [null], [true], [false] at the head of [s]. *)
Definition literal (word : string) (v : jsval) (s : string) : option (jsval * string) :=
  if String.prefix word s
  then Some (v, String.substring (String.length word) (String.length s) s)
  else None.

(** A value, the elements of an array and the members of an object, each
    with the rest of the text; [fuel] bounds the nesting. *)
Fixpoint parse_value (fuel : nat) (s : string) : option (jsval * string) :=
  match fuel with
  | O => None
  | S fuel =>
      match skip_ws s with
      | String "n" _ => literal "null" JNull (skip_ws s)
      | String "t" _ => literal "true" (JBool true) (skip_ws s)
      | String "f" _ => literal "false" (JBool false) (skip_ws s)
      | String "034" rest =>
          '(str, rest') ← read_string EmptyString rest; Some (JStr str, rest')
      | String "-" rest => '(n, rest') ← read_nat rest; Some (JNum (- n), rest')
      | String "[" rest =>
          match skip_ws rest with
          | String "]" rest' => Some (JArr [], rest')
          | _ => '(items, rest') ← parse_items fuel rest; Some (JArr items, rest')
          end
      | String "{" rest =>
          match skip_ws rest with
          | String "}" rest' => Some (JObj [], rest')
          | _ =>
              '(members, rest') ← parse_members fuel rest;
              Some (JObj (fold_left (fun acc kv => assoc_set (fst kv) (snd kv) acc)
                                    members []),
                    rest')
          end
      | other => '(n, rest') ← read_nat other; Some (JNum n, rest')
      end
  end
with parse_items (fuel : nat) (s : string) : option (list jsval * string) :=
  match fuel with
  | O => None
  | S fuel =>
      '(v, rest) ← parse_value fuel s;
      match skip_ws rest with
      | String "," rest' =>
          '(vs, rest'') ← parse_items fuel rest'; Some (v :: vs, rest'')
      | String "]" rest' => Some ([v], rest')
      | _ => None
      end
  end
with parse_members (fuel : nat) (s : string) : option (list (string * jsval) * string) :=
  match fuel with
  | O => None
  | S fuel =>
      match skip_ws s with
      | String "034" rest =>
          '(key, rest1) ← read_string EmptyString rest;
          match skip_ws rest1 with
          | String ":" rest2 =>
              '(v, rest3) ← parse_value fuel rest2;
              match skip_ws rest3 with
              | String "," rest4 =>
                  '(more, rest5) ← parse_members fuel rest4;
                  Some ((key, v) :: more, rest5)
              | String "}" rest4 => Some ([(key, v)], rest4)
              | _ => None
              end
          | _ => None
          end
      | _ => None
      end
  end.

(** A whole text: one value and nothing but whitespace after it. *)
Definition parse (s : string) : option jsval :=
  '(v, rest) ← parse_value (S (String.length s)) s;
  match skip_ws rest with EmptyString => Some v | _ => None end.

(** The character of a decimal digit. *)
Definition digit_char (d : nat) : ascii := ascii_of_nat (48 + d).

(** Decimal digits of [n], least significant last. *)
Fixpoint print_nat (fuel n : nat) (acc : string) : string :=
  match fuel with
  | O => acc
  | S fuel =>
      let acc' := String (digit_char (n mod 10)) acc in
      if (n <? 10)%nat then acc' else print_nat fuel (n / 10) acc'
  end.

(** An integer in decimal. *)
Definition print_Z (z : Z) : string :=
  let n := Z.to_nat (Z.abs z) in
  ((if (z <? 0)%Z then "-" else "") ++ print_nat (S n) n "")%string.

(** [s] between double quotes. *)
Definition quote (s : string) : string :=
  String dquote (s ++ String dquote EmptyString).

(** The parts joined by [sep]. *)
Definition sep_by (sep : string) (parts : list string) : string :=
  match parts with
  | [] => ""
  | p :: rest => fold_left (fun acc q => (acc ++ sep ++ q)%string) rest p
  end.

(** The compact JSON text of a value; properties that are [undefined]
    are left out. *)
Fixpoint print (v : jsval) : string :=
  match v with
  | JUndefined | JNull => "null"
  | JBool true => "true"
  | JBool false => "false"
  | JNum z => print_Z z
  | JStr s => quote s
  | JArr items => ("[" ++ sep_by "," (map print items) ++ "]")%string
  | JObj fields =>
      ("{" ++ sep_by ","
                (flat_map
                   (fun kv =>
                      match snd kv with
                      | JUndefined => []
                      | _ => [(quote (fst kv) ++ ":" ++ print (snd kv))%string]
                      end)
                   fields)
           ++ "}")%string
  end.

(** The instance used by the closed examples. *)
#[global] Instance json : Browser.JSONApi :=
  {| Browser.JSON_parse := parse; Browser.JSON_stringify := print |}.

End JSONSubset.

(** ** extract_with_reload.js

    The script installs its wrappers, asks the browser to load the
    trading page, waits thirty seconds and counts down thirty more.  It is
    followed here from the installation of the wrappers to the end of its
    body, over the events that reach it. *)

Module Reload.
Import Browser.

(** The filter: [url.includes('mpg')]. *)
Definition matches (url : string) : bool := includes url "mpg".

(** [isCapturing && url && url.includes('mpg')] as a condition: once
    [isCapturing] is false the rest is not evaluated. *)
Definition in_scope (isCapturing : bool) (u : url_arg) : exc bool :=
  if isCapturing then
    match u with
    | UUndefined => Ret false
    | UStr url => Ret (negb (String.eqb url "") && matches url)
    | UObject _ => Throw "url.includes is not a function"
    end
  else Ret false.

(** The variables of the script body and the globals it patches.  The XHR
    slots, the listeners and the suspended [fetch] invocations are those of
    extract_data_simple.js. *)
Record state := {
  window_fetch : entry;
  XHR_open : entry;
  XHR_send : entry;
  capturedRequests : list nat;
  isCapturing : bool;
  objects : gmap nat jsval;
  allocated : nat;
  xhrs : gmap nat Simple.xhr_object;
  pending : gmap nat Simple.continuation;
  calls : nat;
  effects : list effect }.

(** Field updates. *)
Definition with_capturedRequests (v : list nat) (s : state) : state :=
  {| window_fetch := window_fetch s; XHR_open := XHR_open s;
     XHR_send := XHR_send s; capturedRequests := v;
     isCapturing := isCapturing s; objects := objects s;
     allocated := allocated s; xhrs := xhrs s; pending := pending s;
     calls := calls s; effects := effects s |}.

Definition with_objects (v : gmap nat jsval) (s : state) : state :=
  {| window_fetch := window_fetch s; XHR_open := XHR_open s;
     XHR_send := XHR_send s; capturedRequests := capturedRequests s;
     isCapturing := isCapturing s; objects := v;
     allocated := allocated s; xhrs := xhrs s; pending := pending s;
     calls := calls s; effects := effects s |}.

Definition with_allocated (v : nat) (s : state) : state :=
  {| window_fetch := window_fetch s; XHR_open := XHR_open s;
     XHR_send := XHR_send s; capturedRequests := capturedRequests s;
     isCapturing := isCapturing s; objects := objects s;
     allocated := v; xhrs := xhrs s; pending := pending s;
     calls := calls s; effects := effects s |}.

Definition with_xhrs (v : gmap nat Simple.xhr_object) (s : state) : state :=
  {| window_fetch := window_fetch s; XHR_open := XHR_open s;
     XHR_send := XHR_send s; capturedRequests := capturedRequests s;
     isCapturing := isCapturing s; objects := objects s;
     allocated := allocated s; xhrs := v; pending := pending s;
     calls := calls s; effects := effects s |}.

Definition with_pending (v : gmap nat Simple.continuation) (s : state) : state :=
  {| window_fetch := window_fetch s; XHR_open := XHR_open s;
     XHR_send := XHR_send s; capturedRequests := capturedRequests s;
     isCapturing := isCapturing s; objects := objects s;
     allocated := allocated s; xhrs := xhrs s; pending := v;
     calls := calls s; effects := effects s |}.

Definition with_calls (v : nat) (s : state) : state :=
  {| window_fetch := window_fetch s; XHR_open := XHR_open s;
     XHR_send := XHR_send s; capturedRequests := capturedRequests s;
     isCapturing := isCapturing s; objects := objects s;
     allocated := allocated s; xhrs := xhrs s; pending := pending s;
     calls := v; effects := effects s |}.

Definition with_effects (v : list effect) (s : state) : state :=
  {| window_fetch := window_fetch s; XHR_open := XHR_open s;
     XHR_send := XHR_send s; capturedRequests := capturedRequests s;
     isCapturing := isCapturing s; objects := objects s;
     allocated := allocated s; xhrs := xhrs s; pending := pending s;
     calls := calls s; effects := v |}.

(** An effect on the outside. *)
Definition emit (e : effect) (s : state) : state := with_effects (effects s ++ [e]) s.

(** [capturedRequests.push(requestInfo)] *)
Definition push (ref : nat) (s : state) : state :=
  with_capturedRequests (capturedRequests s ++ [ref]) s.

(** An assignment to a property of the [requestInfo] object [ref]. *)
Definition assign (ref : nat) (k : string) (v : jsval) (s : state) : state :=
  with_objects (alter (set_prop k v) ref (objects s)) s.

(** A fresh [requestInfo] object. *)
Definition alloc (requestInfo : jsval) (s : state) : state :=
  with_allocated (S (allocated s))
    (with_objects (<[allocated s := requestInfo]> (objects s)) s).

(** The XHR object [x]. *)
Definition xhr_at (s : state) (x : nat) : Simple.xhr_object := xhrs s !!! x.

(** The object behind a reference of the buffer. *)
Definition deref (s : state) (ref : nat) : jsval := default JUndefined (objects s !! ref).

(** The state when the wrappers have been installed. *)
Definition init : state :=
  {| window_fetch := Wrapper; XHR_open := Wrapper; XHR_send := Wrapper;
     capturedRequests := []; isCapturing := true; objects := ∅; allocated := 0;
     xhrs := ∅; pending := ∅; calls := 0; effects := [] |}.

Section Script.
Context `{JSONApi}.

(** [XMLHttpRequest.prototype.open = function(method, url) {...}] *)
Definition open_wrapper (x : nat) (m : string) (u : url_arg) (s : state) : state :=
  let this := xhr_at s x in
  let this' := {| Simple.slots := Some {| Simple._mpg_method := m; Simple._mpg_url := u |};
                  Simple.listeners := Simple.listeners this |} in
  emit (RealOpen x m u) (with_xhrs (<[x := this']> (xhrs s)) s).

(** [XMLHttpRequest.prototype.send = function() {...}] *)
Definition send_wrapper (x : nat) (b : body_arg) (iso : string) (s : state) : state :=
  let this := xhr_at s x in
  match Simple.slots this with
  | None => emit (RealSend x b) s
  | Some sl =>
      match in_scope (isCapturing s) (Simple._mpg_url sl) with
      | Throw msg => emit (SendThrew x msg) s
      | Ret false => emit (RealSend x b) s
      | Ret true =>
          let requestInfo :=
            JObj [("url", url_json (Simple._mpg_url sl));
                  ("method", JStr (Simple._mpg_method sl));
                  ("timestamp", JStr iso); ("type", JStr "xhr")] in
          let this' := {| Simple.slots := Simple.slots this;
                          Simple.listeners := Simple.listeners this ++ [allocated s] |} in
          emit (RealSend x b) (with_xhrs (<[x := this']> (xhrs s)) (alloc requestInfo s))
      end
  end.

(** The ['load'] listener: it does not look at [isCapturing]. *)
Definition on_load (ref : nat) (st : Z) (responseText : string) (s : state) : state :=
  let s1 := assign ref "status" (JNum st) s in
  let s2 :=
    match JSON_parse responseText with
    | Some responseData => assign ref "response" responseData s1
    | None => assign ref "response_text" (JStr (substring0 500 responseText)) s1
    end in
  push ref s2.

(** One listener on one completion event: only [load] is listened to. *)
Definition run_listener (c : xhr_completion) (s : state) (ref : nat) : state :=
  match c with
  | Load st _ responseText _ => on_load ref st responseText s
  | _ => s
  end.

(** The browser dispatches a completion event to the listeners of the
    object. *)
Definition fire (x : nat) (c : xhr_completion) (s : state) : state :=
  fold_left (run_listener c) (Simple.listeners (xhr_at s x)) s.

(** [window.fetch = async function(...args) {...}] up to its [await]. *)
Definition fetch_wrapper (u : url_arg) (o : option fetch_options) (s : state) : state :=
  let k := calls s in
  emit (RealFetch k u o)
    (with_pending (<[k := Simple.Awaiting u o]> (pending s)) (with_calls (S k) s)).

(** The one [try] block of the fetch wrapper: a body that is not JSON
    leaves [requestInfo] as it is. *)
Definition read_response (response : Response) (requestInfo : jsval) : jsval :=
  match (clone0 ← clone response; snd (json clone0)) with
  | Ret responseData => set_prop "response" responseData requestInfo
  | Throw _ => requestInfo
  end.

(** The wrapper after its [await]: [isCapturing] is read here, when the
    real fetch has resolved. *)
Definition fetch_resume (k : nat) (u : url_arg) (o : option fetch_options)
    (r : fetch_outcome) (iso : string) (s : state) : state :=
  match r with
  | Rejected msg => emit (FetchResult k (Rejected msg)) s
  | Resolved response =>
      match in_scope (isCapturing s) u with
      | Throw msg => emit (FetchResult k (Rejected msg)) s
      | Ret false => emit (FetchResult k (Resolved response)) s
      | Ret true =>
          let requestInfo :=
            JObj [("url", url_json u); ("method", JStr (method_or_GET o));
                  ("timestamp", JStr iso); ("type", JStr "fetch");
                  ("status", JNum (resp_status response))] in
          emit (FetchResult k (Resolved response))
            (push (allocated s) (alloc (read_response response requestInfo) s))
      end
  end.

(** The [data] object built after the countdown. *)
Definition data (iso href : string) (s : state) : jsval :=
  JObj [("scrape_timestamp", JStr iso);
        ("url", JStr href);
        ("api_calls", JArr (map (deref s) (capturedRequests s)));
        ("total_captured", JNum (Z.of_nat (length (capturedRequests s))))].

(** The rest of the script body, from [isCapturing = false] on, and what
    the body returns.  The download is in no [try] block: when it fails
    the body ends with the exception. *)
Definition finish (iso href : string) (download_ok : bool) (s : state)
  : state * exc jsval :=
  let s1 :=
    {| window_fetch := Original; XHR_open := Original; XHR_send := Original;
       capturedRequests := capturedRequests s; isCapturing := false;
       objects := objects s; allocated := allocated s; xhrs := xhrs s;
       pending := pending s; calls := calls s; effects := effects s |} in
  let d := data iso href s1 in
  if download_ok then (emit (Download d) s1, Ret d)
  else (s1, Throw "download failed").

(** One event.  The countdown ends once: a [Stop] after the body has
    passed it finds nothing left to run. *)
Definition step (s : state) (e : event) : state :=
  match e with
  | XhrOpen x m u _ =>
      match XHR_open s with
      | Wrapper => open_wrapper x m u s
      | Original => emit (RealOpen x m u) s
      end
  | XhrSend x b iso =>
      match XHR_send s with
      | Wrapper => send_wrapper x b iso s
      | Original => emit (RealSend x b) s
      end
  | XhrFire x c _ => fire x c s
  | FetchCall u o _ _ =>
      match window_fetch s with
      | Wrapper => fetch_wrapper u o s
      | Original =>
          emit (RealFetch (calls s) u o)
            (with_pending (<[calls s := Simple.Direct]> (pending s))
               (with_calls (S (calls s)) s))
      end
  | FetchSettle k r _ iso =>
      match pending s !! k with
      | None => s
      | Some Simple.Direct =>
          emit (FetchResult k r) (with_pending (delete k (pending s)) s)
      | Some (Simple.Awaiting u o) =>
          fetch_resume k u o r iso (with_pending (delete k (pending s)) s)
      end
  | Stop iso href download_ok =>
      if isCapturing s then fst (finish iso href download_ok s) else s
  end.

(** A session: the events in the order they happen. *)
Definition run (tr : list event) (s : state) : state := fold_left step tr s.

End Script.

End Reload.

(** ** extract_data.js: the scan of the globals *)

Module GlobalScan.
Import SafeSerialize.

(** [c.toLowerCase()] on a code unit below 256: the letters A to Z and
    the capital letters of Latin-1. *)
Definition lower (c : ascii) : ascii :=
  let n := nat_of_ascii c in
  if ((65 <=? n)%nat && (n <=? 90)%nat)
     || ((192 <=? n)%nat && (n <=? 222)%nat && negb (n =? 215)%nat)
  then ascii_of_nat (n + 32) else c.

(** [key.toLowerCase()] *)
Fixpoint toLowerCase (s : string) : string :=
  match s with
  | EmptyString => EmptyString
  | String c rest => String (lower c) (toLowerCase rest)
  end.

(** The filter of [globalKeys]. *)
Definition is_global_key (key : string) : bool :=
  includes (toLowerCase key) "mpg" || includes (toLowerCase key) "store"
  || includes (toLowerCase key) "state" || String.prefix "__" key.

(** [Object.keys(window).filter(...)] *)
Definition globalKeys (window : list (string * prop)) : list string :=
  List.filter is_global_key (map fst window).

(** Truthiness of a runtime value. *)
Definition truthy_value (v : value) : bool :=
  match v with
  | VNull | VUndefined => false
  | VString s => negb (String.eqb s "")
  | VNumber z | VBigInt z => negb (z =? 0)%Z
  | VBoolean b => b
  | VFunction | VSymbol | VRef _ => true
  end.

(** [typeof value] *)
Definition typeof (v : value) : string :=
  match v with
  | VUndefined => "undefined"
  | VNull | VRef _ => "object"
  | VString _ => "string"
  | VNumber _ => "number"
  | VBoolean _ => "boolean"
  | VBigInt _ => "bigint"
  | VSymbol => "symbol"
  | VFunction => "function"
  end.

(** [window[key]]: an absent property reads as [undefined]. *)
Fixpoint get (key : string) (window : list (string * prop)) : prop :=
  match window with
  | [] => Data VUndefined
  | (k, p) :: rest => if String.eqb key k then p else get key rest
  end.

(** The body of [globalKeys.forEach]: the [catch] only logs. *)
Definition scan_key (h : heap) (window : list (string * prop)) (key : string)
    (extracted_data : list (string * jsval)) : exc (list (string * jsval)) :=
  try_catch
    (value ← read (get key window);
     if truthy_value value && String.eqb (typeof value) "object"
        && negb (includes key "frame")
     then
       r ← safeSerialize_default h value;
       Ret (assoc_set ("window_" ++ key) r extracted_data)
     else Ret extracted_data)
    (fun _ => Ret extracted_data).

(** [globalKeys.forEach(key => {...})] *)
Fixpoint for_each (body : string -> list (string * jsval) -> exc (list (string * jsval)))
    (ks : list string) (extracted_data : list (string * jsval))
  : exc (list (string * jsval)) :=
  match ks with
  | [] => Ret extracted_data
  | key :: rest =>
      extracted_data' ← body key extracted_data;
      for_each body rest extracted_data'
  end.

(** The scan: from the filter of the keys to the end of the [forEach]. *)
Definition scan_globals (h : heap) (window : list (string * prop))
    (extracted_data : list (string * jsval)) : exc (list (string * jsval)) :=
  for_each (scan_key h window) (globalKeys window) extracted_data.

(** [if (window.store) { try { ... = safeSerialize(window.store.getState())
    } catch(e) {...} }]: [getState] is how the call
    [window.store.getState()] ends.  The test itself is in no [try]. *)
Definition redux_state (h : heap) (window : list (string * prop)) (getState : exc value)
    (extracted_data : list (string * jsval)) : exc (list (string * jsval)) :=
  store ← read (get "store" window);
  if truthy_value store
  then
    try_catch
      (st ← getState;
       r ← safeSerialize_default h st;
       Ret (assoc_set "redux_state" r extracted_data))
      (fun _ => Ret extracted_data)
  else Ret extracted_data.

End GlobalScan.

(** ** extract_data.js: the replacer of the export *)

Module JsonReplacer.
Import SafeSerialize.

(** [jsonReplacer(key, value)] with the set [seen] it closes over: the
    set after the call and the value returned.  [key] is not used. *)
Definition jsonReplacer (seen : gset nat) (value : SafeSerialize.value)
  : gset nat * SafeSerialize.value :=
  match value with
  | VRef a =>
      if bool_decide (a ∈ seen) then (seen, VString "[Circular Reference]")
      else ({[a]} ∪ seen, VRef a)
  | VFunction => (seen, VString "[Function]")
  | VSymbol => (seen, VString "[Symbol]")
  | VUndefined => (seen, VString "[Undefined]")
  | VNull | VString _ | VNumber _ | VBoolean _ | VBigInt _ => (seen, value)
  end.

(** The calls [JSON.stringify] makes to the replacer, one after the
    other: the values returned, and the set at the end. *)
Fixpoint replace_all (seen : gset nat) (values : list value) : gset nat * list value :=
  match values with
  | [] => (seen, [])
  | v :: rest =>
      let '(seen1, r) := jsonReplacer seen v in
      let '(seen2, rs) := replace_all seen1 rest in
      (seen2, r :: rs)
  end.

End JsonReplacer.

(** ** The list of endpoints of extract_data_simple.js and extract_with_reload.js *)

Module Endpoints.

(** [new URL(v).pathname], where [None] stands for the [TypeError] of
    the constructor on a value that is no absolute URL. *)
Class URLApi := { URL_pathname : jsval -> option string }.

Section Summary.
Context `{URLApi}.

(** extract_data_simple.js and extract_with_reload.js, the callback of
    [capturedRequests.map]: the path of the URL, or the URL up to its
    first question mark when it does not parse. *)
Definition endpoint (r : jsval) : exc string :=
  match URL_pathname (get_field "url" r) with
  | Some pathname => Ret pathname
  | None =>
      match get_field "url" r with
      | JStr url => Ret (hd "" (split "?" url))
      | _ => Throw "r.url.split is not a function"
      end
  end.

(** [xs.map(f)] with a callback that may throw. *)
Fixpoint map_exc {A B : Type} (f : A -> exc B) (xs : list A) : exc (list B) :=
  match xs with
  | [] => Ret []
  | x :: rest =>
      y ← f x;
      ys ← map_exc f rest;
      Ret (y :: ys)
  end.

(** [[...new Set(xs)]]: the values in the order of their first
    occurrence; [seen] holds the values met so far. *)
Fixpoint unique_from (seen xs : list string) : list string :=
  match xs with
  | [] => []
  | x :: rest =>
      if bool_decide (x ∈ seen) then unique_from seen rest
      else x :: unique_from (x :: seen) rest
  end.

(** The [endpoints] array of the two scripts. *)
Definition endpoints (capturedRequests : list jsval) : exc (list string) :=
  xs ← map_exc endpoint capturedRequests;
  Ret (unique_from [] xs).

End Summary.

(** A page whose URLs are all relative: no URL parses. *)
Definition relative_only : URLApi := {| URL_pathname := fun _ => None |}.

End Endpoints.

(** ** extract_data.js: the capture of the calls

    The wrappers of extract_data.js have no filter: every call gets a
    record.  The script is followed from the installation of the wrappers
    to their removal after the wait; the export of the buffer is
    [ExtractData.export]. *)

Module Capture.
Import Browser.

(** The slots the [open] wrapper writes on the XHR object. *)
Record xhr_slots := { _method : string; _url : url_arg }.

(** An XHR object: the slots, absent until the wrapped [open] ran on it,
    and the listeners the wrapped [send] added, each with the
    [requestInfo] object it captured. *)
Record xhr_object := { slots : option xhr_slots; listeners : list (listener_kind * nat) }.

(** An object the script has not touched. *)
#[global] Instance xhr_object_inhabited : Inhabited xhr_object :=
  populate {| slots := None; listeners := [] |}.

(** A [fetch] invocation suspended at [await originalFetch.apply(this,
    args)]: the native function, or the wrapper with its arguments and
    the timestamp of its [requestInfo]. *)
Inductive continuation : Type :=
| Direct
| Capturing (u : url_arg) (o : option fetch_options) (iso : string).

(** The variables of the script body and the globals it patches. *)
Record state := {
  window_fetch : entry;
  XHR_open : entry;
  XHR_send : entry;
  capturedRequests : list nat;
  objects : gmap nat jsval;
  allocated : nat;
  xhrs : gmap nat xhr_object;
  pending : gmap nat continuation;
  calls : nat;
  effects : list effect }.

(** Field updates. *)
Definition with_capturedRequests (v : list nat) (s : state) : state :=
  {| window_fetch := window_fetch s; XHR_open := XHR_open s;
     XHR_send := XHR_send s; capturedRequests := v; objects := objects s;
     allocated := allocated s; xhrs := xhrs s; pending := pending s;
     calls := calls s; effects := effects s |}.

Definition with_objects (v : gmap nat jsval) (s : state) : state :=
  {| window_fetch := window_fetch s; XHR_open := XHR_open s;
     XHR_send := XHR_send s; capturedRequests := capturedRequests s;
     objects := v; allocated := allocated s; xhrs := xhrs s;
     pending := pending s; calls := calls s; effects := effects s |}.

Definition with_allocated (v : nat) (s : state) : state :=
  {| window_fetch := window_fetch s; XHR_open := XHR_open s;
     XHR_send := XHR_send s; capturedRequests := capturedRequests s;
     objects := objects s; allocated := v; xhrs := xhrs s;
     pending := pending s; calls := calls s; effects := effects s |}.

Definition with_xhrs (v : gmap nat xhr_object) (s : state) : state :=
  {| window_fetch := window_fetch s; XHR_open := XHR_open s;
     XHR_send := XHR_send s; capturedRequests := capturedRequests s;
     objects := objects s; allocated := allocated s; xhrs := v;
     pending := pending s; calls := calls s; effects := effects s |}.

Definition with_pending (v : gmap nat continuation) (s : state) : state :=
  {| window_fetch := window_fetch s; XHR_open := XHR_open s;
     XHR_send := XHR_send s; capturedRequests := capturedRequests s;
     objects := objects s; allocated := allocated s; xhrs := xhrs s;
     pending := v; calls := calls s; effects := effects s |}.

Definition with_calls (v : nat) (s : state) : state :=
  {| window_fetch := window_fetch s; XHR_open := XHR_open s;
     XHR_send := XHR_send s; capturedRequests := capturedRequests s;
     objects := objects s; allocated := allocated s; xhrs := xhrs s;
     pending := pending s; calls := v; effects := effects s |}.

Definition with_effects (v : list effect) (s : state) : state :=
  {| window_fetch := window_fetch s; XHR_open := XHR_open s;
     XHR_send := XHR_send s; capturedRequests := capturedRequests s;
     objects := objects s; allocated := allocated s; xhrs := xhrs s;
     pending := pending s; calls := calls s; effects := v |}.

(** An effect on the outside. *)
Definition emit (e : effect) (s : state) : state := with_effects (effects s ++ [e]) s.

(** [capturedRequests.push(requestInfo)] *)
Definition push (ref : nat) (s : state) : state :=
  with_capturedRequests (capturedRequests s ++ [ref]) s.

(** An assignment to a property of the [requestInfo] object [ref]. *)
Definition assign (ref : nat) (k : string) (v : jsval) (s : state) : state :=
  with_objects (alter (set_prop k v) ref (objects s)) s.

(** A fresh [requestInfo] object. *)
Definition alloc (requestInfo : jsval) (s : state) : state :=
  with_allocated (S (allocated s))
    (with_objects (<[allocated s := requestInfo]> (objects s)) s).

(** The XHR object [x]. *)
Definition xhr_at (s : state) (x : nat) : xhr_object := xhrs s !!! x.

(** The object behind a reference of the buffer. *)
Definition deref (s : state) (ref : nat) : jsval := default JUndefined (objects s !! ref).

(** The state when the wrappers have been installed. *)
Definition init : state :=
  {| window_fetch := Wrapper; XHR_open := Wrapper; XHR_send := Wrapper;
     capturedRequests := []; objects := ∅; allocated := 0; xhrs := ∅;
     pending := ∅; calls := 0; effects := [] |}.

Section Script.
Context `{JSONApi}.

(** [XMLHttpRequest.prototype.open = function(method, url) {...}] *)
Definition open_wrapper (x : nat) (m : string) (u : url_arg) (s : state) : state :=
  let this := xhr_at s x in
  let this' := {| slots := Some {| _method := m; _url := u |};
                  listeners := listeners this |} in
  emit (RealOpen x m u) (with_xhrs (<[x := this']> (xhrs s)) s).

(** [this._url] and [this._method] as property values: [undefined] on an
    object that was not opened under the wrapper. *)
Definition slot_url (this : xhr_object) : jsval :=
  match slots this with Some sl => url_json (_url sl) | None => JUndefined end.

Definition slot_method (this : xhr_object) : jsval :=
  match slots this with Some sl => JStr (_method sl) | None => JUndefined end.

(** [XMLHttpRequest.prototype.send = function() {...}]: every send gets a
    [requestInfo] and the two listeners. *)
Definition send_wrapper (x : nat) (b : body_arg) (iso : string) (s : state) : state :=
  let this := xhr_at s x in
  let requestInfo :=
    JObj [("url", slot_url this); ("method", slot_method this);
          ("timestamp", JStr iso); ("type", JStr "xhr")] in
  let this' := {| slots := slots this;
                  listeners := listeners this
                               ++ [(OnLoad, allocated s); (OnError, allocated s)] |} in
  emit (RealSend x b) (with_xhrs (<[x := this']> (xhrs s)) (alloc requestInfo s)).

(** The ['load'] listener. *)
Definition on_load (ref : nat) (st : Z) (responseText : string) (s : state) : state :=
  let s1 := assign ref "status" (JNum st) s in
  let s2 :=
    match JSON_parse responseText with
    | Some responseData => assign ref "response" responseData s1
    | None =>
        assign ref "response_preview" (JStr (substring0 200 responseText))
          (assign ref "response_type" (JStr "non-json") s1)
    end in
  push ref s2.

(** The ['error'] listener. *)
Definition on_error (ref : nat) (s : state) : state :=
  push ref (assign ref "error" (JStr "XHR Error") s).

(** One listener on one completion event. *)
Definition run_listener (c : xhr_completion) (s : state) (l : listener_kind * nat) : state :=
  match l, c with
  | (OnLoad, ref), Load st _ responseText _ => on_load ref st responseText s
  | (OnError, ref), Error => on_error ref s
  | _, _ => s
  end.

(** The browser dispatches a completion event to the listeners of the
    object, in the order they were added. *)
Definition fire (x : nat) (c : xhr_completion) (s : state) : state :=
  fold_left (run_listener c) (listeners (xhr_at s x)) s.

(** [window.fetch = async function(...args) {...}] up to its [await]. *)
Definition fetch_wrapper (u : url_arg) (o : option fetch_options) (iso : string)
    (s : state) : state :=
  let k := calls s in
  emit (RealFetch k u o)
    (with_pending (<[k := Capturing u o iso]> (pending s)) (with_calls (S k) s)).

(** What the caller of the wrapped [fetch] gets: the response, or the
    error the [catch] block throws again, which is the rejection of the
    real [fetch] or the exception of [response.clone()]. *)
Definition settled_with (r : fetch_outcome) : fetch_outcome :=
  match r with
  | Rejected msg => Rejected msg
  | Resolved response =>
      match clone response with
      | Ret _ => Resolved response
      | Throw msg => Rejected msg
      end
  end.

(** The wrapper after its [await]: the [requestInfo], which no other
    closure holds, is pushed as [ExtractData.fetch_requestInfo] gives
    it. *)
Definition fetch_resume (k : nat) (u : url_arg) (o : option fetch_options) (iso : string)
    (r : fetch_outcome) (s : state) : state :=
  emit (FetchResult k (settled_with r))
    (push (allocated s) (alloc (ExtractData.fetch_requestInfo u o iso r) s)).

(** [// Restore original fetch and XHR], after the wait. *)
Definition restore (s : state) : state :=
  {| window_fetch := Original; XHR_open := Original; XHR_send := Original;
     capturedRequests := capturedRequests s; objects := objects s;
     allocated := allocated s; xhrs := xhrs s; pending := pending s;
     calls := calls s; effects := effects s |}.

(** One event; [Stop] is the end of the wait. *)
Definition step (s : state) (e : event) : state :=
  match e with
  | XhrOpen x m u _ =>
      match XHR_open s with
      | Wrapper => open_wrapper x m u s
      | Original => emit (RealOpen x m u) s
      end
  | XhrSend x b iso =>
      match XHR_send s with
      | Wrapper => send_wrapper x b iso s
      | Original => emit (RealSend x b) s
      end
  | XhrFire x c _ => fire x c s
  | FetchCall u o _ iso =>
      match window_fetch s with
      | Wrapper => fetch_wrapper u o iso s
      | Original =>
          emit (RealFetch (calls s) u o)
            (with_pending (<[calls s := Direct]> (pending s)) (with_calls (S (calls s)) s))
      end
  | FetchSettle k r _ _ =>
      match pending s !! k with
      | None => s
      | Some Direct =>
          emit (FetchResult k r) (with_pending (delete k (pending s)) s)
      | Some (Capturing u o iso) =>
          fetch_resume k u o iso r (with_pending (delete k (pending s)) s)
      end
  | Stop _ _ _ => restore s
  end.

(** A session: the events in the order they happen. *)
Definition run (tr : list event) (s : state) : state := fold_left step tr s.

End Script.

End Capture.

(** ** The vocabulary of the properties *)

Import Browser.

(** The artifact an effect hands to the user, if it is an export. *)
Definition exported (e : effect) : option jsval :=
  match e with
  | Download a | ConsoleDump a => Some a
  | _ => None
  end.

(** The artifacts exported so far, oldest first. *)
Definition exports (l : list effect) : list jsval := omap exported l.

(** [total_captured] is the length of [api_calls]. *)
Definition count_matches (artifact : jsval) : Prop :=
  exists calls,
    get_field "api_calls" artifact = JArr calls
    /\ get_field "total_captured" artifact = JNum (Z.of_nat (length calls)).

(** The keys of every entry of [api_calls] in extract_no_har.js. *)
Definition export_keys : list string :=
  ["url"; "method"; "status"; "timestamp"; "response"; "duration_ms"].

(** The falsy values [JSON.parse] can return. *)
Definition falsy_json : list jsval := [JBool false; JNum 0; JStr ""; JNull].

(** [req.responseText || null] *)
Definition text_or_null (req : jsval) : jsval :=
  js_or (get_field "responseText" req) JNull.

(** Calls of [stopCapture], by hand or from the ten-minute timer. *)
Definition stop_events (stops : list (string * string * bool)) : list event :=
  map (fun st => Stop st.1.1 st.1.2 st.2) stops.

(** What the three patched globals hold. *)
Definition entries (s : NoHar.state) : entry * entry * entry :=
  (NoHar.window_fetch s, NoHar.XHR_open s, NoHar.XHR_send s).

(** The fields of a call in the minimal schema of the specification. *)
Definition minimal_call_keys : list string :=
  ["url"; "method"; "status"; "timestamp"; "response"; "response_preview"].

(** How many of [response], [responseText] and [error] a record of
    extract_no_har.js carries. *)
Definition outcome_count (rd : jsval) : nat :=
  Nat.b2n (has_prop "response" rd) + Nat.b2n (has_prop "responseText" rd)
  + Nat.b2n (has_prop "error" rd).

(** The keys counted by [outcome_count]. *)
Definition outcome_key (k : string) : bool :=
  String.eqb k "response" || String.eqb k "responseText" || String.eqb k "error".

(** The completions on which a listener of extract_no_har.js runs. *)
Definition completes (c : xhr_completion) : bool :=
  match c with
  | Load _ _ _ _ | Error => true
  | Abort | Timeout => false
  end.

(** The page sends each XHR object at most once, and the browser fires at
    most one of [load] and [error] on each: [sent] and [fired] are the
    objects that had theirs. *)
Fixpoint well_formed (sent fired : gset nat) (tr : list event) : bool :=
  match tr with
  | [] => true
  | e :: tr' =>
      match e with
      | XhrSend x _ _ =>
          bool_decide (x ∉ sent) && well_formed ({[x]} ∪ sent) fired tr'
      | XhrFire x c _ =>
          if completes c
          then bool_decide (x ∉ fired) && well_formed sent ({[x]} ∪ fired) tr'
          else well_formed sent fired tr'
      | _ => well_formed sent fired tr'
      end
  end.

(** How many of [response], [response_text] and [error] a record of
    extract_data_simple.js carries. *)
Definition simple_outcome_count (rd : jsval) : nat :=
  Nat.b2n (has_prop "response" rd) + Nat.b2n (has_prop "response_text" rd)
  + Nat.b2n (has_prop "error" rd).

(** The keys counted by [simple_outcome_count]. *)
Definition simple_outcome_key (k : string) : bool :=
  String.eqb k "response" || String.eqb k "response_text" || String.eqb k "error".

(** *** Records and their owners in extract_no_har.js *)

Module NoHarSpec.
Import NoHar.

(** The reference [id] points at a record object. *)
Definition live (s : state) (id : nat) : Prop := is_object (deref s id) = true.

(** The record's [url] is a string that passed the filter. *)
Definition scoped (rd : jsval) : Prop :=
  exists u, get_field "url" rd = JStr u /\ in_scope (UStr u) = Ret true.

(** What holds of the record objects in every state the script reaches:
    they were created for in-scope URLs, their ids are at most the
    counter, and the buffer, the listeners and the suspended invocations
    refer to existing records. *)
Record heap_ok (s : state) : Prop := {
  live_scoped : forall id, live s id -> scoped (deref s id);
  live_bound : forall id, live s id -> id <= requestCounter s;
  requests_live : forall id, id ∈ requests s -> live s id;
  listeners_live :
    forall x k id t, (k, id, t) ∈ listeners (xhr_at s x) -> live s id;
  pending_live :
    forall k id t, pending s !! k = Some (Capturing id t) -> live s id }.

(** Who may still push a record: the listeners of an XHR object that has
    not fired, or a suspended fetch invocation. *)
Inductive owner : Type :=
| OXhr (x : nat)
| OFetch (k : nat).

(** The owner [o] holds the record [id]. *)
Definition owns (s : state) (fired : gset nat) (o : owner) (id : nat) : Prop :=
  match o with
  | OXhr x => (x ∉ fired) /\ exists k t, (k, id, t) ∈ listeners (xhr_at s x)
  | OFetch k => exists t, pending s !! k = Some (Capturing id t)
  end.

(** The record was created by the fetch wrapper. *)
Definition is_fetch_record (rd : jsval) : Prop := get_field "type" rd = JStr "fetch".

(** A buffered record has one outcome; a fetch record may have none. *)
Definition done (rd : jsval) : Prop :=
  outcome_count rd = 1 \/ (outcome_count rd = 0 /\ is_fetch_record rd).

(** The lifecycle of the records along a trace whose XHR objects are each
    sent once and complete once: an object that was not sent has no
    listener, an object has the two listeners of one send or none, a record
    still owned has no outcome and is not in the buffer, no record has two
    owners, and the buffer holds finished records without repetition. *)
Record life_ok (sent fired : gset nat) (s : state) : Prop := {
  unsent_silent : forall x, x ∉ sent -> listeners (xhr_at s x) = [];
  listeners_shape :
    forall x, listeners (xhr_at s x) = []
              \/ exists id t, listeners (xhr_at s x) = [(OnLoad, id, t); (OnError, id, t)];
  owned_blank :
    forall o id, owns s fired o id ->
                 outcome_count (deref s id) = 0 /\ id ∉ requests s;
  owned_fetch :
    forall k id, owns s fired (OFetch k) id -> is_fetch_record (deref s id);
  owner_unique :
    forall o o' id, owns s fired o id -> owns s fired o' id -> o = o';
  requests_nodup : NoDup (requests s);
  requests_done : forall id, id ∈ requests s -> done (deref s id) }.

(** The listener runs on this completion. *)
Definition triggers (l : listener) (c : xhr_completion) : bool :=
  match l, c with
  | (OnLoad, _, _), Load _ _ _ _ => true
  | (OnError, _, _), Error => true
  | _, _ => false
  end.

(** The record [id] after an [error] event. *)
Definition errored (s : state) (id : nat) : Prop :=
  get_field "error" (deref s id) = JStr "Network Error"
  /\ get_field "status" (deref s id) = JNum 0.

(** The record [id] after a [load] event whose text is not JSON. *)
Definition previewed (responseText : string) (s : state) (id : nat) : Prop :=
  get_field "responseText" (deref s id) = JStr (substring0 1000 responseText).

End NoHarSpec.

(** *** Records and their listeners in extract_data_simple.js *)

Module SimpleSpec.
Import Simple.

(** The reference [ref] points at a record object. *)
Definition live (s : state) (ref : nat) : Prop := is_object (deref s ref) = true.

(** Records are numbered below [allocated], and the buffer and the
    listeners refer to existing records. *)
Record heap_ok (s : state) : Prop := {
  live_bound : forall ref, live s ref -> ref < allocated s;
  requests_live : forall ref, ref ∈ capturedRequests s -> live s ref;
  listeners_live : forall x ref, ref ∈ listeners (xhr_at s x) -> live s ref }.

(** The record was created by the fetch wrapper. *)
Definition is_fetch_record (rd : jsval) : Prop := get_field "type" rd = JStr "fetch".

(** A buffered record has one outcome; a fetch record may have none. *)
Definition done (rd : jsval) : Prop :=
  simple_outcome_count rd = 1 \/ (simple_outcome_count rd = 0 /\ is_fetch_record rd).

(** The lifecycle of the records along a trace whose XHR objects are each
    sent once and complete once. *)
Record life_ok (sent fired : gset nat) (s : state) : Prop := {
  unsent_silent : forall x, x ∉ sent -> listeners (xhr_at s x) = [];
  listeners_shape :
    forall x, listeners (xhr_at s x) = [] \/ exists ref, listeners (xhr_at s x) = [ref];
  owned_blank :
    forall x ref, x ∉ fired -> ref ∈ listeners (xhr_at s x) ->
                  simple_outcome_count (deref s ref) = 0 /\ ref ∉ capturedRequests s;
  owner_unique :
    forall x x' ref, x ∉ fired -> x' ∉ fired ->
                     ref ∈ listeners (xhr_at s x) -> ref ∈ listeners (xhr_at s x') -> x = x';
  requests_nodup : NoDup (capturedRequests s);
  requests_done : forall ref, ref ∈ capturedRequests s -> done (deref s ref) }.

(** Both together. *)
Definition invariant (sent fired : gset nat) (s : state) : Prop :=
  heap_ok s /\ life_ok sent fired s.

End SimpleSpec.

(** ** Example sessions *)

(** The response of the examples: status 200 with an unused JSON body. *)
Definition ok_response : Response :=
  {| resp_status := 200; resp_statusText := "OK"; body := Some "[]"; bodyUsed := false |}.

(** A response whose text is [0]: the parsed value is the number zero, and
    the export carries null in its place. *)
Definition zero_response_trace : list event :=
  [XhrOpen 0 "GET" (UStr "https://api.mpg.football/count") 0;
   XhrSend 0 BAbsent "2024-01-01T00:00:00.000Z";
   XhrFire 0 (Load 200 "OK" "0" "") 7].

(** The record of that call. *)
Definition zero_response_record : jsval :=
  NoHar.deref (NoHar.run zero_response_trace (NoHar.init "2024-01-01T00:00:00.000Z")) 1.

(** A plain-text answer to a fetch, as extract_data.js records it. *)
Definition text_call : jsval :=
  ExtractData.fetch_requestInfo (UStr "https://api.mpg.football/news") None
    "2024-01-01T00:00:00.000Z"
    (Resolved {| resp_status := 200; resp_statusText := "OK";
                 body := Some "hello"; bodyUsed := false |}).

(** The [data] object of a session of extract_data.js with that call. *)
Definition text_session : jsval :=
  ExtractData.data "2024-01-01T00:00:00.000Z" "https://mpg.football/"
    [("localStorage", JObj [])] [text_call].

(** An in-scope XHR call that the page aborts: the URL passes the filter,
    no record is ever pushed, and the export has no call. *)
Definition aborted_trace : list event :=
  [XhrOpen 0 "GET" (UStr "https://api.mpg.football/api/league") 0;
   XhrSend 0 BAbsent "2024-01-01T00:00:00.000Z";
   XhrFire 0 Abort 40;
   Stop "2024-01-01T00:10:00.000Z" "https://mpg.football/" true].

(** A session with one in-scope XHR call that loads: the record is in the
    buffer after the event. *)
Definition loaded_trace : list event :=
  [XhrOpen 0 "GET" (UStr "https://api.mpg.football/api/league") 0;
   XhrSend 0 BAbsent "2024-01-01T00:00:00.000Z"].

(** In extract_data_simple.js a failed call leaves no record: the fetch
    wrapper has no [catch] around its [await] and the XHR wrapper adds no
    ['error'] listener. *)
Definition failing_trace : list event :=
  [FetchCall (UStr "https://api.mpg.football/api/league") None 0
     "2024-01-01T00:00:00.000Z";
   FetchSettle 0 (Rejected "Failed to fetch") 30 "2024-01-01T00:00:00.030Z";
   XhrOpen 0 "GET" (UStr "https://api.mpg.football/api/user") 40;
   XhrSend 0 BAbsent "2024-01-01T00:00:00.040Z";
   XhrFire 0 Error 70].

(** A session of extract_no_har.js with a suspended in-scope fetch. *)
Definition suspended_trace : list event :=
  [FetchCall (UStr "https://api.mpg.football/api/league") None 0
     "2024-01-01T00:00:00.000Z"].

(** The response of a fetch whose body cannot be read. *)
Definition unreadable_response : Response :=
  {| resp_status := 200; resp_statusText := "OK"; body := None; bodyUsed := false |}.

(** A plain-text answer. *)
Definition not_found_response : Response :=
  {| resp_status := 404; resp_statusText := "Not Found"; body := Some "not found";
     bodyUsed := false |}.

(** A session with one in-scope fetch that resolves to [response]. *)
Definition fetch_trace (response : Response) : list event :=
  [FetchCall (UStr "https://api.mpg.football/api/league") None 0
     "2024-01-01T00:00:00.000Z";
   FetchSettle 0 (Resolved response) 30 "2024-01-01T00:00:00.030Z";
   Stop "2024-01-01T00:10:00.000Z" "https://mpg.football/" true].

(** An XHR object that is sent a second time keeps the listeners of its
    first send: the first record is pushed again by the second [load]. *)
Definition reuse_trace : list event :=
  [XhrOpen 0 "GET" (UStr "https://api.mpg.football/api/a") 0;
   XhrSend 0 BAbsent "2024-01-01T00:00:00.000Z";
   XhrFire 0 (Load 200 "OK" "[]" "") 10;
   XhrOpen 0 "GET" (UStr "https://api.mpg.football/api/b") 20;
   XhrSend 0 BAbsent "2024-01-01T00:00:00.020Z";
   XhrFire 0 (Load 200 "OK" "[]" "") 30].

(** A session with a JSON answer, a text answer and an unreadable one. *)
Definition mixed_trace : list event :=
  [FetchCall (UStr "https://api.mpg.football/api/a") None 0 "2024-01-01T00:00:00.000Z";
   XhrOpen 0 "GET" (UStr "https://api.mpg.football/api/b") 5;
   XhrSend 0 BAbsent "2024-01-01T00:00:00.005Z";
   FetchSettle 0 (Resolved ok_response) 20 "2024-01-01T00:00:00.020Z";
   XhrFire 0 (Load 404 "Not Found" "not found" "") 25;
   FetchCall (UStr "https://api.mpg.football/api/c") None 30 "2024-01-01T00:00:00.030Z";
   FetchSettle 1 (Resolved unreadable_response) 50 "2024-01-01T00:00:00.050Z";
   Stop "2024-01-01T00:10:00.000Z" "https://mpg.football/" true].


(** ** The vocabulary of the further properties *)

(** The character does not occur in the string. *)
Fixpoint lacks (c : ascii) (s : string) : bool :=
  match s with
  | EmptyString => true
  | String x rest => negb (Ascii.eqb x c) && lacks c rest
  end.

(** No separator starts inside [p] when [p] is followed by [tail]. *)
Fixpoint no_start (sep p tail : string) : bool :=
  match p with
  | EmptyString => true
  | String c p' => negb (String.prefix sep (p ++ tail)) && no_start sep p' tail
  end.

(** A header as [getAllResponseHeaders()] lists it: the name, a colon and
    a space, the value. *)
Definition header_line (nv : string * string) : string :=
  (nv.1 ++ ": " ++ nv.2)%string.

(** The header block of [getAllResponseHeaders()]: every line ends with
    CR LF. *)
Definition raw_headers (hs : list (string * string)) : string :=
  fold_right (fun nv acc => (header_line nv ++ NoHar.CRLF ++ acc)%string) "" hs.

(** A key that an assignment [object[key] = value] stores as an ordinary
    property, enumerated where it was added: not [__proto__], which the
    assignment hands to the setter of the prototype, and not an array
    index (it begins with a digit), which is enumerated before the other
    keys whenever it was added. *)
Definition ordinary_key (key : string) : bool :=
  negb (String.eqb key "__proto__")
  && match key with
     | String c _ => negb ((48 <=? nat_of_ascii c)%nat && (nat_of_ascii c <=? 57)%nat)
     | EmptyString => true
     end.

(** A header the block can carry and the listener stores as an ordinary
    property: an ordinary key without colon or carriage return as the
    name, no carriage return in the value, and no colon followed by a
    space in the value. *)
Definition plain_header (nv : string * string) : bool :=
  ordinary_key nv.1 && lacks ":" nv.1 && lacks "013" nv.1 && lacks "013" nv.2
  && negb (includes nv.2 ": ").

(** [responseHeaders[name] = value] for each header in turn. *)
Definition headers_object (hs : list (string * string)) : jsval :=
  JObj (fold_left (fun acc nv => assoc_set nv.1 (JStr nv.2) acc) hs []).

(** The object references among the values. *)
Definition refs (values : list SafeSerialize.value) : list nat :=
  omap (fun v => match v with SafeSerialize.VRef a => Some a | _ => None end) values.

(** A value [JSON.stringify] writes down or descends into: not
    [undefined], not a function, not a symbol. *)
Definition kept_by_stringify (v : SafeSerialize.value) : bool :=
  match v with
  | SafeSerialize.VUndefined | SafeSerialize.VFunction | SafeSerialize.VSymbol => false
  | _ => true
  end.

(** *** Plain data in the heap of [safeSerialize] *)

Module SafeSerializeSpec.
Import SafeSerialize.

(** The lists have the same length and [f] holds of the elements at the
    same places. *)
Fixpoint all2 {A B : Type} (f : A -> B -> bool) (xs : list A) (ys : list B) : bool :=
  match xs, ys with
  | [], [] => true
  | x :: xs', y :: ys' => f x y && all2 f xs' ys'
  | _, _ => false
  end.

(** The runtime value [v] is the JSON value [j] laid out in the heap:
    every element and every property is readable, and arrays and objects
    have the elements and the keys of [j], in its order. *)
Fixpoint holds (h : heap) (j : jsval) (v : value) : bool :=
  match j, v with
  | JUndefined, VUndefined => true
  | JNull, VNull => true
  | JBool b, VBoolean b' => Bool.eqb b b'
  | JNum z, VNumber z' => (z =? z')%Z
  | JStr s, VString s' => String.eqb s s'
  | JArr items, VRef a =>
      match h a with
      | HArray elems =>
          all2 (fun j' p => match p with Data v' => holds h j' v' | Denied => false end)
               items elems
      | _ => false
      end
  | JObj fields, VRef a =>
      match h a with
      | HObject props =>
          all2 (fun kj kp =>
                  String.eqb (fst kj) (fst kp)
                  && match snd kp with Data v' => holds h (snd kj) v' | Denied => false end)
               fields props
      | _ => false
      end
  | _, _ => false
  end.

(** Every key of every object of the value is an ordinary key that
    [safeSerialize] does not skip, and no object has the same key twice. *)
Fixpoint plain (j : jsval) : bool :=
  match j with
  | JArr items => forallb plain items
  | JObj fields =>
      forallb (fun kv => ordinary_key (fst kv) && negb (skipped (fst kv)) && plain (snd kv))
              fields
      && bool_decide (NoDup (map fst fields))
  | _ => true
  end.

(** No object of the value, at any level, has a key that [safeSerialize]
    skips. *)
Fixpoint no_skipped (j : jsval) : bool :=
  match j with
  | JArr items => forallb no_skipped items
  | JObj fields => forallb (fun kv => negb (skipped (fst kv)) && no_skipped (snd kv)) fields
  | _ => true
  end.

(** The loop body of the object case. *)
Definition loop_body (f : value -> exc jsval) (key : string) (p : prop)
    (result : list (string * jsval)) : exc (list (string * jsval)) :=
  try_catch
    (if skipped key then Ret result
     else value ← read p; r ← f value; Ret (assoc_set key r result))
    (fun _ => Ret (assoc_set key (JStr "[Access Denied]") result)).

(** A heap with a record and a list: the record at 0, its [tags] at 1. *)
Definition sample_heap : heap := fun a =>
  match a with
  | 0 => HObject [("name", Data (VString "Mbappe")); ("tags", Data (VRef 1))]
  | _ => HArray [Data (VNumber 7); Data VNull]
  end.

End SafeSerializeSpec.

(** *** The shape of the records of extract_no_har.js *)

Module NoHarShape.
Import NoHar NoHarSpec.

(** The keys of the [requestData] literal. *)
Definition base_keys : list string :=
  ["id"; "url"; "method"; "timestamp"; "type"; "requestBody"].

(** The keys the listeners of the XHR wrapper assign. *)
Definition xhr_keys : list string :=
  ["status"; "statusText"; "duration"; "responseSize"; "response"; "responseText";
   "responseHeaders"; "error"].

(** The keys the fetch wrapper comes to assign. *)
Definition fetch_keys : list string :=
  ["status"; "statusText"; "duration"; "responseSize"; "response"; "error"].

(** [requestData.type] of the record [id]. *)
Definition kind (s : state) (id : nat) : jsval := get_field "type" (deref s id).

(** The keys a record of that type may carry besides those of the
    literal. *)
Definition extra_keys (ty : jsval) : list string :=
  match ty with
  | JStr t => if String.eqb t "xhr" then xhr_keys
              else if String.eqb t "fetch" then fetch_keys else []
  | _ => []
  end.

(** The record [id] as a wrapper made it and its closures left it: its
    [id] is its number, the keys of the literal come first, its type is
    one of the two, and every key is one the type allows. *)
Definition record_ok (id : nat) (rd : jsval) : Prop :=
  get_field "id" rd = JNum (Z.of_nat id)
  /\ take 6 (keys rd) = base_keys
  /\ (get_field "type" rd = JStr "xhr" \/ get_field "type" rd = JStr "fetch")
  /\ Forall (fun k => In k (base_keys ++ extra_keys (get_field "type" rd))) (keys rd).

(** A record in the buffer has a status or an error. *)
Definition settled (rd : jsval) : Prop :=
  has_prop "status" rd = true \/ has_prop "error" rd = true.

(** What holds of the records in every state the script reaches. *)
Record shape_ok (s : state) : Prop := {
  records_ok : forall id, live s id -> 1 <= id /\ record_ok id (deref s id);
  listeners_xhr :
    forall x k id t, (k, id, t) ∈ listeners (xhr_at s x) -> kind s id = JStr "xhr";
  pending_fetch :
    forall k id t, pending s !! k = Some (Capturing id t) -> kind s id = JStr "fetch";
  requests_settled : forall id, id ∈ requests s -> settled (deref s id) }.

(** What the closures leave as it is: everything but the records and the
    buffer. *)
Definition same_frame (s s' : state) : Prop :=
  entries s' = entries s /\ requestCounter s' = requestCounter s
  /\ xhrs s' = xhrs s /\ pending s' = pending s /\ calls s' = calls s
  /\ (forall id, live s' id <-> live s id).

End NoHarShape.

(** *** The page without a script *)

(** What the page observes of its own calls when no script has patched
    the globals: the real operations, and each [fetch] settling with what
    the network gave. *)
Module Native.

Record state := { calls : nat; pending : gset nat; effects : list effect }.

Definition init : state := {| calls := 0; pending := ∅; effects := [] |}.

Definition emit (e : effect) (s : state) : state :=
  {| calls := calls s; pending := pending s; effects := effects s ++ [e] |}.

Definition step (s : state) (e : event) : state :=
  match e with
  | XhrOpen x m u _ => emit (RealOpen x m u) s
  | XhrSend x b _ => emit (RealSend x b) s
  | XhrFire _ _ _ => s
  | FetchCall u o _ _ =>
      {| calls := S (calls s); pending := {[calls s]} ∪ pending s;
         effects := effects s ++ [RealFetch (calls s) u o] |}
  | FetchSettle k r _ _ =>
      if bool_decide (k ∈ pending s)
      then {| calls := calls s; pending := pending s ∖ {[k]};
              effects := effects s ++ [FetchResult k r] |}
      else s
  | Stop _ _ _ => s
  end.

Definition run (tr : list event) (s : state) : state := fold_left step tr s.

End Native.

(** The effect is an export of the script, not an operation of the
    page. *)
Definition is_export (e : effect) : bool :=
  match e with Download _ | ConsoleDump _ => true | _ => false end.

(** The effects as the page sees them: without the exports. *)
Definition page_view (l : list effect) : list effect :=
  List.filter (fun e => negb (is_export e)) l.

(** The URL argument is a string, or absent. *)
Definition plain_url (u : url_arg) : bool :=
  match u with UObject _ => false | _ => true end.

(** The page passes strings as URLs. *)
Definition string_urls (e : event) : bool :=
  match e with
  | XhrOpen _ _ u _ | FetchCall u _ _ _ => plain_url u
  | _ => true
  end.

(** The real [fetch] resolves with a response whose body is unread. *)
Definition fresh_response (e : event) : bool :=
  match e with
  | FetchSettle _ (Resolved response) _ _ => negb (bodyUsed response)
  | _ => true
  end.

(** The event is a call of [open] on the XHR object [x]. *)
Definition opens (x : nat) (e : event) : bool :=
  match e with XhrOpen x' _ _ _ => Nat.eqb x' x | _ => false end.

(** The event is a call of [open] or of [send] on the XHR object [x]. *)
Definition touches (x : nat) (e : event) : bool :=
  match e with
  | XhrOpen x' _ _ _ | XhrSend x' _ _ => Nat.eqb x' x
  | _ => false
  end.

(** In the session nobody calls [open] on the XHR object [x]: it was
    opened before the script was pasted, or never. *)
Definition never_opened (x : nat) (tr : list event) : bool :=
  forallb (fun e => negb (opens x e)) tr.

(** A request that was opened before the script started: it is sent and
    loads during the session, with a URL the filters accept. *)
Definition early_trace : list event :=
  [XhrSend 3 BAbsent "2024-01-01T00:00:00.000Z";
   XhrOpen 0 "GET" (UStr "https://api.mpg.football/api/b") 1;
   XhrFire 3 (Load 200 "OK" "[]" "") 5].

(** The string up to the first occurrence of the character. *)
Fixpoint before (c : ascii) (s : string) : string :=
  match s with
  | EmptyString => EmptyString
  | String x rest => if Ascii.eqb x c then EmptyString else String x (before c rest)
  end.

(** The [url] of the record is a string. *)
Definition has_string_url (r : jsval) : bool :=
  match get_field "url" r with JStr _ => true | _ => false end.

(** Two records with relative URLs that differ in the query only. *)
Definition relative_records : list jsval :=
  [JObj [("url", JStr "/mpg.football/api/players?page=1")];
   JObj [("url", JStr "/mpg.football/api/players?page=2")]].

(** *** The scan of the globals *)

Module GlobalScanSpec.
Import SafeSerialize GlobalScan.

(** What one key can do to [extracted_data]. *)
Definition step_ok (window : list (string * prop)) (key : string)
    (before after : list (string * jsval)) : Prop :=
  (forall k, k ∈ map fst before -> k ∈ map fst after)
  /\ (forall kv, kv ∈ after ->
        kv ∈ before
        \/ (kv.1 = ("window_" ++ key)%string /\ jdepth kv.2 <= 4
            /\ includes key "frame" = false))
  /\ (forall a, get key window = Data (VRef a) -> includes key "frame" = false ->
        ("window_" ++ key)%string ∈ map fst after).

End GlobalScanSpec.

(** *** The script and the bare page *)

Module NoHarPageSpec.
Import NoHar.

(** The script and the bare page agree on what the page sees. *)
Definition agree (s : state) (n : Native.state) : Prop :=
  calls s = Native.calls n
  /\ (forall k, is_Some (pending s !! k) <-> k ∈ Native.pending n)
  /\ page_view (effects s) = Native.effects n
  /\ (forall x sl, slots (xhr_at s x) = Some sl -> plain_url (_captureUrl sl) = true).

End NoHarPageSpec.

Module SimplePageSpec.
Import Simple.

(** The script and the bare page agree on what the page sees. *)
Definition agree (s : state) (n : Native.state) : Prop :=
  calls s = Native.calls n
  /\ (forall k, is_Some (pending s !! k) <-> k ∈ Native.pending n)
  /\ page_view (effects s) = Native.effects n
  /\ (forall x sl, slots (xhr_at s x) = Some sl -> plain_url (_mpg_url sl) = true)
  /\ (forall k u o, pending s !! k = Some (Awaiting u o) -> plain_url u = true).

End SimplePageSpec.

Module ReloadPageSpec.
Import Reload.

(** The script and the bare page agree on what the page sees. *)
Definition agree (s : state) (n : Native.state) : Prop :=
  calls s = Native.calls n
  /\ (forall k, is_Some (pending s !! k) <-> k ∈ Native.pending n)
  /\ page_view (effects s) = Native.effects n
  /\ (forall x sl, Simple.slots (xhr_at s x) = Some sl -> plain_url (Simple._mpg_url sl) = true)
  /\ (forall k u o, pending s !! k = Some (Simple.Awaiting u o) -> plain_url u = true).

End ReloadPageSpec.

(** *** The capture window of extract_with_reload.js *)

Module ReloadSpec.
Import Reload.

(** The window is closed and the globals hold the originals. *)
Definition closed (s : state) : Prop :=
  isCapturing s = false /\ window_fetch s = Original /\ XHR_open s = Original
  /\ XHR_send s = Original.

End ReloadSpec.

(** *** XHR objects the script has not touched *)

Module UnopenedSpec.

(** The script has written nothing on the XHR object. *)
Definition NoHar_blank (s : NoHar.state) (x : nat) : Prop :=
  NoHar.slots (NoHar.xhr_at s x) = None /\ NoHar.listeners (NoHar.xhr_at s x) = [].

(** The same for the two scripts that share the XHR slots. *)
Definition Simple_blank (s : Simple.state) (x : nat) : Prop :=
  Simple.slots (Simple.xhr_at s x) = None /\ Simple.listeners (Simple.xhr_at s x) = [].

Definition Reload_blank (s : Reload.state) (x : nat) : Prop :=
  Simple.slots (Reload.xhr_at s x) = None /\ Simple.listeners (Reload.xhr_at s x) = [].

End UnopenedSpec.

(** *** extract_data.js and the bare page *)

Module CapturePageSpec.
Import Capture.

(** The script and the bare page agree on what the page sees. *)
Definition agree (s : state) (n : Native.state) : Prop :=
  calls s = Native.calls n
  /\ (forall k, is_Some (pending s !! k) <-> k ∈ Native.pending n)
  /\ page_view (effects s) = Native.effects n.

(** The script has written nothing on the XHR object. *)
Definition blank (s : state) (x : nat) : Prop :=
  slots (xhr_at s x) = None /\ listeners (xhr_at s x) = [].

End CapturePageSpec.

(** The wait of extract_data.js has not ended in the session. *)
Definition no_stop (tr : list event) : bool :=
  forallb (fun e => match e with Stop _ _ _ => false | _ => true end) tr.

(** A session in which the page passes [URL] and [Request] objects. *)
Definition object_trace : list event :=
  [FetchCall (UObject "https://api.mpg.football/api/a") None 0 "2024-01-01T00:00:00.000Z";
   XhrOpen 0 "GET" (UObject "https://api.mpg.football/api/b") 5;
   XhrSend 0 BAbsent "2024-01-01T00:00:00.005Z";
   FetchSettle 0 (Resolved ok_response) 20 "2024-01-01T00:00:00.020Z";
   XhrFire 0 (Load 200 "OK" "[]" "") 25].

(** * Properties *)

Local Open Scope list_scope.

(** ** Strings and record objects *)

Lemma substring0_length n s : String.length (substring0 n s) <= n.
Proof.
  unfold substring0. revert s.
  induction n as [|n IH]; intros [|c s]; simpl; try lia.
  specialize (IH s). lia.
Qed.

Lemma assoc_get_set_eq k v fields : assoc_get k (assoc_set k v fields) = Some v.
Proof.
  induction fields as [|[k' v'] r IH]; simpl.
  - rewrite String.eqb_refl. reflexivity.
  - destruct (String.eqb k k') eqn:E; simpl.
    + rewrite String.eqb_refl. reflexivity.
    + rewrite E. exact IH.
Qed.

Lemma assoc_get_set_ne k k' v fields :
  k <> k' -> assoc_get k' (assoc_set k v fields) = assoc_get k' fields.
Proof.
  intros Hne. induction fields as [|[k0 v0] r IH]; simpl.
  - destruct (String.eqb k' k) eqn:E; [|reflexivity].
    apply String.eqb_eq in E. congruence.
  - destruct (String.eqb k k0) eqn:E; simpl.
    + apply String.eqb_eq in E. subst k0.
      destruct (String.eqb k' k) eqn:E'; [|reflexivity].
      apply String.eqb_eq in E'. congruence.
    + rewrite IH. reflexivity.
Qed.

Lemma is_object_set_prop k v obj : is_object (set_prop k v obj) = is_object obj.
Proof. destruct obj; reflexivity. Qed.

Lemma get_field_set_prop_eq k v obj :
  is_object obj = true -> get_field k (set_prop k v obj) = v.
Proof.
  destruct obj; try discriminate. intros _. simpl.
  rewrite assoc_get_set_eq. reflexivity.
Qed.

Lemma get_field_set_prop_ne k k' v obj :
  k <> k' -> get_field k' (set_prop k v obj) = get_field k' obj.
Proof.
  intros Hne. destruct obj; try reflexivity. simpl.
  rewrite assoc_get_set_ne by assumption. reflexivity.
Qed.

Lemma has_prop_set_prop_eq k v obj :
  is_object obj = true -> has_prop k (set_prop k v obj) = true.
Proof.
  destruct obj; try discriminate. intros _. simpl.
  rewrite assoc_get_set_eq. apply bool_decide_eq_true. eauto.
Qed.

Lemma has_prop_set_prop_ne k k' v obj :
  k <> k' -> has_prop k' (set_prop k v obj) = has_prop k' obj.
Proof.
  intros Hne. destruct obj; try reflexivity. simpl.
  rewrite assoc_get_set_ne by assumption. reflexivity.
Qed.

(** ** The safe serializer returns, and stops at the depth bound *)

Module SafeSerializeFacts.
Import SafeSerialize.

Lemma jdepth_arr d items :
  Forall (depth_le d) items -> jdepth (JArr items) <= S d.
Proof.
  intros HF. simpl. apply le_n_S.
  induction HF as [|x r Hx _ IH]; simpl; [lia|].
  unfold depth_le in Hx. lia.
Qed.

Lemma jdepth_obj d fields :
  Forall (fun kv => depth_le d (snd kv)) fields -> jdepth (JObj fields) <= S d.
Proof.
  intros HF. simpl. apply le_n_S.
  induction HF as [|x r Hx _ IH]; simpl; [lia|].
  unfold depth_le in Hx. lia.
Qed.

Lemma assoc_set_Forall (P : jsval -> Prop) k v fields :
  P v -> Forall (fun kv => P (snd kv)) fields ->
  Forall (fun kv => P (snd kv)) (assoc_set k v fields).
Proof.
  intros Hv HF. induction HF as [|[k' v'] r Hx Hr IH]; simpl.
  - repeat constructor. exact Hv.
  - destruct (String.eqb k k'); constructor; auto.
Qed.

Section Callbacks.
Variable f : value -> exc jsval.
Variable d : nat.
Hypothesis f_ok : forall item, exists v, f item = Ret v /\ depth_le d v.

(** A callback that always returns leaves only the element reads as a
    source of exceptions in [array_map]. *)
Lemma array_map_ok elems :
  (exists items, array_map f elems = Ret items /\ Forall (depth_le d) items)
  \/ (exists m, array_map f elems = Throw m).
Proof.
  induction elems as [|p r IH]; simpl.
  - left. exists []. split; [reflexivity|constructor].
  - destruct p as [item|]; simpl; [|right; eauto].
    destruct (f_ok item) as (v & -> & Hv). simpl.
    destruct IH as [(items & -> & HF)|(m & ->)]; simpl.
    + left. exists (v :: items). split; [reflexivity|constructor; assumption].
    + right. eauto.
Qed.

(** The loop body of the object case never throws: the inner
    [try/catch] turns a failed read into a per-key sentinel. *)
Lemma for_in_ok props result :
  Forall (fun kv => depth_le d (snd kv)) result ->
  exists result',
    for_in
      (fun key p result =>
         try_catch
           (if skipped key then Ret result
            else value ← read p; r ← f value; Ret (assoc_set key r result))
           (fun _ => Ret (assoc_set key (JStr "[Access Denied]") result)))
      props result = Ret result'
    /\ Forall (fun kv => depth_le d (snd kv)) result'.
Proof.
  revert result. induction props as [|[key p] r IH]; intros result HF; simpl.
  - eauto.
  - destruct (skipped key); simpl; [apply IH; assumption|].
    destruct p as [item|]; simpl.
    + destruct (f_ok item) as (v & -> & Hv). simpl.
      apply IH. apply assoc_set_Forall; assumption.
    + apply IH. apply assoc_set_Forall; [|assumption].
      unfold depth_le. simpl. lia.
Qed.
End Callbacks.

Lemma safeSerialize_spec h maxDepth k :
  forall currentDepth obj,
    S maxDepth - currentDepth <= k ->
    exists v, safeSerialize h obj maxDepth currentDepth = Ret v
              /\ depth_le (S maxDepth - currentDepth) v.
Proof.
  induction k as [|k IH]; intros c obj Hk; simp safeSerialize;
    destruct (lt_dec maxDepth c) as [Hlt|Hle]; simp safeSerialize;
    try (eexists; split; [reflexivity|unfold depth_le; simpl; lia]);
    try lia.
  assert (Hrec : forall item, exists v,
             safeSerialize h item maxDepth (c + 1) = Ret v
             /\ depth_le (maxDepth - c) v).
  { intros item. destruct (IH (c + 1) item) as (v & Hv & Hd); [lia|].
    exists v. split; [assumption|].
    replace (maxDepth - c) with (S maxDepth - (c + 1)) by lia. assumption. }
  replace (S maxDepth - c) with (S (maxDepth - c)) by lia.
  destruct obj; try (eexists; split; [reflexivity|unfold depth_le; simpl; lia]).
  destruct (h a) as [elems|props|].
  - destruct (array_map_ok _ _ Hrec elems) as [(items & -> & HF)|(m & ->)]; simpl.
    + eexists; split; [reflexivity|]. apply jdepth_arr; assumption.
    + eexists; split; [reflexivity|unfold depth_le; simpl; lia].
  - destruct (for_in_ok _ _ Hrec props []) as (result & -> & HF); [constructor|].
    simpl. eexists; split; [reflexivity|]. apply jdepth_obj; assumption.
  - simpl. eexists; split; [reflexivity|unfold depth_le; simpl; lia].
Qed.


(** An object that contains itself, serialized with the default bound:
    four levels are expanded and the fifth is the sentinel. *)
Example safeSerialize_cycle :
  safeSerialize_default cyclic_heap (VRef 0)
  = Ret (JObj [("self", JObj [("self", JObj [("self", JObj [("self",
           JStr "[Max Depth Reached]")])])])]).
Proof. reflexivity. Qed.

End SafeSerializeFacts.

(** ** The exported artifact *)

Lemma exports_app l1 l2 : exports (l1 ++ l2) = exports l1 ++ exports l2.
Proof. unfold exports. apply omap_app. Qed.

Module NoHarFacts.
Import NoHar.

Section Facts.
Context `{JSONApi}.

Lemma outputData_count_matches iso href s : count_matches (outputData iso href s).
Proof.
  exists (map (fun reqId => project (deref s reqId)) (requests s)).
  split; [reflexivity|]. simpl. rewrite length_map. reflexivity.
Qed.

Lemma effects_run_listener c now s l : effects (run_listener c now s l) = effects s.
Proof.
  destruct l as [[[] reqId] t], c; try reflexivity.
  simpl. unfold on_load. destruct (JSON_parse _); reflexivity.
Qed.

Lemma effects_fire x c now s : effects (fire x c now s) = effects s.
Proof.
  unfold fire. generalize (listeners (xhr_at s x)) as ls.
  intros ls. revert s. induction ls as [|l ls IH]; intros s; simpl; [reflexivity|].
  rewrite IH. apply effects_run_listener.
Qed.

(** The capturing branch settles the caller's promise and has no other
    effect. *)
Lemma fetch_resume_effects k reqId t0 r now s :
  exists r', effects (fetch_resume k reqId t0 r now s) = effects s ++ [FetchResult k r'].
Proof.
  unfold fetch_resume, fetch_catch. destruct r as [response|msg]; [|eexists; reflexivity].
  destruct (clone response) as [clone0|]; [|eexists; reflexivity].
  destruct (json clone0) as [clone1 [responseData|msg]]; [eexists; reflexivity|].
  destruct (text clone1).2; eexists; reflexivity.
Qed.

(** Every event appends to the effects, and what a [Stop] appends is the
    [outputData] of that moment. *)
Lemma step_effects s e :
  exists new,
    effects (step s e) = effects s ++ new
    /\ Forall count_matches (exports new).
Proof.
  destruct e as [x m u now|x b iso|x c now|u o now iso|k r now iso|iso href ok]; simpl.
  - destruct (XHR_open s); eexists; (split; [reflexivity|constructor]).
  - destruct (XHR_send s); [|eexists; (split; [reflexivity|constructor])].
    unfold send_wrapper. destruct (slots (xhr_at s x)) as [sl|];
      [destruct (in_scope (_captureUrl sl)) as [[]|]|];
      eexists; (split; [reflexivity|constructor]).
  - exists []. rewrite effects_fire, app_nil_r. split; [reflexivity|constructor].
  - destruct (window_fetch s); [|eexists; (split; [reflexivity|constructor])].
    unfold fetch_wrapper. destruct (in_scope u) as [[]|];
      eexists; (split; [reflexivity|constructor]).
  - destruct (pending s !! k) as [[|reqId t0]|].
    + eexists; (split; [reflexivity|constructor]).
    + destruct (fetch_resume_effects k reqId t0 r now
                  (with_pending (delete k (pending s)) s)) as (r' & ->).
      eexists; (split; [reflexivity|constructor]).
    + exists []. rewrite app_nil_r. split; [reflexivity|constructor].
  - destruct ok; eexists; (split; [reflexivity|]);
      repeat constructor; apply outputData_count_matches.
Qed.

Lemma run_exports_count_matches tr s :
  Forall count_matches (exports (effects s)) ->
  Forall count_matches (exports (effects (run tr s))).
Proof.
  revert s. induction tr as [|e tr IH]; intros s Hs; simpl; [assumption|].
  apply IH. destruct (step_effects s e) as (new & -> & Hnew).
  rewrite exports_app. apply Forall_app. split; assumption.
Qed.

End Facts.
End NoHarFacts.

Module SimpleFacts.
Import Simple.

Section Facts.
Context `{JSONApi}.

Lemma data_count_matches iso href s : count_matches (data iso href s).
Proof.
  exists (map (deref s) (capturedRequests s)).
  split; [reflexivity|]. simpl. rewrite length_map. reflexivity.
Qed.

Lemma simple_effects_fire x c s : effects (fire x c s) = effects s.
Proof.
  unfold fire. generalize (listeners (xhr_at s x)) as ls.
  intros ls. revert s. induction ls as [|l ls IH]; intros s; simpl; [reflexivity|].
  rewrite IH. destruct c; try reflexivity.
  simpl. unfold on_load. destruct (JSON_parse _); reflexivity.
Qed.

Lemma simple_step_effects s e :
  exists new,
    effects (step s e) = effects s ++ new
    /\ Forall count_matches (exports new).
Proof.
  destruct e as [x m u now|x b iso|x c now|u o now iso|k r now iso|iso href ok]; simpl.
  - destruct (XHR_open s); eexists; (split; [reflexivity|constructor]).
  - destruct (XHR_send s); [|eexists; (split; [reflexivity|constructor])].
    unfold send_wrapper. destruct (slots (xhr_at s x)) as [sl|];
      [destruct (in_scope (_mpg_url sl)) as [[]|]|];
      eexists; (split; [reflexivity|constructor]).
  - exists []. rewrite simple_effects_fire, app_nil_r. split; [reflexivity|constructor].
  - destruct (window_fetch s); eexists; (split; [reflexivity|constructor]).
  - destruct (pending s !! k) as [[|u o]|].
    + eexists; (split; [reflexivity|constructor]).
    + unfold fetch_resume. destruct r as [response|msg];
        [destruct (in_scope u) as [[]|]|];
        eexists; (split; [reflexivity|constructor]).
    + exists []. rewrite app_nil_r. split; [reflexivity|constructor].
  - destruct (finished s).
    + exists []. rewrite app_nil_r. split; [reflexivity|constructor].
    + destruct ok; eexists; (split; [reflexivity|]);
        repeat constructor; apply data_count_matches.
Qed.

Lemma simple_run_exports_count_matches tr s :
  Forall count_matches (exports (effects s)) ->
  Forall count_matches (exports (effects (run tr s))).
Proof.
  revert s. induction tr as [|e tr IH]; intros s Hs; simpl; [assumption|].
  apply IH. destruct (simple_step_effects s e) as (new & -> & Hnew).
  rewrite exports_app. apply Forall_app. split; assumption.
Qed.

End Facts.
End SimpleFacts.

(** C1.  In every session of extract_no_har.js and of
    extract_data_simple.js, whatever the page did before, each artifact
    the script exports (downloaded, or dumped to the console when the
    download fails) has [total_captured] equal to the number of entries of
    its [api_calls]; a session without any call exports an empty
    [api_calls] and [total_captured = 0]. *)
Theorem total_captured_is_length `{JSONApi} (tr : list event) (started : string) :
  Forall count_matches (exports (NoHar.effects (NoHar.run tr (NoHar.init started))))
  /\ Forall count_matches (exports (Simple.effects (Simple.run tr Simple.init)))
  /\ (forall iso href ok,
        exports (NoHar.effects (NoHar.run [Stop iso href ok] (NoHar.init started)))
        = [JObj [("scrape_timestamp", JStr iso); ("url", JStr href);
                 ("api_calls", JArr []); ("total_captured", JNum 0)]])
  /\ (forall iso href ok,
        exports (Simple.effects (Simple.run [Stop iso href ok] Simple.init))
        = [JObj [("scrape_timestamp", JStr iso); ("url", JStr href);
                 ("api_calls", JArr []); ("total_captured", JNum 0)]]).
Proof.
  split; [|split; [|split]].
  - apply NoHarFacts.run_exports_count_matches. constructor.
  - apply SimpleFacts.simple_run_exports_count_matches. constructor.
  - intros iso href []; reflexivity.
  - intros iso href []; reflexivity.
Qed.

(** ** The projection of extract_no_har.js *)



(** ** Stopping extract_no_har.js more than once *)

(** Two calls of [stopCapture] in a session download two files. *)
Lemma stopCapture_twice_exports_twice :
  length (exports (NoHar.effects
            (NoHar.run (stop_events [("t1", "https://mpg.football/", true);
                                     ("t2", "https://mpg.football/", true)])
                       (NoHar.init "t0")))) = 2
  /\ length (exports (NoHar.effects
               (NoHar.run (stop_events [("t1", "https://mpg.football/", true);
                                        ("t2", "https://mpg.football/", true)])
                          (NoHar.init "t0")))) <> 1.
Proof. split; [reflexivity|discriminate]. Qed.

(** One invocation, one export. *)
Lemma stop_step_exports `{JSONApi} s iso href ok :
  exports (NoHar.effects (NoHar.step s (Stop iso href ok)))
  = exports (NoHar.effects s)
    ++ [NoHar.outputData iso href (NoHar.step s (Stop iso href ok))].
Proof. destruct ok; simpl; rewrite exports_app; reflexivity. Qed.

(** C2, as the code has it.  [stopCapture] has no guard and the timer is
    never cleared: every invocation runs the whole function.  After a first
    invocation, any number of further ones each export once more (a
    download, or a console dump when the download fails), leave the buffer
    as it is, and assign the saved originals to the three entry points
    again, which leaves them as the first invocation set them; and an
    invocation returns its [outputData] whether or not the download
    succeeds. *)
Theorem stopCapture_every_call_exports `{JSONApi}
    (s : NoHar.state) (first : string * string * bool)
    (more : list (string * string * bool)) :
  let s1 := NoHar.run (stop_events [first]) s in
  let s2 := NoHar.run (stop_events more) s1 in
  length (exports (NoHar.effects s1)) = S (length (exports (NoHar.effects s)))
  /\ length (exports (NoHar.effects s2))
     = length (exports (NoHar.effects s1)) + length more
  /\ entries s1 = (Original, Original, Original)
  /\ entries s2 = entries s1
  /\ NoHar.requests s2 = NoHar.requests s
  /\ (forall iso href download_ok s0,
        (NoHar.stopCapture iso href download_ok s0).2
        = NoHar.outputData iso href (NoHar.stopCapture iso href download_ok s0).1).
Proof.
  destruct first as [[iso href] ok]. cbn zeta.
  assert (Hmore : forall s0,
             let s' := NoHar.run (stop_events more) s0 in
             length (exports (NoHar.effects s'))
             = length (exports (NoHar.effects s0)) + length more
             /\ (entries s0 = (Original, Original, Original) -> entries s' = entries s0)
             /\ NoHar.requests s' = NoHar.requests s0).
  { induction more as [|[[iso' href'] ok'] more IH]; intros s0; cbn zeta.
    - simpl. split; [lia|]. split; [intros _|]; reflexivity.
    - change (NoHar.run (stop_events ((iso', href', ok') :: more)) s0)
        with (NoHar.run (stop_events more) (NoHar.step s0 (Stop iso' href' ok'))).
      destruct (IH (NoHar.step s0 (Stop iso' href' ok'))) as (Hn & He & Hr).
      rewrite Hn, stop_step_exports, length_app. simpl length.
      split; [lia|]. split.
      + intros H0. rewrite He by (destruct ok'; reflexivity).
        rewrite H0. destruct ok'; reflexivity.
      + rewrite Hr. destruct ok'; reflexivity. }
  change (NoHar.run (stop_events [(iso, href, ok)]) s)
    with (NoHar.step s (Stop iso href ok)).
  destruct (Hmore (NoHar.step s (Stop iso href ok))) as (Hn & He & Hr).
  split; [rewrite stop_step_exports, length_app; simpl length; lia|].
  split; [exact Hn|]. split; [destruct ok; reflexivity|].
  split; [apply He; destruct ok; reflexivity|].
  split; [rewrite Hr; destruct ok; reflexivity|].
  intros iso0 href0 [] s0; reflexivity.
Qed.

(** ** The fallback export of extract_data.js *)

(** The fallback artifact carries the records as captured: here with the
    keys [type] and [response_type], which are not among the minimal ones. *)
Lemma fallback_keeps_record_fields :
  ExtractData.export (Throw "Converting circular structure to JSON") true text_session
  = Ret [ExtractData.SavedObject (ExtractData.fallbackData text_session)]
  /\ get_field "api_calls" (ExtractData.fallbackData text_session) = JArr [text_call]
  /\ keys text_call = ["url"; "method"; "timestamp"; "type"; "status"; "response_type"]
  /\ ~ incl (keys text_call) minimal_call_keys.
Proof.
  split; [reflexivity|]. split; [reflexivity|]. split; [reflexivity|].
  intros Hincl. specialize (Hincl "type"). simpl in Hincl.
  destruct Hincl as [E|[E|[E|[E|[E|[E|[]]]]]]]; try discriminate.
  right. right. right. left. reflexivity.
Qed.

(** C8, as the code has it.  When the first export attempt throws, the
    exporter retries once with an artifact of exactly four fields: the
    script's [scrape_timestamp], the page [url], [api_calls] and a [note]
    saying that some data could not be serialized.  [extracted_data], the
    ambient state, is dropped; [api_calls] is the captured list itself,
    every record with all the fields it had. *)
Theorem fallback_export_shape (msg iso href : string)
    (extracted_data : list (string * jsval)) (capturedRequests : list jsval) :
  let d := ExtractData.data iso href extracted_data capturedRequests in
  ExtractData.export (Throw msg) true d = Ret [ExtractData.SavedObject (ExtractData.fallbackData d)]
  /\ ExtractData.fallbackData d
     = JObj [("scrape_timestamp", JStr iso); ("url", JStr href);
             ("api_calls", JArr capturedRequests);
             ("note", JStr "Some data could not be serialized due to security restrictions")]
  /\ ~ In "extracted_data" (keys (ExtractData.fallbackData d)).
Proof.
  cbn zeta. split; [reflexivity|]. split; [reflexivity|].
  simpl. intros Hin. repeat (destruct Hin as [Hin|Hin]; [discriminate|]). exact Hin.
Qed.

(** ** What the callers of the wrapped entry points get back *)

Module Transparency.

Section Facts.
Context `{JSONApi}.

(** A fetch with a string (or no) URL is handed to the real [fetch]. *)
Lemma NoHar_fetch_call_performed s u o now iso b :
  NoHar.window_fetch s = Wrapper ->
  NoHar.in_scope u = Ret b ->
  NoHar.effects (NoHar.step s (FetchCall u o now iso))
  = NoHar.effects s ++ [RealFetch (NoHar.calls s) u o].
Proof.
  intros Hw Hu. simpl. rewrite Hw. unfold NoHar.fetch_wrapper. rewrite Hu.
  destruct b; reflexivity.
Qed.

(** The capturing branch hands the caller what the real [fetch] settled
    with, when the body of the response it received is unused. *)
Lemma NoHar_fetch_resume_transparent k reqId t0 r now s :
  (forall response, r = Resolved response -> bodyUsed response = false) ->
  NoHar.effects (NoHar.fetch_resume k reqId t0 r now s)
  = NoHar.effects s ++ [FetchResult k r].
Proof.
  intros Hfresh. unfold NoHar.fetch_resume, NoHar.fetch_catch.
  destruct r as [response|msg]; [|reflexivity].
  unfold clone. rewrite (Hfresh response eq_refl).
  destruct (json response) as [clone1 [responseData|msg]]; [reflexivity|].
  destruct (text clone1).2; reflexivity.
Qed.

(** A send on an object opened with a string URL reaches the real [send]. *)
Lemma NoHar_send_performed s x b iso sl flag :
  NoHar.XHR_send s = Wrapper ->
  NoHar.slots (NoHar.xhr_at s x) = Some sl ->
  NoHar.in_scope (NoHar._captureUrl sl) = Ret flag ->
  NoHar.effects (NoHar.step s (XhrSend x b iso)) = NoHar.effects s ++ [RealSend x b].
Proof.
  intros Hw Hsl Hu. simpl. rewrite Hw. unfold NoHar.send_wrapper. rewrite Hsl, Hu.
  destruct flag; reflexivity.
Qed.

End Facts.
End Transparency.

(** C9 at the failing input.  A page may pass a [URL] or [Request] object
    where the wrappers expect a string.  The filter [url.includes(..)] then
    throws a TypeError inside the wrapper: in extract_no_har.js the real
    [fetch] is never called and the caller's promise is rejected; in
    extract_data_simple.js the real [fetch] is called and resolves, and the
    caller's promise is rejected all the same; and the wrapped [send] of
    both scripts throws before it reaches the real [send]. *)
Theorem wrappers_fail_on_url_objects `{JSONApi}
    (href started : string) (o : option fetch_options) (b : body_arg) (now : Z) (iso : string) :
  NoHar.effects (NoHar.run [FetchCall (UObject href) o now iso] (NoHar.init started))
  = [FetchResult 0 (Rejected "url.includes is not a function")]
  /\ Simple.effects
       (Simple.run [FetchCall (UObject href) o now iso;
                    FetchSettle 0 (Resolved ok_response) now iso] Simple.init)
     = [RealFetch 0 (UObject href) o;
        FetchResult 0 (Rejected "url.includes is not a function")]
  /\ NoHar.effects
       (NoHar.run [XhrOpen 0 "GET" (UObject href) now; XhrSend 0 b iso] (NoHar.init started))
     = [RealOpen 0 "GET" (UObject href);
        SendThrew 0 "url.includes is not a function"]
  /\ Simple.effects
       (Simple.run [XhrOpen 0 "GET" (UObject href) now; XhrSend 0 b iso] Simple.init)
     = [RealOpen 0 "GET" (UObject href);
        SendThrew 0 "url.includes is not a function"].
Proof. repeat split. Qed.

(** ** Reachable states of extract_no_har.js *)

Module NoHarInv.
Import NoHar NoHarSpec.

Lemma deref_assign s id k v id' :
  deref (assign id k v s) id'
  = if decide (id = id') then set_prop k v (deref s id') else deref s id'.
Proof.
  unfold deref, assign. simpl. rewrite lookup_alter.
  destruct (decide (id = id')) as [->|]; [|reflexivity].
  destruct (objects s !! id'); reflexivity.
Qed.

(** A record stays a record when a new one is stored, whatever else the
    state holds. *)
Lemma live_insert s s' id rd id' :
  is_object rd = true -> live s id' ->
  live (with_objects (<[id := rd]> (objects s)) s') id'.
Proof.
  intros Ho Hl. unfold live, deref in *. simpl. rewrite lookup_insert.
  destruct (decide (id = id')); assumption.
Qed.

Lemma live_assign s id k v id' : live (assign id k v s) id' <-> live s id'.
Proof.
  unfold live. rewrite deref_assign.
  destruct (decide (id = id')); [rewrite is_object_set_prop|]; reflexivity.
Qed.

Lemma scoped_set_prop k v rd : k <> "url" -> scoped rd -> scoped (set_prop k v rd).
Proof.
  intros Hk (u & Hu & Hs). exists u.
  rewrite get_field_set_prop_ne by assumption. split; assumption.
Qed.

Lemma heap_ok_assign s id k v : k <> "url" -> heap_ok s -> heap_ok (assign id k v s).
Proof.
  intros Hk [H1 H2 H3 H4 H5]. split.
  - intros id' Hl. apply live_assign in Hl. rewrite deref_assign.
    destruct (decide (id = id')); [apply scoped_set_prop; [assumption|]|]; auto.
  - intros id' Hl. apply live_assign in Hl. apply (H2 id' Hl).
  - intros id' Hin. apply live_assign. apply H3. exact Hin.
  - intros x k0 id' t Hin. apply live_assign. apply (H4 x k0 id' t Hin).
  - intros k0 id' t Hp. apply live_assign. apply (H5 k0 id' t Hp).
Qed.

Lemma heap_ok_push s id : live s id -> heap_ok s -> heap_ok (push id s).
Proof.
  intros Hl [H1 H2 H3 H4 H5]. split; try assumption.
  intros id' Hin. simpl in Hin. apply elem_of_app in Hin as [Hin|Hin].
  - apply H3. exact Hin.
  - apply list_elem_of_singleton in Hin. subst id'. exact Hl.
Qed.

Lemma heap_ok_emit s e : heap_ok s -> heap_ok (emit e s).
Proof. intros [H1 H2 H3 H4 H5]. split; assumption. Qed.

Lemma heap_ok_with_calls s n : heap_ok s -> heap_ok (with_calls n s).
Proof. intros [H1 H2 H3 H4 H5]. split; assumption. Qed.

(** Dropping or redirecting a suspended invocation keeps the invariant. *)
Lemma heap_ok_with_pending s p :
  (forall k id t, p !! k = Some (Capturing id t) -> live s id) ->
  heap_ok s -> heap_ok (with_pending p s).
Proof. intros Hp [H1 H2 H3 H4 H5]. split; assumption. Qed.

Lemma heap_ok_with_xhrs s m :
  (forall x k id t, (k, id, t) ∈ listeners (m !!! x) -> live s id) ->
  heap_ok s -> heap_ok (with_xhrs m s).
Proof. intros Hm [H1 H2 H3 H4 H5]. split; assumption. Qed.

Lemma new_requestData_scoped reqId u m iso ty b :
  in_scope u = Ret true -> scoped (new_requestData reqId u m iso ty b).
Proof.
  intros Hu. destruct u as [url| |href]; try discriminate.
  exists url. split; [reflexivity|assumption].
Qed.

(** Creating the next [requestData]. *)
Lemma heap_ok_alloc s rd :
  is_object rd = true -> scoped rd -> heap_ok s ->
  heap_ok (with_objects (<[S (requestCounter s) := rd]> (objects s))
             (with_requestCounter (S (requestCounter s)) s)).
Proof.
  intros Ho Hs [H1 H2 H3 H4 H5].
  assert (Hlive : forall id, live s id ->
            live (with_objects (<[S (requestCounter s) := rd]> (objects s))
                    (with_requestCounter (S (requestCounter s)) s)) id).
  { intros id Hl. unfold live. unfold deref. simpl. rewrite lookup_insert.
    destruct (decide (S (requestCounter s) = id)); [assumption|exact Hl]. }
  split.
  - intros id Hl. unfold live, deref in *. simpl in *. rewrite lookup_insert in *.
    destruct (decide (S (requestCounter s) = id)); [assumption|]. apply H1. exact Hl.
  - intros id Hl. unfold live, deref in *. simpl in *. rewrite lookup_insert in *.
    destruct (decide (S (requestCounter s) = id)); [lia|].
    specialize (H2 id Hl). lia.
  - intros id Hin. apply Hlive, H3. exact Hin.
  - intros x k id t Hin. apply Hlive. apply (H4 x k id t Hin).
  - intros k id t Hp. apply Hlive. apply (H5 k id t Hp).
Qed.

Lemma live_alloc s rd :
  is_object rd = true ->
  live (with_objects (<[S (requestCounter s) := rd]> (objects s))
          (with_requestCounter (S (requestCounter s)) s)) (S (requestCounter s)).
Proof.
  intros Ho. unfold live, deref. simpl. rewrite lookup_insert_eq. exact Ho.
Qed.

Lemma heap_ok_init started : heap_ok (init started).
Proof.
  split.
  - intros id Hl. unfold live, deref in Hl. simpl in Hl.
    rewrite lookup_empty in Hl. discriminate.
  - intros id Hl. unfold live, deref in Hl. simpl in Hl.
    rewrite lookup_empty in Hl. discriminate.
  - intros id Hin. simpl in Hin. apply elem_of_nil in Hin. contradiction.
  - intros x k id t Hin. unfold xhr_at in Hin. simpl in Hin.
    rewrite lookup_total_empty in Hin. simpl in Hin.
    apply elem_of_nil in Hin. contradiction.
  - intros k id t Hp. simpl in Hp. rewrite lookup_empty in Hp. discriminate.
Qed.

Section Facts.
Context `{JSONApi}.

Lemma heap_ok_on_load reqId t0 st stText responseText headers now s :
  live s reqId -> heap_ok s ->
  heap_ok (on_load reqId t0 st stText responseText headers now s).
Proof.
  intros Hl Hs. unfold on_load. apply heap_ok_push.
  - destruct (JSON_parse responseText); repeat (apply live_assign); exact Hl.
  - destruct (JSON_parse responseText);
      repeat (apply heap_ok_assign; [discriminate|]); exact Hs.
Qed.

Lemma heap_ok_on_error reqId s : live s reqId -> heap_ok s -> heap_ok (on_error reqId s).
Proof.
  intros Hl Hs. unfold on_error. apply heap_ok_push.
  - repeat (apply live_assign). exact Hl.
  - repeat (apply heap_ok_assign; [discriminate|]). exact Hs.
Qed.

Lemma heap_ok_run_listener c now s l :
  live s l.1.2 -> heap_ok s -> heap_ok (run_listener c now s l).
Proof.
  destruct l as [[[] reqId] t], c; simpl; intros Hl Hs; try assumption.
  - apply heap_ok_on_load; assumption.
  - apply heap_ok_on_error; assumption.
Qed.

Lemma live_run_listener c now s l id : live s id -> live (run_listener c now s l) id.
Proof.
  intros Hl. destruct l as [[[] reqId] t], c; simpl; try assumption.
  - unfold on_load. unfold live. change (deref (push ?r ?s0) id) with (deref s0 id).
    destruct (JSON_parse _); repeat (apply live_assign); exact Hl.
  - unfold on_error, live. change (deref (push ?r ?s0) id) with (deref s0 id).
    repeat (apply live_assign). exact Hl.
Qed.

Lemma heap_ok_fold c now ls s :
  (forall l, l ∈ ls -> live s l.1.2) -> heap_ok s ->
  heap_ok (fold_left (run_listener c now) ls s).
Proof.
  revert s. induction ls as [|l ls IH]; intros s Hls Hs; simpl; [assumption|].
  apply IH.
  - intros l' Hin. apply live_run_listener. apply Hls. right. exact Hin.
  - apply heap_ok_run_listener; [apply Hls; left|assumption].
Qed.

Lemma heap_ok_fire x c now s : heap_ok s -> heap_ok (fire x c now s).
Proof.
  intros Hs. unfold fire. apply heap_ok_fold; [|assumption].
  intros [[k id] t] Hin. simpl. apply (listeners_live s Hs x k id t Hin).
Qed.

Lemma heap_ok_fetch_resume k reqId t0 r now s :
  live s reqId -> heap_ok s -> heap_ok (fetch_resume k reqId t0 r now s).
Proof.
  intros Hl Hs. unfold fetch_resume, fetch_catch.
  destruct r as [response|msg].
  - destruct (clone response) as [clone0|msg].
    + destruct (json clone0) as [clone1 [responseData|msg]];
        [|destruct (text clone1).2];
        apply heap_ok_emit, heap_ok_push;
        repeat (apply live_assign); try assumption;
        repeat (apply heap_ok_assign; [discriminate|]); assumption.
    + apply heap_ok_emit, heap_ok_push;
        repeat (apply live_assign); try assumption;
        repeat (apply heap_ok_assign; [discriminate|]); assumption.
  - apply heap_ok_emit, heap_ok_push;
      repeat (apply live_assign); try assumption;
      repeat (apply heap_ok_assign; [discriminate|]); assumption.
Qed.

Lemma heap_ok_step s e : heap_ok s -> heap_ok (step s e).
Proof.
  intros Hs.
  destruct e as [x m u now|x b iso|x c now|u o now iso|k r now iso|iso href ok]; simpl.
  - destruct (XHR_open s); [|apply heap_ok_emit; assumption].
    unfold open_wrapper. apply heap_ok_emit, heap_ok_with_xhrs; [|assumption].
    intros x' k id t. rewrite lookup_total_insert.
    destruct (decide (x = x')) as [->|]; simpl; apply (listeners_live s Hs).
  - destruct (XHR_send s); [|apply heap_ok_emit; assumption].
    unfold send_wrapper. destruct (slots (xhr_at s x)) as [sl|] eqn:Hsl;
      [|apply heap_ok_emit; assumption].
    destruct (in_scope (_captureUrl sl)) as [[]|] eqn:Hu;
      try (apply heap_ok_emit; assumption).
    apply heap_ok_emit, heap_ok_with_xhrs.
    + intros x' k id t. rewrite lookup_total_insert.
      destruct (decide (x = x')) as [->|]; simpl.
      * intros Hin. apply elem_of_app in Hin as [Hin|Hin].
        -- apply live_insert; [reflexivity|]. apply (listeners_live s Hs x' k id t Hin).
        -- assert (id = S (requestCounter s)) as ->.
           { apply elem_of_cons in Hin as [Hin|Hin]; [congruence|].
             apply list_elem_of_singleton in Hin. congruence. }
           apply live_alloc. reflexivity.
      * intros Hin. apply live_insert; [reflexivity|].
        apply (listeners_live s Hs x' k id t Hin).
    + apply heap_ok_alloc; [reflexivity| |assumption].
      apply new_requestData_scoped. exact Hu.
  - apply heap_ok_fire. assumption.
  - destruct (window_fetch s).
    + unfold fetch_wrapper. destruct (in_scope u) as [[]|] eqn:Hu.
      * apply heap_ok_emit, heap_ok_with_pending.
        -- intros k id t. simpl. rewrite lookup_insert.
           destruct (decide (calls s = k)).
           ++ intros [= <- <-]. apply (live_alloc (with_calls (S (calls s)) s)). reflexivity.
           ++ intros Hp. apply (live_insert s); [reflexivity|].
              apply (pending_live s Hs k id t Hp).
        -- apply (heap_ok_alloc (with_calls (S (calls s)) s)); [reflexivity| |].
           ++ apply new_requestData_scoped. exact Hu.
           ++ apply heap_ok_with_calls. assumption.
      * apply heap_ok_emit, heap_ok_with_pending; [|apply heap_ok_with_calls; assumption].
        intros k id t. simpl. rewrite lookup_insert.
        destruct (decide (calls s = k)); [discriminate|]. apply (pending_live s Hs).
      * apply heap_ok_emit, heap_ok_with_calls. assumption.
    + apply heap_ok_emit, heap_ok_with_pending; [|apply heap_ok_with_calls; assumption].
      intros k id t. simpl. rewrite lookup_insert.
      destruct (decide (calls s = k)); [discriminate|]. apply (pending_live s Hs).
  - destruct (pending s !! k) as [[|reqId t0]|] eqn:Hk; [| |assumption].
    + apply heap_ok_emit, heap_ok_with_pending; [|assumption].
      intros k' id t. rewrite lookup_delete.
      destruct (decide (k = k')); [discriminate|]. apply (pending_live s Hs).
    + apply heap_ok_fetch_resume.
      * apply (pending_live s Hs k reqId t0 Hk).
      * apply heap_ok_with_pending; [|assumption].
        intros k' id t. rewrite lookup_delete.
        destruct (decide (k = k')); [discriminate|]. apply (pending_live s Hs).
  - destruct Hs as [H1 H2 H3 H4 H5]. destruct ok; split; assumption.
Qed.

Lemma heap_ok_run tr s : heap_ok s -> heap_ok (run tr s).
Proof.
  revert s. induction tr as [|e tr IH]; intros s Hs; simpl; [assumption|].
  apply IH, heap_ok_step, Hs.
Qed.

End Facts.
End NoHarInv.

(** ** One outcome per record *)

Lemma outcome_count_set_other k v rd :
  outcome_key k = false -> outcome_count (set_prop k v rd) = outcome_count rd.
Proof.
  unfold outcome_key, outcome_count. intros Hk.
  apply orb_false_elim in Hk as [Hk He]. apply orb_false_elim in Hk as [Hr Ht].
  apply String.eqb_neq in Hr, Ht, He.
  rewrite !has_prop_set_prop_ne by assumption. reflexivity.
Qed.

Lemma outcome_count_set_one k v rd :
  outcome_key k = true -> is_object rd = true -> outcome_count rd = 0 ->
  outcome_count (set_prop k v rd) = 1.
Proof.
  unfold outcome_key, outcome_count. intros Hk Ho H0.
  destruct (has_prop "response" rd) eqn:E1; [discriminate|].
  destruct (has_prop "responseText" rd) eqn:E2; [discriminate|].
  destruct (has_prop "error" rd) eqn:E3; [discriminate|].
  apply orb_true_elim in Hk as [Hk|Hk]; [apply orb_true_elim in Hk as [Hk|Hk]|];
    apply String.eqb_eq in Hk; subst k;
    rewrite has_prop_set_prop_eq by assumption;
    rewrite !has_prop_set_prop_ne by discriminate;
    rewrite ?E1, ?E2, ?E3; reflexivity.
Qed.

Module NoHarLife.
Import NoHar NoHarSpec NoHarInv.

(** A state with the same records, buffer and listeners, and no owner
    that the old state did not have. *)
Lemma life_ok_weaken sent fired fired' s s' :
  (forall o id, owns s' fired' o id -> owns s fired o id) ->
  (forall x, listeners (xhr_at s' x) = listeners (xhr_at s x)) ->
  (forall id, deref s' id = deref s id) ->
  requests s' = requests s ->
  life_ok sent fired s -> life_ok sent fired' s'.
Proof.
  intros Hown Hx Hd Hr [H1 H2 H3 H4 H5 H6 H7].
  split.
  - intros x Hx'. rewrite Hx. apply H1. exact Hx'.
  - intros x. rewrite Hx. apply H2.
  - intros o id Ho'. rewrite Hd, Hr. apply (H3 o id (Hown o id Ho')).
  - intros k id Ho'. rewrite Hd. apply (H4 k id (Hown _ id Ho')).
  - intros o o' id Ho1 Ho2. apply (H5 o o' id (Hown o id Ho1) (Hown o' id Ho2)).
  - rewrite Hr. exact H6.
  - intros id Hin. rewrite Hd. apply H7. rewrite <- Hr. exact Hin.
Qed.

(** Widening [sent] only weakens what is asked. *)
Lemma life_ok_sent sent fired x s :
  life_ok sent fired s -> life_ok ({[x]} ∪ sent) fired s.
Proof.
  intros [H1 H2 H3 H4 H5 H6 H7]. split; try assumption.
  intros x' Hx'. apply H1. intros Hin. apply Hx', elem_of_union. right. exact Hin.
Qed.

Lemma life_ok_init started : life_ok ∅ ∅ (init started).
Proof.
  assert (Hl : forall x, listeners (xhr_at (init started) x) = []).
  { intros x. unfold xhr_at. simpl. rewrite lookup_total_empty. reflexivity. }
  assert (Hno : forall o id, ~ owns (init started) ∅ o id).
  { intros [x|k] id; simpl.
    - intros (_ & k & t & Hin). rewrite Hl in Hin. apply elem_of_nil in Hin. exact Hin.
    - intros (t & Hp). rewrite lookup_empty in Hp. discriminate. }
  split.
  - intros x _. apply Hl.
  - intros x. left. apply Hl.
  - intros o id Ho. destruct (Hno o id Ho).
  - intros k id Ho. destruct (Hno _ id Ho).
  - intros o o' id Ho. destruct (Hno o id Ho).
  - constructor.
  - intros id Hin. simpl in Hin. apply elem_of_nil in Hin. contradiction.
Qed.


Lemma owns_live s fired o id : heap_ok s -> owns s fired o id -> live s id.
Proof.
  intros Hs. destruct o as [x|k]; simpl.
  - intros (_ & k & t & Hin). apply (listeners_live s Hs x k id t Hin).
  - intros (t & Hp). apply (pending_live s Hs k id t Hp).
Qed.

(** The owner [o] pushes its record [id] and gives it up. *)
Lemma life_ok_complete sent fired fired' s s' o id :
  life_ok sent fired s ->
  owns s fired o id ->
  (forall o' id', owns s' fired' o' id' -> owns s fired o' id' /\ o' <> o) ->
  (forall x, xhr_at s' x = xhr_at s x) ->
  requests s' = requests s ++ [id] ->
  (forall id', id' <> id -> deref s' id' = deref s id') ->
  done (deref s' id) ->
  life_ok sent fired' s'.
Proof.
  intros [H1 H2 H3 H4 H5 H6 H7] Ho Hown Hx Hr Hd Hdone.
  assert (Hne : forall o' id', owns s' fired' o' id' -> id' <> id).
  { intros o' id' Ho' ->. destruct (Hown o' id Ho') as [Ho'' Hneq].
    apply Hneq. apply (H5 o' o id Ho'' Ho). }
  destruct (H3 o id Ho) as [_ Hfresh].
  split.
  - intros x Hx'. rewrite Hx. apply H1. exact Hx'.
  - intros x. rewrite Hx. apply H2.
  - intros o' id' Ho'. rewrite (Hd id' (Hne o' id' Ho')).
    destruct (H3 o' id' (proj1 (Hown o' id' Ho'))) as [Hb Hnin]. split; [exact Hb|].
    rewrite Hr. intros Hin. apply elem_of_app in Hin as [Hin|Hin]; [contradiction|].
    apply list_elem_of_singleton in Hin. apply (Hne o' id' Ho'). exact Hin.
  - intros k id' Ho'. rewrite (Hd id' (Hne _ id' Ho')).
    apply (H4 k id' (proj1 (Hown _ id' Ho'))).
  - intros o1 o2 id' Ho1 Ho2.
    apply (H5 o1 o2 id' (proj1 (Hown o1 id' Ho1)) (proj1 (Hown o2 id' Ho2))).
  - rewrite Hr. apply NoDup_app. split; [exact H6|]. split.
    + intros id' Hin Hin'. apply list_elem_of_singleton in Hin'. subst id'. contradiction.
    + apply NoDup_singleton.
  - intros id' Hin. rewrite Hr in Hin. apply elem_of_app in Hin as [Hin|Hin].
    + rewrite Hd; [apply H7; exact Hin|]. intros ->. contradiction.
    + apply list_elem_of_singleton in Hin. subst id'. exact Hdone.
Qed.

(** A wrapper creates the next record and hands it to the new owner [o]. *)
Lemma life_ok_create sent sent' fired s s' o id :
  heap_ok s -> life_ok sent fired s ->
  id = S (requestCounter s) ->
  (forall o' id', owns s' fired o' id' ->
                  (o' = o /\ id' = id) \/ (owns s fired o' id' /\ o' <> o)) ->
  (forall x, x ∉ sent' -> listeners (xhr_at s' x) = []) ->
  (forall x, listeners (xhr_at s' x) = []
             \/ exists id t, listeners (xhr_at s' x) = [(OnLoad, id, t); (OnError, id, t)]) ->
  requests s' = requests s ->
  (forall id', id' <> id -> deref s' id' = deref s id') ->
  outcome_count (deref s' id) = 0 ->
  (forall k, o = OFetch k -> is_fetch_record (deref s' id)) ->
  life_ok sent' fired s'.
Proof.
  intros Hs [H1 H2 H3 H4 H5 H6 H7] -> Hown H1' H2' Hr Hd Hblank Hfetch.
  assert (Hold : forall id', live s id' -> id' <> S (requestCounter s)).
  { intros id' Hl ->. specialize (live_bound s Hs _ Hl). lia. }
  split.
  - exact H1'.
  - exact H2'.
  - intros o' id' Ho'. rewrite Hr. destruct (Hown o' id' Ho') as [[-> ->]|[Ho'' _]].
    + split; [exact Hblank|]. intros Hin.
      apply (Hold _ (requests_live s Hs _ Hin)). reflexivity.
    + rewrite Hd by (apply Hold, (owns_live s fired o' id' Hs Ho'')).
      apply (H3 o' id' Ho'').
  - intros k id' Ho'. destruct (Hown _ id' Ho') as [[<- ->]|[Ho'' _]].
    + apply (Hfetch k). reflexivity.
    + rewrite Hd by (apply Hold, (owns_live s fired _ id' Hs Ho'')).
      apply (H4 k id' Ho'').
  - intros o1 o2 id' Ho1 Ho2.
    destruct (Hown o1 id' Ho1) as [[E1 E1']|[Ho1' _]];
      destruct (Hown o2 id' Ho2) as [[E2 E2']|[Ho2' _]].
    + congruence.
    + exfalso. apply (Hold _ (owns_live s fired o2 _ Hs Ho2')). exact E1'.
    + exfalso. apply (Hold _ (owns_live s fired o1 _ Hs Ho1')). exact E2'.
    + apply (H5 o1 o2 id' Ho1' Ho2').
  - rewrite Hr. exact H6.
  - intros id' Hin. rewrite Hr in Hin.
    rewrite Hd by (apply Hold, (requests_live s Hs _ Hin)). apply H7. exact Hin.
Qed.


Lemma deref_push s id id' : deref (push id s) id' = deref s id'.
Proof. reflexivity. Qed.

Lemma deref_emit s e id' : deref (emit e s) id' = deref s id'.
Proof. reflexivity. Qed.

Lemma deref_assign_eq s id k v : deref (assign id k v s) id = set_prop k v (deref s id).
Proof. rewrite deref_assign. destruct (decide (id = id)); [reflexivity|contradiction]. Qed.

Lemma deref_assign_ne s id k v id' :
  id' <> id -> deref (assign id k v s) id' = deref s id'.
Proof.
  intros Hne. rewrite deref_assign.
  destruct (decide (id = id')); [congruence|reflexivity].
Qed.

Ltac deref_other :=
  repeat first [ rewrite deref_push | rewrite deref_emit
               | rewrite deref_assign_ne by assumption ].

Ltac deref_same :=
  repeat first [ rewrite deref_push | rewrite deref_emit | rewrite deref_assign_eq ].

Ltac count_other :=
  repeat (rewrite outcome_count_set_other by reflexivity).

Lemma done_one rd : outcome_count rd = 1 -> done rd.
Proof. intros Hc. left. exact Hc. Qed.

Section Facts.
Context `{JSONApi}.

Lemma on_load_frame id t0 st stText responseText headers now s :
  let s' := on_load id t0 st stText responseText headers now s in
  xhrs s' = xhrs s /\ pending s' = pending s /\ requests s' = requests s ++ [id]
  /\ (forall id', id' <> id -> deref s' id' = deref s id').
Proof.
  cbn zeta. unfold on_load.
  destruct (JSON_parse responseText); repeat split; intros; deref_other; reflexivity.
Qed.

Lemma on_load_done id t0 st stText responseText headers now s :
  live s id -> outcome_count (deref s id) = 0 ->
  done (deref (on_load id t0 st stText responseText headers now s) id).
Proof.
  intros Hl Hb. apply done_one. unfold on_load.
  destruct (JSON_parse responseText); deref_same; count_other;
    (rewrite outcome_count_set_one;
     [reflexivity|reflexivity|rewrite ?is_object_set_prop; exact Hl|count_other; exact Hb]).
Qed.

Lemma on_error_frame id s :
  let s' := on_error id s in
  xhrs s' = xhrs s /\ pending s' = pending s /\ requests s' = requests s ++ [id]
  /\ (forall id', id' <> id -> deref s' id' = deref s id').
Proof.
  cbn zeta. unfold on_error. repeat split; intros; deref_other; reflexivity.
Qed.

Lemma on_error_done id s :
  live s id -> outcome_count (deref s id) = 0 -> done (deref (on_error id s) id).
Proof.
  intros Hl Hb. apply done_one. unfold on_error. deref_same.
  rewrite outcome_count_set_one;
    [reflexivity|reflexivity|rewrite ?is_object_set_prop; exact Hl|count_other; exact Hb].
Qed.

Lemma fetch_resume_frame k id t0 r now s :
  let s' := fetch_resume k id t0 r now s in
  xhrs s' = xhrs s /\ pending s' = pending s /\ requests s' = requests s ++ [id]
  /\ (forall id', id' <> id -> deref s' id' = deref s id').
Proof.
  cbn zeta. unfold fetch_resume, fetch_catch.
  destruct r as [response|msg];
    [destruct (clone response) as [clone0|msg];
     [destruct (json clone0) as [clone1 [responseData|msg]];
      [|destruct (text clone1).2]|]|];
    repeat split; intros; deref_other; reflexivity.
Qed.

Lemma is_fetch_record_set_prop k v rd :
  k <> "type" -> is_fetch_record rd -> is_fetch_record (set_prop k v rd).
Proof.
  unfold is_fetch_record. intros Hk Hf. rewrite get_field_set_prop_ne by assumption.
  exact Hf.
Qed.

Lemma fetch_resume_done k id t0 r now s :
  live s id -> outcome_count (deref s id) = 0 -> is_fetch_record (deref s id) ->
  done (deref (fetch_resume k id t0 r now s) id).
Proof.
  intros Hl Hb Hf. unfold fetch_resume, fetch_catch.
  destruct r as [response|msg];
    [destruct (clone response) as [clone0|msg];
     [destruct (json clone0) as [clone1 [responseData|msg]];
      [|destruct (text clone1).2]|]|];
    deref_same;
    try (apply done_one; count_other; rewrite outcome_count_set_one;
         [reflexivity|reflexivity|rewrite ?is_object_set_prop; exact Hl
         |count_other; exact Hb]).
  right. split; [count_other; exact Hb|].
  repeat (apply is_fetch_record_set_prop; [discriminate|]). exact Hf.
Qed.

(** With the two listeners of a single send, an event runs one of them. *)
Lemma fire_pair x c now s id t :
  listeners (xhr_at s x) = [(OnLoad, id, t); (OnError, id, t)] ->
  fire x c now s =
  match c with
  | Load st stText responseText headers =>
      on_load id t st stText responseText headers now s
  | Error => on_error id s
  | Abort | Timeout => s
  end.
Proof. intros Hl. unfold fire. rewrite Hl. destruct c; reflexivity. Qed.

Lemma fire_silent x c now s : listeners (xhr_at s x) = [] -> fire x c now s = s.
Proof. intros Hl. unfold fire. rewrite Hl. reflexivity. Qed.

Lemma fire_incomplete x c now s : completes c = false -> fire x c now s = s.
Proof.
  intros Hc. unfold fire. induction (listeners (xhr_at s x)) as [|[[[] id] t] ls IH];
    simpl; [reflexivity| |]; destruct c; try discriminate; exact IH.
Qed.

Lemma new_requestData_blank reqId u m iso ty b :
  outcome_count (new_requestData reqId u m iso ty b) = 0.
Proof. reflexivity. Qed.

Lemma life_step sent fired s e tr :
  heap_ok s -> life_ok sent fired s ->
  well_formed sent fired (e :: tr) = true ->
  exists sent' fired',
    life_ok sent' fired' (step s e) /\ well_formed sent' fired' tr = true.
Proof.
  intros Hs Hlife Hwf.
  destruct e as [x m u now|x b iso|x c now|u o now iso|k r now iso|iso href ok];
    simpl in Hwf.
  - (* open *)
    exists sent, fired. split; [|exact Hwf]. simpl.
    assert (Hl : forall x', listeners (xhr_at (open_wrapper x m u now s) x')
                            = listeners (xhr_at s x')).
    { intros x'. unfold open_wrapper, xhr_at. simpl. rewrite lookup_total_insert.
      destruct (decide (x = x')) as [->|]; reflexivity. }
    destruct (XHR_open s).
    + apply (life_ok_weaken sent fired fired s); try reflexivity; [|apply Hl|exact Hlife].
      intros [x'|k] id; simpl; [rewrite Hl|]; trivial.
    + apply (life_ok_weaken sent fired fired s); try reflexivity; [|exact Hlife].
      intros o id Ho. exact Ho.
  - (* send *)
    apply andb_true_iff in Hwf as [Hx Hwf]. apply bool_decide_eq_true in Hx.
    exists ({[x]} ∪ sent), fired. split; [|exact Hwf]. simpl.
    assert (Hpass : forall e, life_ok ({[x]} ∪ sent) fired (emit e s)).
    { intros e. apply life_ok_sent.
      apply (life_ok_weaken sent fired fired s); try reflexivity; [|exact Hlife].
      intros o id Ho. exact Ho. }
    destruct (XHR_send s); [|apply Hpass].
    unfold send_wrapper. destruct (slots (xhr_at s x)) as [sl|] eqn:Hsl; [|apply Hpass].
    destruct (in_scope (_captureUrl sl)) as [[]|] eqn:Hu; try apply Hpass.
    pose proof (unsent_silent sent fired s Hlife x Hx) as Hnone.
    rewrite Hnone. simpl app.
    set (id := S (requestCounter s)).
    set (t := _captureStartTime sl).
    match goal with |- life_ok _ _ ?s0 => set (s' := s0) end.
    assert (Hl : forall x', listeners (xhr_at s' x')
                 = if decide (x = x') then [(OnLoad, id, t); (OnError, id, t)]
                   else listeners (xhr_at s x')).
    { intros x'. unfold s', xhr_at. simpl. rewrite lookup_total_insert.
      destruct (decide (x = x')); reflexivity. }
    apply (life_ok_create sent ({[x]} ∪ sent) fired s s' (OXhr x) id Hs Hlife eq_refl).
    + intros [x'|k] id'; simpl.
      * rewrite Hl. intros (Hnf & k & t' & Hin). destruct (decide (x = x')) as [<-|Hne].
        -- left. split; [reflexivity|].
           apply elem_of_cons in Hin as [Hin|Hin]; [congruence|].
           apply list_elem_of_singleton in Hin. congruence.
        -- right. split; [split; [exact Hnf|exists k, t'; exact Hin]|congruence].
      * intros Hp. right. split; [exact Hp|discriminate].
    + intros x' Hx'. rewrite Hl. destruct (decide (x = x')) as [<-|Hne].
      * exfalso. apply Hx', elem_of_union. left. apply elem_of_singleton. reflexivity.
      * apply (unsent_silent sent fired s Hlife). intros Hin. apply Hx', elem_of_union.
        right. exact Hin.
    + intros x'. rewrite Hl. destruct (decide (x = x')).
      * right. exists id, t. reflexivity.
      * apply (listeners_shape sent fired s Hlife).
    + reflexivity.
    + intros id' Hne. unfold s', deref. simpl.
      rewrite lookup_insert_ne; [reflexivity|]. intros E. apply Hne. symmetry. exact E.
    + unfold s', deref. simpl. rewrite lookup_insert_eq. apply new_requestData_blank.
    + intros k [=].
  - (* fire *)
    destruct (completes c) eqn:Hc.
    + apply andb_true_iff in Hwf as [Hx Hwf]. apply bool_decide_eq_true in Hx.
      exists sent, ({[x]} ∪ fired). split; [|exact Hwf]. simpl.
      assert (Hsub : forall s0 o id,
                 (forall x', xhr_at s0 x' = xhr_at s x') -> pending s0 = pending s ->
                 owns s0 ({[x]} ∪ fired) o id -> owns s fired o id /\ o <> OXhr x).
      { intros s0 [x'|k] id Hx0 Hp0; simpl.
        - rewrite Hx0. intros (Hnf & Hin). split; [split; [|exact Hin]|].
          + intros Hf. apply Hnf, elem_of_union. right. exact Hf.
          + intros [= ->]. apply Hnf, elem_of_union. left. apply elem_of_singleton.
            reflexivity.
        - rewrite Hp0. intros Hp. split; [exact Hp|discriminate]. }
      destruct (listeners_shape sent fired s Hlife x) as [Hnone|(id & t & Hpair)].
      * rewrite fire_silent by exact Hnone.
        apply (life_ok_weaken sent fired _ s); try reflexivity; [|exact Hlife].
        intros o id Ho. apply (Hsub s o id); [reflexivity|reflexivity|exact Ho].
      * assert (Ho : owns s fired (OXhr x) id).
        { split; [exact Hx|]. exists OnLoad, t. rewrite Hpair. left. }
        destruct (owned_blank sent fired s Hlife _ id Ho) as [Hb _].
        pose proof (owns_live s fired _ id Hs Ho) as Hlv.
        rewrite (fire_pair x c now s id t Hpair).
        destruct c as [st stText responseText headers| | |]; try discriminate.
        -- destruct (on_load_frame id t st stText responseText headers now s)
             as (Hx' & Hp' & Hr' & Hd').
           apply (life_ok_complete sent fired _ s _ (OXhr x) id Hlife Ho).
           ++ intros o' id'. apply Hsub; [|exact Hp'].
              intros x'. unfold xhr_at. rewrite Hx'. reflexivity.
           ++ intros x'. unfold xhr_at. rewrite Hx'. reflexivity.
           ++ exact Hr'.
           ++ exact Hd'.
           ++ apply on_load_done; assumption.
        -- destruct (on_error_frame id s) as (Hx' & Hp' & Hr' & Hd').
           apply (life_ok_complete sent fired _ s _ (OXhr x) id Hlife Ho).
           ++ intros o' id'. apply Hsub; [|exact Hp'].
              intros x'. unfold xhr_at. rewrite Hx'. reflexivity.
           ++ intros x'. unfold xhr_at. rewrite Hx'. reflexivity.
           ++ exact Hr'.
           ++ exact Hd'.
           ++ apply on_error_done; assumption.
    + exists sent, fired. split; [|exact Hwf]. simpl.
      rewrite fire_incomplete by exact Hc. exact Hlife.
  - (* fetch call *)
    exists sent, fired. split; [|exact Hwf]. simpl.
    assert (Hpass : forall s0,
               (forall x', xhr_at s0 x' = xhr_at s x') ->
               (forall id, deref s0 id = deref s id) -> requests s0 = requests s ->
               pending s0 = <[calls s := Direct]> (pending s) \/ pending s0 = pending s ->
               life_ok sent fired s0).
    { intros s0 Hx0 Hd0 Hr0 Hp0.
      apply (life_ok_weaken sent fired fired s); try assumption.
      - intros [x'|k] id; simpl; [rewrite Hx0; trivial|].
        destruct Hp0 as [-> | ->]; [|trivial].
        rewrite lookup_insert. destruct (decide (calls s = k)); [|trivial].
        intros (t & [=]).
      - intros x'. rewrite Hx0. reflexivity. }
    destruct (window_fetch s).
    + unfold fetch_wrapper. destruct (in_scope u) as [[]|] eqn:Hu.
      * set (id := S (requestCounter s)).
        match goal with |- life_ok _ _ ?s0 => set (s' := s0) end.
        apply (life_ok_create sent sent fired s s' (OFetch (calls s)) id Hs Hlife eq_refl).
        -- intros [x'|k] id'; simpl.
           ++ intros Ho. right. split; [exact Ho|discriminate].
           ++ unfold s'. simpl. rewrite lookup_insert.
              destruct (decide (calls s = k)) as [<-|Hne].
              ** intros (t & [= <- <-]). left. split; reflexivity.
              ** intros Hp. right. split; [exact Hp|congruence].
        -- apply (unsent_silent sent fired s Hlife).
        -- apply (listeners_shape sent fired s Hlife).
        -- reflexivity.
        -- intros id' Hne. unfold s', deref. simpl.
           rewrite lookup_insert_ne; [reflexivity|]. intros E. apply Hne. symmetry. exact E.
        -- unfold s', deref. simpl. rewrite lookup_insert_eq. apply new_requestData_blank.
        -- intros k _. unfold s', deref. simpl. rewrite lookup_insert_eq. reflexivity.
      * apply Hpass; try reflexivity. left. reflexivity.
      * apply Hpass; try reflexivity. right. reflexivity.
    + apply Hpass; try reflexivity. left. reflexivity.
  - (* fetch settle *)
    exists sent, fired. split; [|exact Hwf]. simpl.
    destruct (pending s !! k) as [[|id t0]|] eqn:Hk; [| |exact Hlife].
    + apply (life_ok_weaken sent fired fired s); try reflexivity; [|exact Hlife].
      intros [x'|k'] id; simpl; [trivial|].
      rewrite lookup_delete. destruct (decide (k = k')); [intros (t & [=])|trivial].
    + set (s1 := with_pending (delete k (pending s)) s).
      assert (Ho : owns s fired (OFetch k) id) by (exists t0; exact Hk).
      destruct (owned_blank sent fired s Hlife _ id Ho) as [Hb _].
      pose proof (owned_fetch sent fired s Hlife k id Ho) as Hf.
      pose proof (owns_live s fired _ id Hs Ho) as Hlv.
      destruct (fetch_resume_frame k id t0 r now s1) as (Hx' & Hp' & Hr' & Hd').
      apply (life_ok_complete sent fired fired s _ (OFetch k) id Hlife Ho).
      * intros [x'|k'] id'; simpl.
        -- unfold xhr_at. rewrite Hx'. intros Ho'. split; [exact Ho'|discriminate].
        -- rewrite Hp'. unfold s1. simpl. rewrite lookup_delete.
           destruct (decide (k = k')) as [<-|Hne]; [intros (t & [=])|].
           intros Hp. split; [exact Hp|congruence].
      * intros x'. unfold xhr_at. rewrite Hx'. reflexivity.
      * exact Hr'.
      * exact Hd'.
      * apply (fetch_resume_done k id t0 r now s1); assumption.
  - (* stop *)
    exists sent, fired. split; [|exact Hwf]. simpl.
    apply (life_ok_weaken sent fired fired s); try (destruct ok; reflexivity);
      [|exact Hlife].
    intros [x'|k] id; destruct ok; trivial.
Qed.

(** Along a well-formed trace the invariants hold at every point. *)
Lemma life_run tr sent fired s :
  heap_ok s -> life_ok sent fired s -> well_formed sent fired tr = true ->
  exists sent' fired', life_ok sent' fired' (run tr s).
Proof.
  revert sent fired s. induction tr as [|e tr IH]; intros sent fired s Hs Hlife Hwf.
  - exists sent, fired. exact Hlife.
  - destruct (life_step sent fired s e tr Hs Hlife Hwf) as (sent' & fired' & Hl' & Hwf').
    apply (IH sent' fired' (step s e)); [apply heap_ok_step; exact Hs|exact Hl'|exact Hwf'].
Qed.

End Facts.
End NoHarLife.

(** ** What an event does to the buffer of extract_no_har.js *)

Module NoHarEvents.
Import NoHar NoHarSpec NoHarInv NoHarLife.

Section Facts.
Context `{JSONApi}.

Lemma requests_run_listener c now s l id :
  id ∈ requests s -> id ∈ requests (run_listener c now s l).
Proof.
  intros Hin. destruct l as [[[] id'] t], c; cbn [run_listener]; try exact Hin.
  - destruct (on_load_frame id' t st stText responseText headers now s) as (_ & _ & -> & _).
    apply elem_of_app. left. exact Hin.
  - destruct (on_error_frame id' s) as (_ & _ & -> & _).
    apply elem_of_app. left. exact Hin.
Qed.

Lemma run_listener_pushes c now s l :
  triggers l c = true -> l.1.2 ∈ requests (run_listener c now s l).
Proof.
  destruct l as [[[] id] t], c; cbn [run_listener fst snd]; try discriminate; intros _.
  - destruct (on_load_frame id t st stText responseText headers now s) as (_ & _ & -> & _).
    apply elem_of_app. right. left.
  - destruct (on_error_frame id s) as (_ & _ & -> & _).
    apply elem_of_app. right. left.
Qed.

(** A property that one listener of the list establishes and every
    listener keeps holds after the dispatch. *)
Lemma fold_establish (P Q : state -> Prop) c now ls l s :
  l ∈ ls -> P s ->
  (forall s0 l', P s0 -> P (run_listener c now s0 l')) ->
  (forall s0, P s0 -> Q (run_listener c now s0 l)) ->
  (forall s0 l', Q s0 -> Q (run_listener c now s0 l')) ->
  Q (fold_left (run_listener c now) ls s).
Proof.
  intros Hin Hp HP HPQ HQ. revert s Hp.
  induction ls as [|l0 ls IH]; intros s Hp; [apply elem_of_nil in Hin; contradiction|].
  simpl. apply elem_of_cons in Hin as [->|Hin].
  - clear IH. generalize (HPQ s Hp). generalize (run_listener c now s l0).
    induction ls as [|l1 ls IH]; intros s1 Hq; simpl; [exact Hq|].
    apply IH, HQ, Hq.
  - apply (IH Hin). apply HP, Hp.
Qed.

Lemma fire_pushes x c now s l :
  l ∈ listeners (xhr_at s x) -> triggers l c = true ->
  l.1.2 ∈ requests (fire x c now s).
Proof.
  intros Hin Ht. unfold fire.
  apply (fold_establish (fun _ => True) (fun s0 => l.1.2 ∈ requests s0) c now _ l s Hin I).
  - trivial.
  - intros s0 _. apply run_listener_pushes. exact Ht.
  - intros s0 l' Hq. apply requests_run_listener. exact Hq.
Qed.

Lemma on_error_errored id id' s :
  live s id -> (id' = id \/ errored s id) -> live (on_error id' s) id /\ errored (on_error id' s) id.
Proof.
  intros Hl Hcase. unfold on_error, errored, live. rewrite deref_push.
  destruct (decide (id = id')) as [<-|Hne].
  - rewrite !deref_assign_eq, !is_object_set_prop. split; [exact Hl|].
    rewrite get_field_set_prop_eq by (rewrite is_object_set_prop; exact Hl).
    rewrite get_field_set_prop_ne by discriminate.
    rewrite get_field_set_prop_eq by exact Hl. split; reflexivity.
  - rewrite !deref_assign_ne by exact Hne. split; [exact Hl|].
    destruct Hcase as [->|He]; [contradiction|exact He].
Qed.

Lemma fire_error_errored x now s id t :
  live s id -> (OnError, id, t) ∈ listeners (xhr_at s x) ->
  errored (fire x Error now s) id.
Proof.
  intros Hl Hin. unfold fire.
  apply (fold_establish (fun s0 => live s0 id)
           (fun s0 => live s0 id /\ errored s0 id) Error now _ _ s Hin Hl).
  - intros s0 l' Hl0. apply live_run_listener. exact Hl0.
  - intros s0 Hl0. simpl. apply on_error_errored; [exact Hl0|left; reflexivity].
  - intros s0 [[[] id'] t'] [Hl0 He]; simpl; [split; assumption|].
    apply on_error_errored; [exact Hl0|right; exact He].
Qed.

Lemma on_load_previewed id id' t st stText responseText headers now s :
  JSON_parse responseText = None ->
  live s id -> (id' = id \/ previewed responseText s id) ->
  let s' := on_load id' t st stText responseText headers now s in
  live s' id /\ previewed responseText s' id
  /\ has_prop "response" (deref s' id) = has_prop "response" (deref s id).
Proof.
  intros Hp Hl Hcase. cbn zeta. unfold on_load, previewed, live. rewrite Hp, deref_push.
  destruct (decide (id = id')) as [<-|Hne].
  - rewrite !deref_assign_eq, !is_object_set_prop. split; [exact Hl|]. split.
    + rewrite get_field_set_prop_ne by discriminate.
      rewrite get_field_set_prop_eq by (rewrite !is_object_set_prop; exact Hl).
      reflexivity.
    + rewrite !has_prop_set_prop_ne by discriminate. reflexivity.
  - rewrite !deref_assign_ne by exact Hne. split; [exact Hl|]. split; [|reflexivity].
    destruct Hcase as [->|Hq]; [contradiction|exact Hq].
Qed.

End Facts.
End NoHarEvents.

(** ** Reachable states of extract_data_simple.js *)

Lemma simple_outcome_count_set_other k v rd :
  simple_outcome_key k = false ->
  simple_outcome_count (set_prop k v rd) = simple_outcome_count rd.
Proof.
  unfold simple_outcome_key, simple_outcome_count. intros Hk.
  apply orb_false_elim in Hk as [Hk He]. apply orb_false_elim in Hk as [Hr Ht].
  apply String.eqb_neq in Hr, Ht, He.
  rewrite !has_prop_set_prop_ne by assumption. reflexivity.
Qed.

Lemma simple_outcome_count_set_one k v rd :
  simple_outcome_key k = true -> is_object rd = true -> simple_outcome_count rd = 0 ->
  simple_outcome_count (set_prop k v rd) = 1.
Proof.
  unfold simple_outcome_key, simple_outcome_count. intros Hk Ho H0.
  destruct (has_prop "response" rd) eqn:E1; [discriminate|].
  destruct (has_prop "response_text" rd) eqn:E2; [discriminate|].
  destruct (has_prop "error" rd) eqn:E3; [discriminate|].
  apply orb_true_elim in Hk as [Hk|Hk]; [apply orb_true_elim in Hk as [Hk|Hk]|];
    apply String.eqb_eq in Hk; subst k;
    rewrite has_prop_set_prop_eq by assumption;
    rewrite !has_prop_set_prop_ne by discriminate;
    rewrite ?E1, ?E2, ?E3; reflexivity.
Qed.

Module SimpleInv.
Import Simple SimpleSpec.

Lemma simple_deref_assign s ref k v ref' :
  deref (assign ref k v s) ref'
  = if decide (ref = ref') then set_prop k v (deref s ref') else deref s ref'.
Proof.
  unfold deref, assign. simpl. rewrite lookup_alter.
  destruct (decide (ref = ref')) as [->|]; [|reflexivity].
  destruct (objects s !! ref'); reflexivity.
Qed.

Lemma simple_deref_alloc s rd ref' :
  deref (alloc rd s) ref' = if decide (allocated s = ref') then rd else deref s ref'.
Proof.
  unfold deref, alloc. simpl. rewrite lookup_insert.
  destruct (decide (allocated s = ref')); reflexivity.
Qed.

Lemma simple_deref_alloc_new s rd : deref (alloc rd s) (allocated s) = rd.
Proof.
  rewrite simple_deref_alloc. destruct (decide (allocated s = allocated s)); congruence.
Qed.

Lemma simple_invariant_init : invariant ∅ ∅ init.
Proof.
  assert (Hl : forall x, listeners (xhr_at init x) = []).
  { intros x. unfold xhr_at. simpl. rewrite lookup_total_empty. reflexivity. }
  assert (Hd : forall ref, ~ live init ref).
  { intros ref. unfold live, deref. simpl. rewrite lookup_empty. discriminate. }
  split; split.
  - intros ref Hlv. destruct (Hd ref Hlv).
  - intros ref Hin. simpl in Hin. apply elem_of_nil in Hin. contradiction.
  - intros x ref. rewrite Hl. intros Hin. apply elem_of_nil in Hin. contradiction.
  - intros x _. apply Hl.
  - intros x. left. apply Hl.
  - intros x ref _. rewrite Hl. intros Hin. apply elem_of_nil in Hin. contradiction.
  - intros x x' ref _ _. rewrite Hl. intros Hin. apply elem_of_nil in Hin. contradiction.
  - constructor.
  - intros ref Hin. simpl in Hin. apply elem_of_nil in Hin. contradiction.
Qed.

(** A state with the same records, buffer and listeners. *)
Lemma simple_invariant_same sent fired fired' s s' :
  (forall x, x ∉ fired' -> x ∉ fired) ->
  (forall x, listeners (xhr_at s' x) = listeners (xhr_at s x)) ->
  (forall ref, deref s' ref = deref s ref) ->
  capturedRequests s' = capturedRequests s ->
  allocated s' = allocated s ->
  invariant sent fired s -> invariant sent fired' s'.
Proof.
  intros Hf Hx Hd Hr Ha [[G1 G2 G3] [H1 H2 H3 H4 H5 H6]].
  split; split.
  - intros ref Hl. rewrite Ha. apply G1. unfold live in *. rewrite <- Hd. exact Hl.
  - intros ref Hin. unfold live. rewrite Hd. apply G2. rewrite <- Hr. exact Hin.
  - intros x ref Hin. unfold live. rewrite Hd. apply (G3 x). rewrite <- Hx. exact Hin.
  - intros x Hx'. rewrite Hx. apply H1. exact Hx'.
  - intros x. rewrite Hx. apply H2.
  - intros x ref Hnf Hin. rewrite Hd, Hr. apply (H3 x ref (Hf x Hnf)).
    rewrite <- Hx. exact Hin.
  - intros x x' ref Hnf Hnf' Hin Hin'. rewrite Hx in Hin, Hin'.
    apply (H4 x x' ref (Hf x Hnf) (Hf x' Hnf') Hin Hin').
  - rewrite Hr. exact H5.
  - intros ref Hin. rewrite Hd. apply H6. rewrite <- Hr. exact Hin.
Qed.

Lemma simple_invariant_emit sent fired e s :
  invariant sent fired s -> invariant sent fired (emit e s).
Proof.
  apply simple_invariant_same; try reflexivity. trivial.
Qed.

Lemma simple_invariant_sent sent fired x s :
  invariant sent fired s -> invariant ({[x]} ∪ sent) fired s.
Proof.
  intros [Hh [H1 H2 H3 H4 H5 H6]]. split; [exact Hh|]. split; try assumption.
  intros x' Hx'. apply H1. intros Hin. apply Hx', elem_of_union. right. exact Hin.
Qed.


Lemma simple_live_alloc_old s rd ref :
  is_object rd = true -> live s ref -> live (alloc rd s) ref.
Proof.
  intros Ho Hl. unfold live. rewrite simple_deref_alloc.
  destruct (decide (allocated s = ref)); assumption.
Qed.

Lemma simple_deref_alloc_old s rd ref :
  heap_ok s -> live s ref -> deref (alloc rd s) ref = deref s ref.
Proof.
  intros Hh Hl. rewrite simple_deref_alloc.
  destruct (decide (allocated s = ref)) as [E|]; [|reflexivity].
  specialize (live_bound s Hh ref Hl). lia.
Qed.

Lemma simple_fresh_not_captured s :
  heap_ok s -> allocated s ∉ capturedRequests s.
Proof.
  intros Hh Hin. specialize (live_bound s Hh _ (requests_live s Hh _ Hin)). lia.
Qed.

(** The wrapped [send] creates a record and adds its listener. *)
Lemma simple_invariant_register sent fired s x rd this' :
  x ∉ sent -> is_object rd = true -> simple_outcome_count rd = 0 ->
  listeners this' = listeners (xhr_at s x) ++ [allocated s] ->
  invariant sent fired s ->
  invariant ({[x]} ∪ sent) fired (with_xhrs (<[x := this']> (xhrs s)) (alloc rd s)).
Proof.
  intros Hx Ho Hb Hthis [Hh Hlife].
  pose proof Hh as [G1 G2 G3]. pose proof Hlife as [H1 H2 H3 H4 H5 H6].
  set (s' := with_xhrs (<[x := this']> (xhrs s)) (alloc rd s)).
  assert (Hl : forall x', listeners (xhr_at s' x')
               = if decide (x = x') then [allocated s] else listeners (xhr_at s x')).
  { intros x'. unfold s', xhr_at. simpl. rewrite lookup_total_insert.
    destruct (decide (x = x')) as [<-|]; [|reflexivity].
    rewrite Hthis, (H1 x Hx). reflexivity. }
  assert (Hd : forall ref, deref s' ref = deref (alloc rd s) ref) by reflexivity.
  assert (Hnew : deref s' (allocated s) = rd).
  { rewrite Hd, simple_deref_alloc_new. reflexivity. }
  split; split.
  - intros ref Hlv. unfold live in Hlv. rewrite Hd, simple_deref_alloc in Hlv.
    change (allocated s') with (S (allocated s)).
    destruct (decide (allocated s = ref)); [lia|]. specialize (G1 ref Hlv). lia.
  - intros ref Hin. apply simple_live_alloc_old; [exact Ho|]. apply G2. exact Hin.
  - intros x' ref. rewrite Hl. destruct (decide (x = x')).
    + intros Hin. apply list_elem_of_singleton in Hin. subst ref.
      unfold live. rewrite Hnew. exact Ho.
    + intros Hin. apply simple_live_alloc_old; [exact Ho|]. apply (G3 x' ref Hin).
  - intros x' Hx'. rewrite Hl. destruct (decide (x = x')) as [<-|].
    + exfalso. apply Hx', elem_of_union. left. apply elem_of_singleton. reflexivity.
    + apply H1. intros Hin. apply Hx', elem_of_union. right. exact Hin.
  - intros x'. rewrite Hl. destruct (decide (x = x')); [right; eauto|apply H2].
  - intros x' ref Hnf. rewrite Hl. destruct (decide (x = x')).
    + intros Hin. apply list_elem_of_singleton in Hin. subst ref.
      rewrite Hnew. split; [exact Hb|]. exact (simple_fresh_not_captured s Hh).
    + intros Hin. rewrite Hd, (simple_deref_alloc_old s rd ref Hh (G3 x' ref Hin)).
      apply (H3 x' ref Hnf Hin).
  - intros x1 x2 ref Hn1 Hn2. rewrite !Hl.
    destruct (decide (x = x1)) as [<-|], (decide (x = x2)) as [<-|]; intros Hi1 Hi2.
    + reflexivity.
    + apply list_elem_of_singleton in Hi1. subst ref.
      specialize (G1 _ (G3 x2 _ Hi2)). lia.
    + apply list_elem_of_singleton in Hi2. subst ref.
      specialize (G1 _ (G3 x1 _ Hi1)). lia.
    + apply (H4 x1 x2 ref Hn1 Hn2 Hi1 Hi2).
  - exact H5.
  - intros ref Hin. rewrite Hd, (simple_deref_alloc_old s rd ref Hh (G2 ref Hin)).
    apply H6. exact Hin.
Qed.


(** The fetch wrapper creates a finished record and pushes it at once. *)
Lemma simple_invariant_record sent fired s rd :
  is_object rd = true -> done rd ->
  invariant sent fired s -> invariant sent fired (push (allocated s) (alloc rd s)).
Proof.
  intros Ho Hdone [Hh Hlife].
  pose proof Hh as [G1 G2 G3]. pose proof Hlife as [H1 H2 H3 H4 H5 H6].
  set (s' := push (allocated s) (alloc rd s)).
  assert (Hd : forall ref, deref s' ref = deref (alloc rd s) ref) by reflexivity.
  assert (Hr : capturedRequests s' = capturedRequests s ++ [allocated s]) by reflexivity.
  assert (Hx : forall x, xhr_at s' x = xhr_at s x) by reflexivity.
  split; split.
  - intros ref Hlv. unfold live in Hlv. rewrite Hd, simple_deref_alloc in Hlv.
    change (allocated s') with (S (allocated s)).
    destruct (decide (allocated s = ref)); [lia|]. specialize (G1 ref Hlv). lia.
  - intros ref Hin. rewrite Hr in Hin. apply elem_of_app in Hin as [Hin|Hin].
    + apply simple_live_alloc_old; [exact Ho|]. apply G2. exact Hin.
    + apply list_elem_of_singleton in Hin. subst ref. unfold live.
      rewrite Hd, simple_deref_alloc_new. exact Ho.
  - intros x ref. rewrite Hx. intros Hin.
    apply simple_live_alloc_old; [exact Ho|]. apply (G3 x ref Hin).
  - intros x. rewrite Hx. apply H1.
  - intros x. rewrite Hx. apply H2.
  - intros x ref Hnf. rewrite Hx. intros Hin.
    rewrite Hd, (simple_deref_alloc_old s rd ref Hh (G3 x ref Hin)).
    destruct (H3 x ref Hnf Hin) as [Hb Hnin]. split; [exact Hb|].
    rewrite Hr. intros Hin'. apply elem_of_app in Hin' as [Hin'|Hin']; [contradiction|].
    apply list_elem_of_singleton in Hin'. subst ref.
    specialize (G1 _ (G3 x _ Hin)). lia.
  - intros x1 x2 ref Hn1 Hn2. rewrite !Hx. apply (H4 x1 x2 ref Hn1 Hn2).
  - rewrite Hr. apply NoDup_app. split; [exact H5|]. split; [|apply NoDup_singleton].
    intros ref Hin Hin'. apply list_elem_of_singleton in Hin'. subst ref.
    apply (simple_fresh_not_captured s Hh Hin).
  - intros ref Hin. rewrite Hr in Hin. apply elem_of_app in Hin as [Hin|Hin].
    + rewrite Hd, (simple_deref_alloc_old s rd ref Hh (G2 ref Hin)). apply H6. exact Hin.
    + apply list_elem_of_singleton in Hin. subst ref.
      rewrite Hd, simple_deref_alloc_new. exact Hdone.
Qed.

Section Facts.
Context `{JSONApi}.

Lemma simple_on_load_frame ref st responseText s :
  let s' := on_load ref st responseText s in
  xhrs s' = xhrs s /\ allocated s' = allocated s
  /\ capturedRequests s' = capturedRequests s ++ [ref]
  /\ (forall ref', ref' <> ref -> deref s' ref' = deref s ref')
  /\ (forall ref', live s ref' -> live s' ref')
  /\ (live s ref -> simple_outcome_count (deref s ref) = 0 -> done (deref s' ref)).
Proof.
  cbn zeta. unfold on_load.
  assert (Hne : forall ref' k v s0, ref' <> ref ->
            deref (assign ref k v s0) ref' = deref s0 ref').
  { intros ref' k v s0 Hn. rewrite simple_deref_assign.
    destruct (decide (ref = ref')); [congruence|reflexivity]. }
  assert (Heq : forall k v s0, deref (assign ref k v s0) ref = set_prop k v (deref s0 ref)).
  { intros k v s0. rewrite simple_deref_assign.
    destruct (decide (ref = ref)); [reflexivity|contradiction]. }
  assert (Hlv : forall ref' k v s0, live s0 ref' -> live (assign ref k v s0) ref').
  { intros ref' k v s0 Hl. unfold live. rewrite simple_deref_assign.
    destruct (decide (ref = ref')); [rewrite is_object_set_prop|]; exact Hl. }
  destruct (JSON_parse responseText); repeat split; try reflexivity.
  - intros ref' Hn. change (deref (push ?r ?s0) ref') with (deref s0 ref').
    rewrite !Hne by exact Hn. reflexivity.
  - intros ref' Hl. apply (Hlv ref'), (Hlv ref'). exact Hl.
  - intros Hl Hb. left. change (deref (push ?r ?s0) ref) with (deref s0 ref).
    rewrite !Heq. rewrite simple_outcome_count_set_one;
      [reflexivity|reflexivity|rewrite is_object_set_prop; exact Hl|].
    rewrite simple_outcome_count_set_other by reflexivity. exact Hb.
  - intros ref' Hn. change (deref (push ?r ?s0) ref') with (deref s0 ref').
    rewrite !Hne by exact Hn. reflexivity.
  - intros ref' Hl. apply (Hlv ref'), (Hlv ref'). exact Hl.
  - intros Hl Hb. left. change (deref (push ?r ?s0) ref) with (deref s0 ref).
    rewrite !Heq. rewrite simple_outcome_count_set_one;
      [reflexivity|reflexivity|rewrite is_object_set_prop; exact Hl|].
    rewrite simple_outcome_count_set_other by reflexivity. exact Hb.
Qed.

(** The one listener of an object that has not completed pushes its
    record. *)
Lemma simple_invariant_load sent fired s x ref st responseText :
  x ∉ fired -> listeners (xhr_at s x) = [ref] ->
  invariant sent fired s ->
  invariant sent ({[x]} ∪ fired) (on_load ref st responseText s).
Proof.
  intros Hx Hls [Hh Hlife].
  pose proof Hh as [G1 G2 G3]. pose proof Hlife as [H1 H2 H3 H4 H5 H6].
  destruct (simple_on_load_frame ref st responseText s) as (Hxs & Ha & Hr & Hd & Hlv & Hdone).
  set (s' := on_load ref st responseText s) in *.
  assert (Hxa : forall x', xhr_at s' x' = xhr_at s x')
    by (intros x'; unfold xhr_at; rewrite Hxs; reflexivity).
  assert (Hown : ref ∈ listeners (xhr_at s x)) by (rewrite Hls; left).
  destruct (H3 x ref Hx Hown) as [Hb Hfresh].
  assert (Hother : forall x' ref', x' ∉ {[x]} ∪ fired -> ref' ∈ listeners (xhr_at s x') ->
                                  (x' ∉ fired) /\ ref' <> ref).
  { intros x' ref' Hnf Hin.
    assert (Hnf' : x' ∉ fired) by (intros Hf; apply Hnf, elem_of_union; right; exact Hf).
    split; [exact Hnf'|]. intros ->.
    apply Hnf, elem_of_union. left. apply elem_of_singleton.
    apply (H4 x' x ref Hnf' Hx Hin Hown). }
  split; split.
  - intros ref' Hl. rewrite Ha. unfold live in Hl.
    destruct (decide (ref' = ref)) as [->|Hn]; [apply G1, (G3 x ref Hown)|].
    rewrite (Hd ref' Hn) in Hl. apply G1. exact Hl.
  - intros ref' Hin. rewrite Hr in Hin. apply Hlv.
    apply elem_of_app in Hin as [Hin|Hin]; [apply G2; exact Hin|].
    apply list_elem_of_singleton in Hin. subst ref'. apply (G3 x ref Hown).
  - intros x' ref'. rewrite Hxa. intros Hin. apply Hlv, (G3 x' ref' Hin).
  - intros x' Hx'. rewrite Hxa. apply H1. exact Hx'.
  - intros x'. rewrite Hxa. apply H2.
  - intros x' ref' Hnf. rewrite Hxa. intros Hin.
    destruct (Hother x' ref' Hnf Hin) as [Hnf' Hn].
    rewrite (Hd ref' Hn). destruct (H3 x' ref' Hnf' Hin) as [Hb' Hnin].
    split; [exact Hb'|]. rewrite Hr. intros Hin'.
    apply elem_of_app in Hin' as [Hin'|Hin']; [contradiction|].
    apply list_elem_of_singleton in Hin'. contradiction.
  - intros x1 x2 ref' Hn1 Hn2. rewrite !Hxa. intros Hi1 Hi2.
    apply (H4 x1 x2 ref' (proj1 (Hother x1 ref' Hn1 Hi1))
             (proj1 (Hother x2 ref' Hn2 Hi2)) Hi1 Hi2).
  - rewrite Hr. apply NoDup_app. split; [exact H5|]. split; [|apply NoDup_singleton].
    intros ref' Hin Hin'. apply list_elem_of_singleton in Hin'. subst ref'. contradiction.
  - intros ref' Hin. rewrite Hr in Hin. apply elem_of_app in Hin as [Hin|Hin].
    + rewrite Hd; [apply H6; exact Hin|]. intros ->. contradiction.
    + apply list_elem_of_singleton in Hin. subst ref'.
      apply Hdone; [apply (G3 x ref Hown)|exact Hb].
Qed.

(** The record the fetch wrapper builds has one outcome, or none when the
    response can be read neither as JSON nor as text. *)
Lemma read_response_done response u m iso st :
  let requestInfo :=
    JObj [("url", url_json u); ("method", JStr m); ("timestamp", JStr iso);
          ("type", JStr "fetch"); ("status", JNum st)] in
  is_object (read_response response requestInfo) = true
  /\ done (read_response response requestInfo).
Proof.
  cbn zeta. unfold read_response.
  destruct (clone response ≫= _) as [responseData|msg].
  - split; [reflexivity|]. left. reflexivity.
  - destruct (clone response ≫= _) as [t|msg'].
    + split; [reflexivity|]. left. reflexivity.
    + split; [reflexivity|]. right. split; reflexivity.
Qed.

Lemma simple_fire_no_load x c s :
  (forall st stText responseText headers, c <> Load st stText responseText headers) ->
  fire x c s = s.
Proof.
  intros Hc. unfold fire. induction (listeners (xhr_at s x)) as [|ref ls IH];
    simpl; [reflexivity|].
  destruct c; [exfalso; eapply Hc; reflexivity|exact IH..].
Qed.

Lemma simple_invariant_step sent fired s e tr :
  invariant sent fired s ->
  well_formed sent fired (e :: tr) = true ->
  exists sent' fired',
    invariant sent' fired' (step s e) /\ well_formed sent' fired' tr = true.
Proof.
  intros Hinv Hwf.
  assert (Hsame : forall s', (forall x, listeners (xhr_at s' x) = listeners (xhr_at s x)) ->
                             objects s' = objects s ->
                             capturedRequests s' = capturedRequests s ->
                             allocated s' = allocated s ->
                             forall fired', (forall x, x ∉ fired' -> x ∉ fired) ->
                             invariant sent fired' s').
  { intros s' Hx Ho Hr Ha fired' Hf.
    apply (simple_invariant_same sent fired fired' s s'); try assumption.
    intros ref. unfold deref. rewrite Ho. reflexivity. }
  assert (Hwiden : forall x0 x', x' ∉ {[x0]} ∪ fired -> x' ∉ fired).
  { intros x0 x' Hn Hf. apply Hn, elem_of_union. right. exact Hf. }
  destruct e as [x m u now|x b iso|x c now|u o now iso|k r now iso|iso href ok];
    simpl in Hwf.
  - exists sent, fired. split; [|exact Hwf]. simpl.
    destruct (XHR_open s); [|apply Hsame; auto].
    apply Hsame; auto. intros x'. unfold open_wrapper, xhr_at. simpl.
    rewrite lookup_total_insert. destruct (decide (x = x')) as [->|]; reflexivity.
  - apply andb_true_iff in Hwf as [Hx Hwf]. apply bool_decide_eq_true in Hx.
    exists ({[x]} ∪ sent), fired. split; [|exact Hwf]. simpl.
    assert (Hpass : forall e, invariant ({[x]} ∪ sent) fired (emit e s)).
    { intros e. apply simple_invariant_sent, Hsame; auto. }
    destruct (XHR_send s); [|apply Hpass].
    unfold send_wrapper. destruct (slots (xhr_at s x)) as [sl|]; [|apply Hpass].
    destruct (in_scope (_mpg_url sl)) as [[]|]; try apply Hpass.
    match goal with
    | |- invariant _ _ (emit _ (with_xhrs (<[x := ?this']> _) (alloc ?rd s))) =>
        pose proof (simple_invariant_register sent fired s x rd this' Hx eq_refl eq_refl
                      eq_refl Hinv) as Hreg
    end.
    apply simple_invariant_emit. exact Hreg.
  - destruct (completes c) eqn:Hc.
    + apply andb_true_iff in Hwf as [Hx Hwf]. apply bool_decide_eq_true in Hx.
      exists sent, ({[x]} ∪ fired). split; [|exact Hwf]. simpl.
      destruct c as [st stText responseText headers| | |]; try discriminate.
      * destruct (listeners_shape sent fired s (proj2 Hinv) x) as [Hnone|(ref & Hone)].
        -- unfold fire. rewrite Hnone. simpl. apply Hsame; auto. apply Hwiden.
        -- unfold fire. rewrite Hone. simpl.
           apply (simple_invariant_load sent fired s x ref st responseText Hx Hone Hinv).
      * rewrite simple_fire_no_load by discriminate. apply Hsame; auto. apply Hwiden.
    + exists sent, fired. split; [|exact Hwf]. simpl.
      rewrite simple_fire_no_load by (destruct c; discriminate). exact Hinv.
  - exists sent, fired. split; [|exact Hwf]. simpl.
    destruct (window_fetch s); apply Hsame; auto.
  - exists sent, fired. split; [|exact Hwf]. simpl.
    destruct (pending s !! k) as [[|u o]|]; [apply Hsame; auto| |exact Hinv].
    unfold fetch_resume. destruct r as [response|msg]; [|apply Hsame; auto].
    destruct (in_scope u) as [[]|]; try solve [apply Hsame; auto].
    set (s1 := with_pending (delete k (pending s)) s).
    destruct (read_response_done response u (method_or_GET o) iso (resp_status response))
      as [Ho Hdone].
    assert (Hinv1 : invariant sent fired s1) by (apply Hsame; auto).
    apply simple_invariant_emit.
    apply (simple_invariant_record sent fired s1 _ Ho Hdone Hinv1).
  - exists sent, fired. split; [|exact Hwf]. simpl.
    destruct (finished s); [exact Hinv|]. destruct ok; apply Hsame; auto.
Qed.

Lemma simple_invariant_run tr sent fired s :
  invariant sent fired s -> well_formed sent fired tr = true ->
  exists sent' fired', invariant sent' fired' (run tr s).
Proof.
  revert sent fired s. induction tr as [|e tr IH]; intros sent fired s Hinv Hwf.
  - exists sent, fired. exact Hinv.
  - destruct (simple_invariant_step sent fired s e tr Hinv Hwf)
      as (sent' & fired' & Hinv' & Hwf').
    apply (IH sent' fired' (step s e) Hinv' Hwf').
Qed.

End Facts.
End SimpleInv.

(** ** The filter of extract_no_har.js *)


Section Filter.
Import NoHar NoHarSpec NoHarInv NoHarLife NoHarEvents.
Context `{JSONApi}.

(** What the filter accepts. *)
Lemma in_scope_true url :
  in_scope (UStr url) = Ret true -> url <> "" /\ matches url = true.
Proof.
  simpl. intros [= Hs]. apply andb_true_iff in Hs as [Hne Hm]. split; [|exact Hm].
  intros ->. discriminate.
Qed.


End Filter.


(** ** Transport errors *)


Section TransportErrors.
Import NoHar NoHarSpec NoHarInv NoHarLife NoHarEvents.
Context `{JSONApi}.

(** Listeners leave the patched globals alone. *)
Lemma entries_run_listener c now s l : entries (run_listener c now s l) = entries s.
Proof.
  destruct l as [[[] id] t], c; try reflexivity.
  cbn [run_listener]. unfold on_load. destruct (JSON_parse _); reflexivity.
Qed.

Lemma entries_fire x c now s : entries (fire x c now s) = entries s.
Proof.
  unfold fire. generalize (listeners (xhr_at s x)) as ls.
  intros ls. revert s. induction ls as [|l ls IH]; intros s; simpl; [reflexivity|].
  rewrite IH. apply entries_run_listener.
Qed.


End TransportErrors.


(** ** Responses that are not JSON *)


Section Previews.
Context `{JSONApi}.


End Previews.


(** ** One outcome per buffered record *)

Example reused_xhr_pushes_twice :
  well_formed ∅ ∅ reuse_trace = false
  /\ NoHar.requests (NoHar.run reuse_trace (NoHar.init "2024-01-01T00:00:00.000Z"))
     = [1; 1; 2].
Proof. split; reflexivity. Qed.




(** ** Substrings and pieces *)

Lemma string_app_cons c (a b : string) : (String c a ++ b = String c (a ++ b))%string.
Proof. reflexivity. Qed.

Lemma prefix_spec a s : String.prefix a s = true <-> exists post, s = (a ++ post)%string.
Proof.
  revert s. induction a as [|c a IH]; intros s.
  - split; [intros _; exists s; reflexivity|intros _; destruct s; reflexivity].
  - destruct s as [|b s]; [split; [discriminate|intros [post Hp]; discriminate]|].
    simpl. destruct (ascii_dec c b) as [->|Hne].
    + rewrite IH. split; intros [post Hp]; exists post;
        rewrite string_app_cons in *; congruence.
    + split; [discriminate|]. intros [post Hp]. rewrite string_app_cons in Hp. congruence.
Qed.

Lemma index_spec needle s :
  is_Some (String.index 0 needle s)
  <-> exists pre post, s = (pre ++ needle ++ post)%string.
Proof.
  induction s as [|b s IH]; cbn [String.index].
  - destruct needle as [|c needle].
    + split; [intros _; exists "", ""%string; reflexivity|eauto].
    + split; [intros [x Hx]; discriminate|].
      intros (pre & post & Hp). destruct pre; discriminate.
  - destruct (String.prefix needle (String b s)) eqn:Hpre.
    + split; [intros _|eauto].
      apply prefix_spec in Hpre as [post Hp]. exists ""%string, post. exact Hp.
    + split.
      * intros Hs. destruct (String.index 0 needle s) eqn:Hi; [|destruct Hs; discriminate].
        destruct (proj1 IH) as (pre & post & Hp); [eauto|].
        exists (String b pre), post. rewrite string_app_cons. congruence.
      * intros (pre & post & Hp). destruct pre as [|c pre].
        -- assert (String.prefix needle (String b s) = true) as Hc
             by (apply prefix_spec; exists post; exact Hp).
           congruence.
        -- rewrite string_app_cons in Hp. inversion Hp; subst.
           destruct (proj2 IH) as [n Hn]; [eauto|].
           rewrite Hn. eauto.
Qed.

(** [s.includes(needle)] holds exactly when [needle] lies somewhere in
    [s]. *)
Lemma includes_spec s needle :
  includes s needle = true <-> exists pre post, s = (pre ++ needle ++ post)%string.
Proof.
  rewrite <- index_spec. unfold includes.
  destruct (String.index 0 needle s); split; eauto; try discriminate.
  intros [x Hx]; discriminate.
Qed.

Lemma string_app_assoc (a b c : string) : ((a ++ b) ++ c = a ++ b ++ c)%string.
Proof.
  induction a as [|x a IH]; [reflexivity|].
  rewrite !string_app_cons. f_equal. exact IH.
Qed.

Lemma string_app_nil_r (a : string) : (a ++ "" = a)%string.
Proof.
  induction a as [|x a IH]; [reflexivity|].
  rewrite string_app_cons. f_equal. exact IH.
Qed.

Lemma includes_app_l s a b : includes s (a ++ b) = true -> includes s a = true.
Proof.
  rewrite !includes_spec. intros (pre & post & ->).
  exists pre, (b ++ post)%string. rewrite string_app_assoc. reflexivity.
Qed.

Lemma includes_app_r s a b : includes s (a ++ b) = true -> includes s b = true.
Proof.
  rewrite !includes_spec. intros (pre & post & ->).
  exists (pre ++ a)%string, post. rewrite !string_app_assoc. reflexivity.
Qed.

Lemma includes_tail c s needle : includes (String c s) needle = false -> includes s needle = false.
Proof.
  intros Hf. destruct (includes s needle) eqn:Hi; [|reflexivity].
  apply includes_spec in Hi as (pre & post & ->).
  assert (includes (String c (pre ++ needle ++ post)) needle = true) as Hc
    by (apply includes_spec; exists (String c pre), post; reflexivity).
  congruence.
Qed.

Lemma includes_head_prefix s needle :
  includes s needle = false -> String.prefix needle s = false.
Proof.
  intros Hf. destruct (String.prefix needle s) eqn:Hp; [|reflexivity].
  apply prefix_spec in Hp as [post ->].
  assert (includes (needle ++ post) needle = true) as Hc
    by (apply includes_spec; exists ""%string, post; reflexivity).
  congruence.
Qed.

(** A string without the separator is one piece. *)
Lemma split_from_free sep cur s :
  includes s sep = false -> split_from sep 0 cur s = [(cur ++ s)%string].
Proof.
  revert cur. induction s as [|c s IH]; intros cur Hf; cbn [split_from].
  - rewrite string_app_nil_r. reflexivity.
  - rewrite (includes_head_prefix _ _ Hf).
    rewrite IH by (eapply includes_tail; eassumption).
    rewrite string_app_assoc. reflexivity.
Qed.

(** Passing over the rest of a separator. *)
Lemma split_from_skip sep cur a rest :
  split_from sep (String.length a) cur (a ++ rest) = split_from sep 0 cur rest.
Proof.
  induction a as [|x a IH]; simpl; [destruct rest; reflexivity|exact IH].
Qed.

(** The piece up to the first separator. *)
Lemma split_from_first c0 sep' cur p rest :
  no_start (String c0 sep') p (String c0 sep' ++ rest) = true ->
  split_from (String c0 sep') 0 cur (p ++ String c0 sep' ++ rest)
  = (cur ++ p)%string :: split_from (String c0 sep') 0 "" rest.
Proof.
  set (sep := String c0 sep').
  revert cur. induction p as [|c p IH]; intros cur Hc.
  - rewrite string_app_nil_r.
    change (("" ++ sep ++ rest)%string) with (String c0 (sep' ++ rest)).
    cbn [split_from].
    assert (String.prefix sep (String c0 (sep' ++ rest)) = true) as ->
      by (apply prefix_spec; exists rest; reflexivity).
    f_equal. replace (String.length sep - 1) with (String.length sep')
      by (subst sep; simpl; lia).
    apply split_from_skip.
  - cbn [no_start] in Hc. apply andb_true_iff in Hc as [Hh Ht].
    apply negb_true_iff in Hh.
    change ((String c p ++ sep ++ rest)%string) with (String c (p ++ sep ++ rest)).
    cbn [split_from].
    change ((String c p ++ sep ++ rest)%string) with (String c (p ++ sep ++ rest)) in Hh.
    rewrite Hh. rewrite IH by exact Ht. rewrite string_app_assoc. reflexivity.
Qed.

(** Every split has a first piece. *)
Lemma split_from_cons sep skip cur s : exists p ps, split_from sep skip cur s = p :: ps.
Proof.
  revert skip cur. induction s as [|c s IH]; intros skip cur; cbn [split_from]; [eauto|].
  destruct skip; [|apply IH].
  destruct (String.prefix sep (String c s)); [eauto|apply IH].
Qed.

(** A string without the first character of the separator has no
    separator starting in it. *)
Lemma no_start_lacks c0 sep' p tail :
  lacks c0 p = true -> no_start (String c0 sep') p tail = true.
Proof.
  induction p as [|c p IH]; cbn [lacks no_start]; [reflexivity|].
  intros Hl. apply andb_true_iff in Hl as [Hc Hl].
  rewrite IH by exact Hl. rewrite andb_true_r. simpl.
  destruct (ascii_dec c0 c) as [->|Hne]; [|reflexivity].
  rewrite Ascii.eqb_refl in Hc. discriminate.
Qed.

(** With a separator of two different characters, a string that does
    not contain it has none starting in it either, whatever follows. *)
Lemma no_start_two c1 c2 p tail :
  c1 <> c2 ->
  includes p (String c1 (String c2 "")) = false ->
  no_start (String c1 (String c2 "")) p (String c1 (String c2 "") ++ tail) = true.
Proof.
  intros Hne. induction p as [|c p IH]; intros Hf; [reflexivity|].
  cbn [no_start]. rewrite IH by (eapply includes_tail; eassumption).
  rewrite andb_true_r. apply negb_true_iff.
  destruct (String.prefix (String c1 (String c2 "")) (String c p ++ String c1 (String c2 "") ++ tail))
    eqn:Hp; [|reflexivity].
  apply prefix_spec in Hp as [post Hp].
  destruct p as [|c' p]; simpl in Hp.
  - inversion Hp; subst. congruence.
  - inversion Hp; subst.
    assert (includes (String c1 (String c2 p)) (String c1 (String c2 "")) = true) as Hc
      by (apply includes_spec; exists ""%string, p; reflexivity).
    congruence.
Qed.

(** ** The response headers of extract_no_har.js *)

Lemma lacks_app c a b : lacks c (a ++ b) = lacks c a && lacks c b.
Proof.
  induction a as [|x a IH]; [reflexivity|].
  rewrite string_app_cons. cbn [lacks]. rewrite IH, andb_assoc. reflexivity.
Qed.

Lemma string_app_nonempty (a b : string) : b <> ""%string -> (a ++ b)%string <> ""%string.
Proof. destruct a; [intros Hb; exact Hb|discriminate]. Qed.

Lemma assoc_set_fresh k v fields :
  k ∉ map fst fields -> assoc_set k v fields = fields ++ [(k, v)].
Proof.
  induction fields as [|[k' v'] r IH]; intros Hk; simpl; [reflexivity|].
  simpl in Hk. apply not_elem_of_cons in Hk as [Hne Hk].
  destruct (String.eqb_spec k k') as [->|_]; [congruence|].
  rewrite IH by exact Hk. reflexivity.
Qed.

Section Headers.
Import NoHar.

(** One step of the [forEach] over the lines. *)
Let add_line (acc : list (string * jsval)) (line : string) : list (string * jsval) :=
  match split ": " line with
  | [name; value] => assoc_set name (JStr value) acc
  | _ => acc
  end.

Lemma parse_headers_fold headersString :
  headersString <> ""%string ->
  parse_headers headersString = JObj (fold_left add_line (split CRLF headersString) []).
Proof.
  intros Hne. unfold parse_headers.
  destruct (String.eqb_spec headersString "") as [->|_]; [congruence|reflexivity].
Qed.

Lemma plain_header_line nv : plain_header nv = true -> lacks "013" (header_line nv) = true.
Proof.
  unfold plain_header, header_line. intros Hp.
  repeat (apply andb_true_iff in Hp as [Hp ?]).
  rewrite !lacks_app. rewrite H0. rewrite H1. reflexivity.
Qed.

(** The block splits into its lines and an empty last piece. *)
Lemma split_block hs :
  Forall (fun nv => lacks "013" (header_line nv) = true) hs ->
  split CRLF (raw_headers hs) = map header_line hs ++ [""%string].
Proof.
  unfold split. induction 1 as [|nv hs Hnv _ IH]; [reflexivity|].
  cbn [raw_headers fold_right map]. fold (raw_headers hs).
  unfold CRLF in *.
  rewrite split_from_first by (apply no_start_lacks; exact Hnv).
  rewrite IH. reflexivity.
Qed.

(** A plain header line has two pieces: the name and the value. *)
Lemma split_plain_line nv :
  plain_header nv = true -> split ": " (header_line nv) = [nv.1; nv.2].
Proof.
  unfold plain_header, header_line, split. intros Hp.
  repeat (apply andb_true_iff in Hp as [Hp ?]).
  apply negb_true_iff in H.
  rewrite split_from_first by (apply no_start_lacks; exact H2).
  rewrite split_from_free by exact H. reflexivity.
Qed.

Lemma fold_plain_lines hs acc :
  forallb plain_header hs = true ->
  fold_left add_line (map header_line hs) acc
  = fold_left (fun acc nv => assoc_set nv.1 (JStr nv.2) acc) hs acc.
Proof.
  revert acc. induction hs as [|nv hs IH]; intros acc Hp; [reflexivity|].
  cbn [forallb] in Hp. apply andb_true_iff in Hp as [Hnv Hp].
  cbn [map fold_left]. unfold add_line at 2. rewrite split_plain_line by exact Hnv.
  apply IH. exact Hp.
Qed.

Lemma add_empty_line acc : add_line acc "" = acc.
Proof. reflexivity. Qed.

Lemma raw_headers_nonempty nv hs : raw_headers (nv :: hs) <> ""%string.
Proof.
  cbn [raw_headers fold_right]. apply string_app_nonempty. discriminate.
Qed.

Lemma forallb_plain_lines hs :
  forallb plain_header hs = true ->
  Forall (fun nv => lacks "013" (header_line nv) = true) hs.
Proof.
  intros Hp. apply Forall_forall. intros nv Hin.
  apply plain_header_line. rewrite forallb_forall in Hp. apply Hp.
  apply list_elem_of_In. exact Hin.
Qed.

Lemma headers_object_distinct hs acc :
  NoDup (map fst acc ++ map fst hs) ->
  fold_left (fun acc nv => assoc_set nv.1 (JStr nv.2) acc) hs acc
  = acc ++ map (fun nv => (nv.1, JStr nv.2)) hs.
Proof.
  revert acc. induction hs as [|[n v] hs IH]; intros acc Hnd.
  - simpl. rewrite app_nil_r. reflexivity.
  - cbn [fold_left map]. simpl fst in *. simpl snd.
    apply NoDup_app in Hnd as (Ha & Hdis & Hh).
    apply NoDup_cons in Hh as [Hn Hh].
    rewrite assoc_set_fresh.
    + rewrite IH.
      * rewrite <- app_assoc. reflexivity.
      * rewrite map_app. simpl. rewrite <- app_assoc. simpl.
        apply NoDup_app. split; [exact Ha|]. split.
        -- intros k Hk Hk'. apply elem_of_cons in Hk' as [->|Hk'].
           ++ apply (Hdis n Hk). left.
           ++ apply (Hdis k Hk). right. exact Hk'.
        -- apply NoDup_cons. split; assumption.
    + intros Hin. apply (Hdis n Hin). left.
Qed.

(** X1.  The lines of a response-header block become the properties of
    [responseHeaders]: a block of headers whose names are ordinary keys
    without a colon and whose values hold no colon followed by a space is
    read back header by header, a later header of the same name replacing
    the earlier one; when the names differ, [responseHeaders] lists
    exactly the headers of the block, in their order. *)
Theorem parse_headers_reads_block (hs : list (string * string)) :
  forallb plain_header hs = true ->
  parse_headers (raw_headers hs) = headers_object hs
  /\ (NoDup (map fst hs) ->
      parse_headers (raw_headers hs) = JObj (map (fun nv => (nv.1, JStr nv.2)) hs)).
Proof.
  intros Hp.
  assert (Hobj : parse_headers (raw_headers hs) = headers_object hs).
  { destruct hs as [|nv hs]; [reflexivity|].
    rewrite parse_headers_fold by apply raw_headers_nonempty.
    rewrite split_block by (apply forallb_plain_lines; exact Hp).
    rewrite fold_left_app. cbn [fold_left]. rewrite add_empty_line.
    rewrite fold_plain_lines by exact Hp. reflexivity. }
  split; [exact Hobj|]. intros Hnd. rewrite Hobj. unfold headers_object.
  rewrite headers_object_distinct by exact Hnd. reflexivity.
Qed.

(** A header whose value holds a colon followed by a space splits into
    more than two pieces. *)
Lemma split_colon_line n v1 v2 :
  lacks ":" n = true -> includes v1 ": " = false ->
  exists p ps, split ": " (header_line (n, (v1 ++ ": " ++ v2)%string)) = n :: v1 :: p :: ps.
Proof.
  intros Hn Hv. unfold header_line, split. cbn [fst snd].
  rewrite split_from_first by (apply no_start_lacks; exact Hn).
  rewrite split_from_first by (apply no_start_two; [discriminate|exact Hv]).
  destruct (split_from_cons ": " 0 "" v2) as (p & ps & ->). eauto.
Qed.

(** X2.  What the [forEach] leaves out: a header whose value itself holds a
    colon followed by a space has three pieces or more, and no property
    is written for it; the headers around it are kept. *)
Theorem header_value_with_separator_is_dropped
    (before after : list (string * string)) (n v1 v2 : string) :
  forallb plain_header before = true ->
  forallb plain_header after = true ->
  lacks ":" n = true -> lacks "013" n = true ->
  lacks "013" v1 = true -> lacks "013" v2 = true ->
  includes v1 ": " = false ->
  parse_headers (raw_headers (before ++ (n, (v1 ++ ": " ++ v2)%string) :: after))
  = headers_object (before ++ after).
Proof.
  intros Hb Ha Hn Hnr Hv1 Hv2 Hv.
  assert (Hlines : Forall (fun nv => lacks "013" (header_line nv) = true)
                     (before ++ (n, (v1 ++ ": " ++ v2)%string) :: after)).
  { apply Forall_app. split; [apply forallb_plain_lines; exact Hb|].
    apply List.Forall_cons; [|apply forallb_plain_lines; exact Ha].
    unfold header_line. cbn [fst snd]. rewrite !lacks_app, Hnr, Hv1, Hv2. reflexivity. }
  rewrite parse_headers_fold.
  - rewrite split_block by exact Hlines.
    rewrite map_app. cbn [map]. rewrite !fold_left_app. cbn [fold_left].
    rewrite add_empty_line.
    rewrite (fold_plain_lines before) by exact Hb.
    rewrite (fold_plain_lines after) by exact Ha.
    unfold add_line.
    destruct (split_colon_line n v1 v2 Hn Hv) as (p & ps & ->).
    unfold headers_object. rewrite fold_left_app. reflexivity.
  - destruct before; apply raw_headers_nonempty.
Qed.

End Headers.

(** A block of two headers, one of them a date with colons in it. *)
Lemma parse_headers_reads_block_witness :
  NoHar.parse_headers
    (raw_headers [("content-type", "application/json");
                  ("date", "Mon, 01 Jan 2024 00:00:00 GMT")])
  = JObj [("content-type", JStr "application/json");
          ("date", JStr "Mon, 01 Jan 2024 00:00:00 GMT")].
Proof.
  apply (parse_headers_reads_block
           [("content-type", "application/json");
            ("date", "Mon, 01 Jan 2024 00:00:00 GMT")]).
  - reflexivity.
  - apply (bool_decide_unpack _). vm_compute. exact I.
Defined.

(** A [content-security-policy]-like header whose value quotes another
    header is left out of [responseHeaders]. *)
Lemma header_value_with_separator_is_dropped_witness :
  NoHar.parse_headers
    (raw_headers [("content-type", "text/html");
                  ("warning", "199 - see: docs");
                  ("etag", "abc")])
  = JObj [("content-type", JStr "text/html"); ("etag", JStr "abc")].
Proof.
  apply (header_value_with_separator_is_dropped
           [("content-type", "text/html")] [("etag", "abc")]
           "warning" "199 - see" "docs"); reflexivity.
Defined.

(** ** The three filters *)

Lemma in_scope_string_inv (cond : bool) url :
  Ret (negb (String.eqb url "") && cond) = Ret true ->
  String.eqb url "" = false /\ cond = true.
Proof.
  intros Heq. injection Heq as Heq. apply andb_true_iff in Heq as [Hne Hc].
  apply negb_true_iff in Hne. split; assumption.
Qed.

(** X3.  The scopes of the three scripts are nested: a URL argument that
    extract_no_har.js records is recorded by extract_data_simple.js, and
    one that extract_data_simple.js records is recorded by
    extract_with_reload.js while it captures.  Both inclusions are strict:
    a page of mpg.football outside [/api] is in the second scope only, and
    a URL with [mpg] but neither [api.mpg] nor [mpg.football] in the third
    only. *)
Theorem filters_nest :
  (forall u, NoHar.in_scope u = Ret true -> Simple.in_scope u = Ret true)
  /\ (forall u, Simple.in_scope u = Ret true -> Reload.in_scope true u = Ret true)
  /\ (exists u, Simple.in_scope u = Ret true /\ NoHar.in_scope u = Ret false)
  /\ (exists u, Reload.in_scope true u = Ret true /\ Simple.in_scope u = Ret false).
Proof.
  split; [|split; [|split]].
  - intros [url| |href]; simpl; try discriminate.
    intros Hs. apply in_scope_string_inv in Hs as [-> Hm]. simpl. f_equal.
    unfold NoHar.matches in Hm. unfold Simple.matches.
    apply orb_true_iff in Hm as [Hm|Hm]; [rewrite Hm; reflexivity|].
    rewrite (includes_app_l url "mpg.football" "/api" Hm). apply orb_true_r.
  - intros [url| |href]; simpl; try discriminate.
    intros Hs. apply in_scope_string_inv in Hs as [-> Hm]. simpl. f_equal.
    unfold Simple.matches in Hm. unfold Reload.matches.
    apply orb_true_iff in Hm as [Hm|Hm].
    + exact (includes_app_r url "api." "mpg" Hm).
    + exact (includes_app_l url "mpg" ".football" Hm).
  - exists (UStr "https://mpg.football/league"). split; reflexivity.
  - exists (UStr "https://cdn.mpg-assets.net/logo.png"). split; reflexivity.
Qed.

(** ** The replacer of extract_data.js *)

Module JsonReplacerFacts.
Import SafeSerialize JsonReplacer.

Lemma replace_all_cons seen v rest :
  replace_all seen (v :: rest)
  = ((replace_all (jsonReplacer seen v).1 rest).1,
     (jsonReplacer seen v).2 :: (replace_all (jsonReplacer seen v).1 rest).2).
Proof.
  cbn [replace_all]. destruct (jsonReplacer seen v) as [seen1 r]. cbn [fst snd].
  destruct (replace_all seen1 rest) as [seen2 rs]. reflexivity.
Qed.

Lemma jsonReplacer_grows seen v a : a ∈ seen -> a ∈ (jsonReplacer seen v).1.
Proof.
  intros Ha. destruct v; simpl; try exact Ha.
  destruct (bool_decide _); simpl; [exact Ha|set_solver].
Qed.

Lemma jsonReplacer_adds seen a : a ∈ (jsonReplacer seen (VRef a)).1.
Proof.
  simpl. destruct (bool_decide (a ∈ seen)) eqn:Hs; simpl; [|set_solver].
  apply bool_decide_eq_true in Hs. exact Hs.
Qed.

Lemma replace_all_grows values seen a : a ∈ seen -> a ∈ (replace_all seen values).1.
Proof.
  revert seen. induction values as [|v rest IH]; intros seen Ha; [exact Ha|].
  rewrite replace_all_cons. simpl. apply IH, jsonReplacer_grows, Ha.
Qed.

Lemma replace_all_app seen l1 l2 :
  replace_all seen (l1 ++ l2)
  = ((replace_all (replace_all seen l1).1 l2).1,
     (replace_all seen l1).2 ++ (replace_all (replace_all seen l1).1 l2).2).
Proof.
  revert seen. induction l1 as [|v l1 IH]; intros seen.
  - simpl. destruct (replace_all seen l2). reflexivity.
  - rewrite <- app_comm_cons, !replace_all_cons, IH. reflexivity.
Qed.

Lemma replace_all_length seen values :
  length (replace_all seen values).2 = length values.
Proof.
  revert seen. induction values as [|v rest IH]; intros seen; [reflexivity|].
  rewrite replace_all_cons. simpl. rewrite IH. reflexivity.
Qed.

Lemma replace_all_refs_fresh values seen a :
  a ∈ refs (replace_all seen values).2 -> a ∉ seen.
Proof.
  revert seen. induction values as [|v rest IH]; intros seen Ha.
  - simpl in Ha. set_solver.
  - rewrite replace_all_cons in Ha. cbn [snd] in Ha.
    assert (Hrest : a ∈ refs (replace_all (jsonReplacer seen v).1 rest).2 -> a ∉ seen).
    { intros Hin Hs. apply (IH _ Hin). apply jsonReplacer_grows, Hs. }
    destruct v; simpl in Ha; try (apply Hrest; exact Ha).
    destruct (bool_decide (a0 ∈ seen)) eqn:Hs; simpl in Ha.
    + apply Hrest. simpl. rewrite Hs. exact Ha.
    + apply elem_of_cons in Ha as [->|Ha].
      * apply bool_decide_eq_false in Hs. exact Hs.
      * apply Hrest. simpl. rewrite Hs. exact Ha.
Qed.

Lemma replace_all_nodup values seen : NoDup (refs (replace_all seen values).2).
Proof.
  revert seen. induction values as [|v rest IH]; intros seen; [constructor|].
  rewrite replace_all_cons. cbn [snd].
  destruct v; simpl; try apply IH.
  destruct (bool_decide (a ∈ seen)) eqn:Hs; simpl; [apply IH|].
  apply NoDup_cons. split; [|apply IH].
  intros Hin. apply replace_all_refs_fresh in Hin. set_solver.
Qed.

Lemma replace_all_kept values seen :
  forallb kept_by_stringify (replace_all seen values).2 = true.
Proof.
  revert seen. induction values as [|v rest IH]; intros seen; [reflexivity|].
  rewrite replace_all_cons. cbn [snd forallb]. rewrite IH, andb_true_r.
  destruct v; simpl; try reflexivity. destruct (bool_decide _); reflexivity.
Qed.

End JsonReplacerFacts.

(** X4.  Whatever values [JSON.stringify] hands to [jsonReplacer], and in
    whatever order: the replacer answers every call; it never returns
    [undefined], a function or a symbol, so no property is left out of the
    text for that; it returns each object at most once as itself, and only
    objects it had not seen; and the second time an object comes by it
    returns ['[Circular Reference]'], whether or not the object lies on a
    cycle. *)
Theorem replacer_returns_each_object_once
    (seen : gset nat) (values : list SafeSerialize.value) :
  let out := (JsonReplacer.replace_all seen values).2 in
  length out = length values
  /\ forallb kept_by_stringify out = true
  /\ NoDup (refs out)
  /\ (forall a, a ∈ refs out -> a ∉ seen)
  /\ (forall before between after a,
        values = before ++ SafeSerialize.VRef a :: between ++ SafeSerialize.VRef a :: after ->
        out !! (length before + S (length between))
        = Some (SafeSerialize.VString "[Circular Reference]")).
Proof.
  cbn zeta. split; [apply JsonReplacerFacts.replace_all_length|].
  split; [apply JsonReplacerFacts.replace_all_kept|].
  split; [apply JsonReplacerFacts.replace_all_nodup|].
  split; [intros a; apply JsonReplacerFacts.replace_all_refs_fresh|].
  intros before between after a ->.
  rewrite JsonReplacerFacts.replace_all_app. cbn [snd].
  rewrite lookup_app_r by (rewrite JsonReplacerFacts.replace_all_length; lia).
  rewrite JsonReplacerFacts.replace_all_length.
  replace (length before + S (length between) - length before) with (S (length between)) by lia.
  rewrite JsonReplacerFacts.replace_all_cons. cbn [snd]. rewrite lookup_cons_ne_0 by lia.
  cbn [Nat.pred]. rewrite JsonReplacerFacts.replace_all_app. cbn [snd].
  rewrite lookup_app_r by (rewrite JsonReplacerFacts.replace_all_length; lia).
  rewrite JsonReplacerFacts.replace_all_length, Nat.sub_diag.
  rewrite JsonReplacerFacts.replace_all_cons. cbn [snd lookup].
  set (seen' := (JsonReplacer.replace_all _ between).1).
  assert (Hin : a ∈ seen').
  { apply JsonReplacerFacts.replace_all_grows, JsonReplacerFacts.jsonReplacer_adds. }
  simpl. rewrite bool_decide_eq_true_2 by exact Hin. reflexivity.
Qed.

(** ** The scan of the globals in extract_data.js *)

Lemma assoc_set_keys_mono k v fields k' :
  k' ∈ map fst fields -> k' ∈ map fst (assoc_set k v fields).
Proof.
  induction fields as [|[k0 v0] r IH]; simpl; [set_solver|].
  intros Hin. destruct (String.eqb_spec k k0) as [->|Hne]; simpl.
  - exact Hin.
  - apply elem_of_cons in Hin as [->|Hin]; [left|right; apply IH; exact Hin].
Qed.

Lemma assoc_set_key_in k v fields : k ∈ map fst (assoc_set k v fields).
Proof.
  induction fields as [|[k0 v0] r IH]; simpl; [left|].
  destruct (String.eqb_spec k k0) as [->|Hne]; simpl; [left|right; exact IH].
Qed.

Lemma assoc_set_elem k v fields kv :
  kv ∈ assoc_set k v fields -> kv = (k, v) \/ kv ∈ fields.
Proof.
  induction fields as [|[k0 v0] r IH]; simpl.
  - intros Hin. apply list_elem_of_singleton in Hin. left. exact Hin.
  - destruct (String.eqb_spec k k0) as [->|Hne]; intros Hin.
    + apply elem_of_cons in Hin as [->|Hin]; [left; reflexivity|right; right; exact Hin].
    + apply elem_of_cons in Hin as [->|Hin]; [right; left|].
      destruct (IH Hin) as [->|Hr]; [left; reflexivity|right; right; exact Hr].
Qed.

Module GlobalScanFacts.
Import SafeSerialize GlobalScan GlobalScanSpec.

Lemma safeSerialize_default_ok h v :
  exists r, safeSerialize_default h v = Ret r /\ jdepth r <= 4.
Proof.
  destruct (SafeSerializeFacts.safeSerialize_spec h 3 4 0 v) as (r & Hr & Hd); [lia|].
  exists r. split; [exact Hr|exact Hd].
Qed.

Lemma scan_key_ok h window key extracted_data :
  exists after, scan_key h window key extracted_data = Ret after
                /\ step_ok window key extracted_data after.
Proof.
  assert (Hsame : step_ok window key extracted_data extracted_data
                  \/ exists a, get key window = Data (VRef a) /\ includes key "frame" = false).
  { unfold step_ok. destruct (get key window) as [[]|] eqn:Hg;
      try (left; repeat split; [auto|auto|intros a' Ha'; discriminate]).
    destruct (includes key "frame") eqn:Hf.
    - left. repeat split; [auto|auto|intros a' _ Hc; discriminate].
    - right. eauto. }
  unfold scan_key.
  destruct (get key window) as [v|] eqn:Hg; simpl.
  - destruct (truthy_value v && String.eqb (typeof v) "object"
              && negb (includes key "frame")) eqn:Hc.
    + apply andb_true_iff in Hc as [Hc Hf]. apply negb_true_iff in Hf.
      destruct (safeSerialize_default_ok h v) as (r & -> & Hd). simpl.
      eexists. split; [reflexivity|]. repeat split.
      * intros k. apply assoc_set_keys_mono.
      * intros kv Hin. apply assoc_set_elem in Hin as [->|Hin]; [right|left; exact Hin].
        repeat split; assumption.
      * intros _ _ _. apply assoc_set_key_in.
    + exists extracted_data. split; [reflexivity|].
      destruct Hsame as [Hs|(a & Ha & Hf)]; [exact Hs|].
      injection Ha as ->. simpl in Hc. rewrite Hf in Hc. discriminate.
  - exists extracted_data. split; [reflexivity|].
    destruct Hsame as [Hs|(a & Ha & Hf)]; [exact Hs|discriminate].
Qed.

Lemma for_each_ok h window ks extracted_data :
  exists after,
    for_each (scan_key h window) ks extracted_data = Ret after
    /\ (forall k, k ∈ map fst extracted_data -> k ∈ map fst after)
    /\ (forall kv, kv ∈ after ->
          kv ∈ extracted_data
          \/ (jdepth kv.2 <= 4
              /\ exists key, kv.1 = ("window_" ++ key)%string /\ key ∈ ks
                             /\ includes key "frame" = false))
    /\ (forall key a, key ∈ ks -> get key window = Data (VRef a) ->
          includes key "frame" = false ->
          ("window_" ++ key)%string ∈ map fst after).
Proof.
  revert extracted_data. induction ks as [|key ks IH]; intros extracted_data.
  - exists extracted_data. split; [reflexivity|].
    split; [auto|]. split; [auto|]. intros key a Hin. set_solver.
  - cbn [for_each].
    destruct (scan_key_ok h window key extracted_data) as (mid & -> & Hm & Ho & Hp).
    simpl. destruct (IH mid) as (after & -> & Hm' & Ho' & Hp').
    exists after. split; [reflexivity|]. split; [auto|]. split.
    + intros kv Hin. destruct (Ho' kv Hin) as [Hmid|(Hd & key' & Hk & Hin' & Hf)].
      * destruct (Ho kv Hmid) as [Hb|(Hk & Hd & Hf)]; [left; exact Hb|].
        right. split; [exact Hd|]. exists key. split; [exact Hk|].
        split; [left|exact Hf].
      * right. split; [exact Hd|]. exists key'. split; [exact Hk|].
        split; [right; exact Hin'|exact Hf].
    + intros key' a Hin Hg Hf. apply elem_of_cons in Hin as [->|Hin].
      * apply Hm'. apply (Hp a Hg Hf).
      * apply (Hp' key' a Hin Hg Hf).
Qed.

End GlobalScanFacts.


(** ** The fetch records of extract_data.js *)


(** ** What the safe serializer keeps *)

Module SafeSerializeMore.
Import SafeSerialize SafeSerializeSpec.

Lemma assoc_set_Forall_pair (Q : string * jsval -> Prop) k v fields :
  Q (k, v) -> Forall Q fields -> Forall Q (assoc_set k v fields).
Proof.
  intros Hv HF. induction HF as [|[k' v'] r Hx Hr IH]; simpl.
  - repeat constructor. exact Hv.
  - destruct (String.eqb k k'); constructor; auto.
Qed.

Section Shape.
Variable P : jsval -> Prop.
Hypothesis P_leaf :
  forall v, match v with JArr _ | JObj _ => True | _ => P v end.

Variable f : value -> exc jsval.
Hypothesis f_ok : forall item, exists v, f item = Ret v /\ P v.

Lemma array_map_shape elems :
  (exists items, array_map f elems = Ret items /\ Forall P items)
  \/ (exists m, array_map f elems = Throw m).
Proof.
  induction elems as [|p r IH]; simpl.
  - left. exists []. split; [reflexivity|constructor].
  - destruct p as [item|]; simpl; [|right; eauto].
    destruct (f_ok item) as (v & -> & Hv). simpl.
    destruct IH as [(items & -> & HF)|(m & ->)]; simpl.
    + left. exists (v :: items). split; [reflexivity|constructor; assumption].
    + right. eauto.
Qed.

(** The loop returns, with the keys it had and the keys of the object
    that are not skipped. *)
Lemma for_in_shape props result :
  Forall (fun kv => skipped kv.1 = false /\ P kv.2) result ->
  exists result',
    for_in (loop_body f) props result = Ret result'
    /\ Forall (fun kv => skipped kv.1 = false /\ P kv.2) result'
    /\ (forall k, k ∈ map fst result' <->
                  k ∈ map fst result \/ (k ∈ map fst props /\ skipped k = false)).
Proof.
  revert result. induction props as [|[key p] r IH]; intros result HF; cbn [for_in].
  - exists result. split; [reflexivity|]. split; [exact HF|].
    intros k. simpl. split; [auto|]. intros [Hk|[Hk _]]; [exact Hk|set_solver].
  - assert (Hbody : exists result1,
               loop_body f key p result = Ret result1
               /\ Forall (fun kv => skipped kv.1 = false /\ P kv.2) result1
               /\ (forall k, k ∈ map fst result1 <->
                             k ∈ map fst result \/ (k = key /\ skipped k = false))).
    { unfold loop_body. destruct (skipped key) eqn:Hs; simpl.
      - exists result. split; [reflexivity|]. split; [exact HF|].
        intros k. split; [auto|]. intros [Hk|[-> Hk]]; [exact Hk|congruence].
      - assert (Hset : forall v, P v -> exists result1,
                   Ret (assoc_set key v result) = Ret result1
                   /\ Forall (fun kv => skipped kv.1 = false /\ P kv.2) result1
                   /\ (forall k, k ∈ map fst result1 <->
                                 k ∈ map fst result \/ (k = key /\ skipped k = false))).
        { intros v Hv. eexists. split; [reflexivity|]. split.
          - apply assoc_set_Forall_pair; [split; assumption|exact HF].
          - intros k. split.
            + intros Hin. destruct (String.eqb_spec k key) as [->|Hne]; [right; auto|].
              left. clear -Hin Hne. induction result as [|[k0 v0] r0 IHr]; simpl in *.
              * apply list_elem_of_singleton in Hin. congruence.
              * destruct (String.eqb_spec key k0) as [->|Hne'].
                -- simpl in Hin. apply elem_of_cons in Hin as [->|Hin]; [congruence|].
                   right. exact Hin.
                -- simpl in Hin. apply elem_of_cons in Hin as [->|Hin]; [left|].
                   right. apply IHr. exact Hin.
            + intros [Hin|[-> _]]; [apply assoc_set_keys_mono; exact Hin|].
              apply assoc_set_key_in. }
        destruct p as [item|]; simpl.
        + destruct (f_ok item) as (v & -> & Hv). simpl. apply Hset. exact Hv.
        + apply Hset. exact (P_leaf (JStr "[Access Denied]")). }
    destruct Hbody as (result1 & -> & HF1 & Hk1). simpl.
    destruct (IH result1 HF1) as (result' & -> & HF' & Hk').
    exists result'. split; [reflexivity|]. split; [exact HF'|].
    intros k. rewrite Hk', Hk1. simpl. rewrite elem_of_cons.
    split.
    + intros [[Hk|[-> Hs]]|[Hk Hs]]; auto.
    + intros [Hk|[[->|Hk] Hs]]; auto.
Qed.

End Shape.

Section Serializer.
Variable h : heap.
Variable maxDepth : nat.
Variable P : jsval -> Prop.
Hypothesis P_leaf :
  forall v, match v with JArr _ | JObj _ => True | _ => P v end.
Hypothesis P_arr : forall items, Forall P items -> P (JArr items).
Hypothesis P_obj :
  forall fields, Forall (fun kv => skipped kv.1 = false /\ P kv.2) fields -> P (JObj fields).

(** [safeSerialize] returns a value that satisfies [P], and an object is
    serialized with its keys that are not skipped. *)
Lemma safeSerialize_shape k :
  forall currentDepth obj,
    S maxDepth - currentDepth <= k ->
    exists v, safeSerialize h obj maxDepth currentDepth = Ret v /\ P v
              /\ (forall a props,
                    obj = VRef a -> h a = HObject props -> currentDepth <= maxDepth ->
                    exists fields,
                      v = JObj fields
                      /\ forall key, key ∈ map fst fields <->
                                     (key ∈ map fst props /\ skipped key = false)).
Proof.
  induction k as [|k IH]; intros c obj Hk; simp safeSerialize;
    destruct (lt_dec maxDepth c) as [Hlt|Hle]; simp safeSerialize;
    try lia.
  - eexists. split; [reflexivity|]. split; [exact (P_leaf (JStr _))|]. intros; lia.
  - eexists. split; [reflexivity|]. split; [exact (P_leaf (JStr _))|]. intros; lia.
  - assert (Hrec : forall item, exists v,
               safeSerialize h item maxDepth (c + 1) = Ret v /\ P v).
    { intros item. destruct (IH (c + 1) item) as (v & Hv & Hd & _); [lia|]. eauto. }
    destruct obj;
      try (eexists; split; [reflexivity|];
           split; [first [exact (P_leaf JNull)|exact (P_leaf JUndefined)
                         |exact (P_leaf (JStr _))|exact (P_leaf (JNum _))
                         |exact (P_leaf (JBool _))]|];
           intros; discriminate).
    destruct (h a) as [elems|props|] eqn:Hh.
    + destruct (array_map_shape P _ Hrec elems) as [(items & -> & HF)|(m & ->)]; simpl.
      * eexists. split; [reflexivity|]. split; [apply P_arr; exact HF|].
        intros a' props' Ha Hp. injection Ha as <-. congruence.
      * eexists. split; [reflexivity|]. split; [exact (P_leaf (JStr _))|].
        intros a' props' Ha Hp. injection Ha as <-. congruence.
    + destruct (for_in_shape P P_leaf _ Hrec props []) as (result & Hr & HF & Hkeys);
        [constructor|].
      unfold loop_body in Hr. rewrite Hr. simpl.
      eexists. split; [reflexivity|]. split; [apply P_obj; exact HF|].
      intros a' props' Ha Hp _. injection Ha as <-. rewrite Hh in Hp. injection Hp as <-.
      exists result. split; [reflexivity|].
      intros key. rewrite Hkeys. simpl.
      split; [intros [Hin|Hin]; [set_solver|exact Hin]|auto].
    + simpl. eexists. split; [reflexivity|]. split; [exact (P_leaf (JStr _))|].
      intros a' props' Ha Hp. injection Ha as <-. congruence.
Qed.

End Serializer.

Lemma no_skipped_arr items : Forall (fun v => no_skipped v = true) items -> no_skipped (JArr items) = true.
Proof.
  intros HF. simpl. apply forallb_forall. intros x Hin.
  rewrite Forall_forall in HF. apply HF. apply list_elem_of_In. exact Hin.
Qed.

Lemma no_skipped_obj fields :
  Forall (fun kv => skipped kv.1 = false /\ no_skipped kv.2 = true) fields ->
  no_skipped (JObj fields) = true.
Proof.
  intros HF. simpl. apply forallb_forall. intros x Hin.
  rewrite Forall_forall in HF. destruct (HF x) as [Hs Hn]; [apply list_elem_of_In; exact Hin|].
  rewrite Hs, Hn. reflexivity.
Qed.

End SafeSerializeMore.


(** ** Plain data passes through the safe serializer *)

Module SafeSerializeFaithful.
Import SafeSerialize SafeSerializeSpec.

Lemma jdepth_in_arr j items : In j items -> jdepth j < jdepth (JArr items).
Proof.
  simpl. induction items as [|x r IH]; simpl; [tauto|].
  intros [->|Hin]; [lia|]. specialize (IH Hin). lia.
Qed.

Lemma jdepth_in_obj kv fields : In kv fields -> jdepth (snd kv) < jdepth (JObj fields).
Proof.
  simpl. induction fields as [|x r IH]; simpl; [tauto|].
  intros [->|Hin]; [lia|]. specialize (IH Hin). lia.
Qed.

Section Callbacks.
Variable h : heap.
Variable f : value -> exc jsval.

Lemma array_map_all2 items elems :
  all2 (fun j' p => match p with Data v' => holds h j' v' | Denied => false end)
       items elems = true ->
  (forall j' v', In j' items -> holds h j' v' = true -> f v' = Ret j') ->
  array_map f elems = Ret items.
Proof.
  revert elems. induction items as [|j items IH]; intros [|p elems] Hall Hf;
    simpl in Hall; try discriminate; [reflexivity|].
  apply andb_true_iff in Hall as [Hj Hall]. destruct p as [v|]; [|discriminate].
  simpl. rewrite (Hf j v (or_introl eq_refl) Hj). simpl.
  rewrite (IH elems Hall); [reflexivity|].
  intros j' v' Hin. apply Hf. right. exact Hin.
Qed.

Lemma for_in_all2 fields props result :
  all2 (fun kj kp =>
          String.eqb (fst kj) (fst kp)
          && match snd kp with Data v' => holds h (snd kj) v' | Denied => false end)
       fields props = true ->
  (forall kv v', In kv fields -> holds h (snd kv) v' = true -> f v' = Ret (snd kv)) ->
  forallb (fun kv => negb (skipped (fst kv))) fields = true ->
  NoDup (map fst result ++ map fst fields) ->
  for_in
    (fun key p result =>
       try_catch
         (if skipped key then Ret result
          else value ← read p; r ← f value; Ret (assoc_set key r result))
         (fun _ => Ret (assoc_set key (JStr "[Access Denied]") result)))
    props result
  = Ret (result ++ fields).
Proof.
  revert props result.
  induction fields as [|[k j] fields IH]; intros [|[k' p] props] result Hall Hf Hs Hnd;
    simpl in Hall; try discriminate.
  - simpl. rewrite app_nil_r. reflexivity.
  - apply andb_true_iff in Hall as [Hkj Hall]. apply andb_true_iff in Hkj as [Hk Hj].
    apply String.eqb_eq in Hk as <-. destruct p as [v|]; [|discriminate].
    cbn [forallb fst] in Hs. apply andb_true_iff in Hs as [Hsk Hs].
    apply negb_true_iff in Hsk.
    cbn [for_in]. rewrite Hsk. simpl.
    rewrite (Hf (k, j) v (or_introl eq_refl) Hj). simpl.
    simpl in Hnd.
    rewrite assoc_set_fresh.
    + rewrite IH with (props := props); try assumption.
      * rewrite <- app_assoc. reflexivity.
      * intros kv v' Hin. apply Hf. right. exact Hin.
      * rewrite map_app. simpl. rewrite <- app_assoc. exact Hnd.
    + apply NoDup_app in Hnd as (_ & Hdis & _). intros Hin.
      apply (Hdis k Hin). left.
Qed.

End Callbacks.

Lemma plain_obj_inv fields :
  plain (JObj fields) = true ->
  forallb (fun kv => negb (skipped (fst kv))) fields = true
  /\ (forall kv, In kv fields -> plain (snd kv) = true)
  /\ NoDup (map fst fields).
Proof.
  simpl. intros Hp. apply andb_true_iff in Hp as [Hall Hnd].
  apply bool_decide_eq_true in Hnd. rewrite forallb_forall in Hall.
  split; [|split; [|exact Hnd]].
  - apply forallb_forall. intros kv Hin.
    specialize (Hall kv Hin). apply andb_true_iff in Hall as [Hs _].
    apply andb_true_iff in Hs as [_ Hs]. exact Hs.
  - intros kv Hin. specialize (Hall kv Hin).
    apply andb_true_iff in Hall as [_ Hp]. exact Hp.
Qed.

Lemma safeSerialize_holds h maxDepth n :
  forall j v c,
    jdepth j < n -> holds h j v = true -> plain j = true ->
    c + jdepth j <= maxDepth ->
    safeSerialize h v maxDepth c = Ret j.
Proof.
  induction n as [|n IH]; intros j v c Hn Hh Hp Hd; [lia|].
  simp safeSerialize. destruct (lt_dec maxDepth c) as [Hlt|Hle]; [lia|].
  simp safeSerialize.
  destruct j; destruct v; cbn [holds] in Hh; try discriminate.
  - reflexivity.
  - reflexivity.
  - apply Bool.eqb_prop in Hh as ->. reflexivity.
  - apply Z.eqb_eq in Hh as ->. reflexivity.
  - apply String.eqb_eq in Hh as ->. reflexivity.
  - destruct (h a) as [elems| |] eqn:Hha; try discriminate.
    rewrite (array_map_all2 h _ items elems Hh); [reflexivity|].
    intros j' v' Hin Hj. apply IH.
    + pose proof (jdepth_in_arr j' items Hin). lia.
    + exact Hj.
    + simpl in Hp. rewrite forallb_forall in Hp. apply Hp. exact Hin.
    + pose proof (jdepth_in_arr j' items Hin). lia.
  - destruct (h a) as [|props|] eqn:Hha; try discriminate.
    destruct (plain_obj_inv fields Hp) as (Hs & Hpl & Hnd).
    rewrite (for_in_all2 h _ fields props [] Hh); [reflexivity| |exact Hs|exact Hnd].
    intros kv v' Hin Hj. apply IH.
    + pose proof (jdepth_in_obj kv fields Hin). lia.
    + exact Hj.
    + apply Hpl. exact Hin.
    + pose proof (jdepth_in_obj kv fields Hin). lia.
Qed.

End SafeSerializeFaithful.

(** X8.  [safeSerialize] is the identity on plain data within the depth bound:
    a value whose elements and properties are all readable data, with
    ordinary keys of which none is skipped, that fits in the levels left ([currentDepth] plus its
    nesting depth at most [maxDepth]) is returned as it is, with its keys
    in their order; this is so with the default bound for data nested at
    most three levels deep. *)
Theorem safeSerialize_returns_plain_data
    (h : SafeSerialize.heap) (j : jsval) (v : SafeSerialize.value)
    (maxDepth currentDepth : nat) :
  SafeSerializeSpec.holds h j v = true ->
  SafeSerializeSpec.plain j = true ->
  currentDepth + jdepth j <= maxDepth ->
  SafeSerialize.safeSerialize h v maxDepth currentDepth = Ret j.
Proof.
  intros Hh Hp Hd.
  apply (SafeSerializeFaithful.safeSerialize_holds h maxDepth (S (jdepth j)));
    [lia|assumption..].
Qed.

(** A record with a list in it, serialized with the default bound. *)
Lemma safeSerialize_returns_plain_data_witness :
  SafeSerialize.safeSerialize_default SafeSerializeSpec.sample_heap (SafeSerialize.VRef 0)
  = Ret (JObj [("name", JStr "Mbappe"); ("tags", JArr [JNum 7; JNull])]).
Proof.
  apply (safeSerialize_returns_plain_data SafeSerializeSpec.sample_heap
           (JObj [("name", JStr "Mbappe"); ("tags", JArr [JNum 7; JNull])])
           (SafeSerialize.VRef 0) 3 0).
  - reflexivity.
  - vm_compute. reflexivity.
  - simpl. lia.
Defined.

(** ** The buffers only grow *)

Lemma fold_left_prefix {S L : Type} (proj : S -> list nat) (f : S -> L -> S) ls s :
  (forall s0 l, proj s0 `prefix_of` proj (f s0 l)) ->
  proj s `prefix_of` proj (fold_left f ls s).
Proof.
  intros Hf. revert s. induction ls as [|l ls IH]; intros s; simpl; [reflexivity|].
  etransitivity; [apply Hf|apply IH].
Qed.

Module Growth.

Section Facts.
Context `{JSONApi}.

Lemma NoHar_step_grows s e :
  NoHar.requests s `prefix_of` NoHar.requests (NoHar.step s e).
Proof.
  destruct e as [x m u now|x b iso|x c now|u o now iso|k r now iso|iso href ok]; simpl.
  - destruct (NoHar.XHR_open s); reflexivity.
  - destruct (NoHar.XHR_send s); [|reflexivity].
    unfold NoHar.send_wrapper. destruct (NoHar.slots (NoHar.xhr_at s x)) as [sl|];
      [destruct (NoHar.in_scope (NoHar._captureUrl sl)) as [[]|]|]; reflexivity.
  - unfold NoHar.fire. apply (fold_left_prefix NoHar.requests).
    intros s0 [[[] id] t]; destruct c; cbn [NoHar.run_listener]; try reflexivity.
    + destruct (NoHarLife.on_load_frame id t st stText responseText headers now s0)
        as (_ & _ & -> & _).
      apply prefix_app_r. reflexivity.
    + destruct (NoHarLife.on_error_frame id s0) as (_ & _ & -> & _).
      apply prefix_app_r. reflexivity.
  - destruct (NoHar.window_fetch s); [|reflexivity].
    unfold NoHar.fetch_wrapper. destruct (NoHar.in_scope u) as [[]|]; reflexivity.
  - destruct (NoHar.pending s !! k) as [[|reqId t0]|]; try reflexivity.
    destruct (NoHarLife.fetch_resume_frame k reqId t0 r now
                (NoHar.with_pending (delete k (NoHar.pending s)) s)) as (_ & _ & -> & _).
    apply prefix_app_r. reflexivity.
  - destruct ok; reflexivity.
Qed.

Lemma NoHar_run_grows tr s :
  NoHar.requests s `prefix_of` NoHar.requests (NoHar.run tr s).
Proof. apply (fold_left_prefix NoHar.requests). apply NoHar_step_grows. Qed.

Lemma Simple_on_load_requests ref st responseText s :
  Simple.capturedRequests (Simple.on_load ref st responseText s)
  = Simple.capturedRequests s ++ [ref].
Proof. unfold Simple.on_load. destruct (JSON_parse responseText); reflexivity. Qed.

Lemma Simple_step_grows s e :
  Simple.capturedRequests s `prefix_of` Simple.capturedRequests (Simple.step s e).
Proof.
  destruct e as [x m u now|x b iso|x c now|u o now iso|k r now iso|iso href ok]; simpl.
  - destruct (Simple.XHR_open s); reflexivity.
  - destruct (Simple.XHR_send s); [|reflexivity].
    unfold Simple.send_wrapper. destruct (Simple.slots (Simple.xhr_at s x)) as [sl|];
      [destruct (Simple.in_scope (Simple._mpg_url sl)) as [[]|]|]; reflexivity.
  - unfold Simple.fire. apply (fold_left_prefix Simple.capturedRequests).
    intros s0 ref; destruct c; cbn [Simple.run_listener]; try reflexivity.
    rewrite Simple_on_load_requests. apply prefix_app_r. reflexivity.
  - destruct (Simple.window_fetch s); reflexivity.
  - destruct (Simple.pending s !! k) as [[|u o]|]; try reflexivity.
    unfold Simple.fetch_resume. destruct r as [response|msg]; [|reflexivity].
    destruct (Simple.in_scope u) as [[]|]; try reflexivity.
    simpl. apply prefix_app_r. reflexivity.
  - destruct (Simple.finished s); [reflexivity|]. destruct ok; reflexivity.
Qed.

Lemma Simple_run_grows tr s :
  Simple.capturedRequests s `prefix_of` Simple.capturedRequests (Simple.run tr s).
Proof. apply (fold_left_prefix Simple.capturedRequests). apply Simple_step_grows. Qed.

Lemma Reload_on_load_requests ref st responseText s :
  Reload.capturedRequests (Reload.on_load ref st responseText s)
  = Reload.capturedRequests s ++ [ref].
Proof. unfold Reload.on_load. destruct (JSON_parse responseText); reflexivity. Qed.

Lemma Reload_step_grows s e :
  Reload.capturedRequests s `prefix_of` Reload.capturedRequests (Reload.step s e).
Proof.
  destruct e as [x m u now|x b iso|x c now|u o now iso|k r now iso|iso href ok]; simpl.
  - destruct (Reload.XHR_open s); reflexivity.
  - destruct (Reload.XHR_send s); [|reflexivity].
    unfold Reload.send_wrapper. destruct (Simple.slots (Reload.xhr_at s x)) as [sl|];
      [destruct (Reload.in_scope (Reload.isCapturing s) (Simple._mpg_url sl)) as [[]|]|];
      reflexivity.
  - unfold Reload.fire. apply (fold_left_prefix Reload.capturedRequests).
    intros s0 ref; destruct c; cbn [Reload.run_listener]; try reflexivity.
    rewrite Reload_on_load_requests. apply prefix_app_r. reflexivity.
  - destruct (Reload.window_fetch s); reflexivity.
  - destruct (Reload.pending s !! k) as [[|u o]|]; try reflexivity.
    unfold Reload.fetch_resume. destruct r as [response|msg]; [|reflexivity].
    destruct (Reload.in_scope _ u) as [[]|]; try reflexivity.
    simpl. apply prefix_app_r. reflexivity.
  - destruct (Reload.isCapturing s); [|reflexivity]. destruct ok; reflexivity.
Qed.

Lemma Reload_run_grows tr s :
  Reload.capturedRequests s `prefix_of` Reload.capturedRequests (Reload.run tr s).
Proof. apply (fold_left_prefix Reload.capturedRequests). apply Reload_step_grows. Qed.

End Facts.
End Growth.


(** ** The shape of the records of extract_no_har.js *)

Lemma keys_set_prop k v fields :
  map fst (assoc_set k v fields)
  = if bool_decide (k ∈ map fst fields) then map fst fields else map fst fields ++ [k].
Proof.
  induction fields as [|[k0 v0] r IH]; simpl; [reflexivity|].
  destruct (String.eqb_spec k k0) as [->|Hne]; simpl.
  - rewrite bool_decide_eq_true_2 by left. reflexivity.
  - rewrite IH. destruct (bool_decide (k ∈ map fst r)) eqn:Hr.
    + apply bool_decide_eq_true in Hr.
      rewrite bool_decide_eq_true_2 by (right; exact Hr). reflexivity.
    + apply bool_decide_eq_false in Hr.
      rewrite bool_decide_eq_false_2; [reflexivity|].
      intros Hin. apply elem_of_cons in Hin as [Heq|Hin]; [congruence|contradiction].
Qed.

Lemma has_prop_set_prop_mono k v k' obj :
  has_prop k' obj = true -> has_prop k' (set_prop k v obj) = true.
Proof.
  intros Hh. destruct obj; try discriminate.
  destruct (String.eqb_spec k k') as [->|Hne].
  - apply has_prop_set_prop_eq. reflexivity.
  - rewrite has_prop_set_prop_ne by assumption. exact Hh.
Qed.

(** The text read that follows a failed JSON read of the same clone
    throws: the body has been consumed. *)
Lemma text_after_json `{JSONApi} response clone0 :
  clone response = Ret clone0 -> exists msg, (text (json clone0).1).2 = Throw msg.
Proof.
  unfold clone, json, text, consume. destruct (bodyUsed response) eqn:Hu; [discriminate|].
  intros [= <-]. rewrite Hu. simpl. eauto.
Qed.

Module NoHarShapeFacts.
Import NoHar NoHarSpec NoHarInv NoHarLife NoHarShape.

Lemma kind_assign s id k v id' :
  k <> "type"%string -> kind (assign id k v s) id' = kind s id'.
Proof.
  intros Hk. unfold kind. rewrite deref_assign.
  destruct (decide (id = id')); [|reflexivity].
  apply get_field_set_prop_ne. exact Hk.
Qed.

Lemma record_ok_set_prop id rd k v :
  In k (extra_keys (get_field "type" rd)) -> ~ In k base_keys ->
  record_ok id rd -> record_ok id (set_prop k v rd).
Proof.
  intros Hk Hb (Hid & Hbase & Hty & Hkeys).
  assert (Hne : forall b, In b base_keys -> k <> b) by (intros b Hin ->; contradiction).
  assert (Htype : get_field "type" (set_prop k v rd) = get_field "type" rd).
  { apply get_field_set_prop_ne. apply Hne. simpl. tauto. }
  assert (Hkeys' : keys (set_prop k v rd) = keys rd \/ keys (set_prop k v rd) = keys rd ++ [k]).
  { destruct rd; try (left; reflexivity). cbn [set_prop keys]. rewrite keys_set_prop.
    destruct (bool_decide _); [left|right]; reflexivity. }
  split; [|split; [|split]].
  - rewrite get_field_set_prop_ne; [exact Hid|]. apply Hne. simpl. tauto.
  - destruct Hkeys' as [->| ->]; [exact Hbase|].
    rewrite take_app_le; [exact Hbase|].
    assert (Hlen : length (take 6 (keys rd)) = 6) by (rewrite Hbase; reflexivity).
    rewrite length_take in Hlen. lia.
  - rewrite Htype. exact Hty.
  - rewrite Htype. destruct Hkeys' as [->| ->]; [exact Hkeys|].
    apply Forall_app. split; [exact Hkeys|].
    apply List.Forall_cons; [|apply List.Forall_nil].
    apply in_or_app. right. exact Hk.
Qed.

Lemma settled_set_prop k v rd : settled rd -> settled (set_prop k v rd).
Proof. intros [Hs|He]; [left|right]; apply has_prop_set_prop_mono; assumption. Qed.

(** An assignment of a key the type allows keeps the shape. *)
Lemma shape_ok_assign s id k v :
  In k (extra_keys (kind s id)) -> ~ In k base_keys ->
  shape_ok s -> shape_ok (assign id k v s).
Proof.
  intros Hk Hb [H1 H2 H3 H4].
  assert (Hty : k <> "type"%string) by (intros ->; apply Hb; simpl; tauto).
  split.
  - intros id' Hl. apply live_assign in Hl. destruct (H1 id' Hl) as [Hpos Hok].
    split; [exact Hpos|]. rewrite deref_assign.
    destruct (decide (id = id')) as [<-|]; [|exact Hok].
    apply record_ok_set_prop; assumption.
  - intros x k0 id' t Hin. rewrite kind_assign by exact Hty. apply (H2 x k0 id' t Hin).
  - intros k0 id' t Hp. rewrite kind_assign by exact Hty. apply (H3 k0 id' t Hp).
  - intros id' Hin. rewrite deref_assign.
    destruct (decide (id = id')); [apply settled_set_prop|]; apply H4; exact Hin.
Qed.

Lemma shape_ok_push s id : settled (deref s id) -> shape_ok s -> shape_ok (push id s).
Proof.
  intros Hs [H1 H2 H3 H4]. split; try assumption.
  intros id' Hin. simpl in Hin. apply elem_of_app in Hin as [Hin|Hin].
  - apply H4. exact Hin.
  - apply list_elem_of_singleton in Hin. subst id'. exact Hs.
Qed.

Lemma shape_ok_emit s e : shape_ok s -> shape_ok (emit e s).
Proof. intros [H1 H2 H3 H4]. split; assumption. Qed.

Lemma shape_ok_with_calls s n : shape_ok s -> shape_ok (with_calls n s).
Proof. intros [H1 H2 H3 H4]. split; assumption. Qed.

Lemma shape_ok_with_pending s p :
  (forall k id t, p !! k = Some (Capturing id t) -> kind s id = JStr "fetch") ->
  shape_ok s -> shape_ok (with_pending p s).
Proof. intros Hp [H1 H2 H3 H4]. split; assumption. Qed.

Lemma shape_ok_with_xhrs s m :
  (forall x k id t, (k, id, t) ∈ listeners (m !!! x) -> kind s id = JStr "xhr") ->
  shape_ok s -> shape_ok (with_xhrs m s).
Proof. intros Hm [H1 H2 H3 H4]. split; assumption. Qed.

Lemma has_status_assign s id k v :
  live s id -> has_prop k (deref (assign id k v s) id) = true.
Proof.
  intros Hl. rewrite deref_assign_eq. apply has_prop_set_prop_eq. exact Hl.
Qed.

Lemma has_prop_assign_mono s id k v k' id' :
  has_prop k' (deref s id') = true -> has_prop k' (deref (assign id k v s) id') = true.
Proof.
  intros Hh. rewrite deref_assign. destruct (decide (id = id')); [|exact Hh].
  apply has_prop_set_prop_mono. exact Hh.
Qed.

(** The record a wrapper creates. *)
Lemma new_requestData_ok reqId u m iso ty b :
  ty = "xhr"%string \/ ty = "fetch"%string ->
  record_ok reqId (new_requestData reqId u m iso ty b).
Proof.
  intros [->| ->]; repeat split; try reflexivity; try (left; reflexivity);
    try (right; reflexivity);
    simpl; repeat (apply List.Forall_cons; [simpl; tauto|]); apply List.Forall_nil.
Qed.

Lemma deref_alloc_old s s' rd id :
  heap_ok s -> live s id ->
  deref (with_objects (<[S (requestCounter s) := rd]> (objects s)) s') id = deref s id.
Proof.
  intros Hs Hl. unfold deref. simpl. rewrite lookup_insert_ne; [reflexivity|].
  pose proof (live_bound s Hs id Hl). lia.
Qed.

Lemma deref_alloc_new s s' rd :
  deref (with_objects (<[S (requestCounter s) := rd]> (objects s)) s') (S (requestCounter s))
  = rd.
Proof. unfold deref. simpl. rewrite lookup_insert_eq. reflexivity. Qed.

Lemma live_alloc_inv s s' rd id :
  live (with_objects (<[S (requestCounter s) := rd]> (objects s)) s') id ->
  id = S (requestCounter s) \/ live s id.
Proof.
  unfold live, deref. simpl. rewrite lookup_insert.
  destruct (decide (S (requestCounter s) = id)); [left; congruence|right; assumption].
Qed.

(** Creating the next record keeps the shape of the others. *)
Lemma shape_ok_alloc s u m iso ty b :
  ty = "xhr"%string \/ ty = "fetch"%string ->
  heap_ok s -> shape_ok s ->
  shape_ok (with_objects
              (<[S (requestCounter s) := new_requestData (S (requestCounter s)) u m iso ty b]>
                 (objects s))
              (with_requestCounter (S (requestCounter s)) s)).
Proof.
  intros Hty Hs [H1 H2 H3 H4]. split.
  - intros id Hl. apply live_alloc_inv in Hl as [->|Hl].
    + rewrite deref_alloc_new. split; [lia|]. apply new_requestData_ok. exact Hty.
    + rewrite deref_alloc_old by assumption. apply H1. exact Hl.
  - intros x k id t Hin. unfold kind.
    rewrite deref_alloc_old; [apply (H2 x k id t Hin)|exact Hs|].
    apply (listeners_live s Hs x k id t Hin).
  - intros k id t Hp. unfold kind.
    rewrite deref_alloc_old; [apply (H3 k id t Hp)|exact Hs|].
    apply (pending_live s Hs k id t Hp).
  - intros id Hin. rewrite deref_alloc_old; [apply H4; exact Hin|exact Hs|].
    apply (requests_live s Hs id Hin).
Qed.

Lemma shape_ok_init started : shape_ok (init started).
Proof.
  split.
  - intros id Hl. unfold live, deref in Hl. simpl in Hl.
    rewrite lookup_empty in Hl. discriminate.
  - intros x k id t Hin. unfold xhr_at in Hin. simpl in Hin.
    rewrite lookup_total_empty in Hin. simpl in Hin.
    apply elem_of_nil in Hin. contradiction.
  - intros k id t Hp. simpl in Hp. rewrite lookup_empty in Hp. discriminate.
  - intros id Hin. simpl in Hin. apply elem_of_nil in Hin. contradiction.
Qed.

(** The steps of a closure on its record: assignments of allowed keys. *)
Ltac assign_allowed Hkind :=
  repeat (apply shape_ok_assign;
          [rewrite ?kind_assign by discriminate; rewrite Hkind; simpl; tauto
          |simpl; intros Hin;
           repeat (destruct Hin as [Hin|Hin]; [discriminate|]); exact Hin
          |]).

Section Facts.
Context `{JSONApi}.

Lemma shape_ok_on_load reqId t0 st stText responseText headers now s :
  live s reqId -> kind s reqId = JStr "xhr" -> shape_ok s ->
  shape_ok (on_load reqId t0 st stText responseText headers now s).
Proof.
  intros Hl Hk Hs. unfold on_load. apply shape_ok_push.
  - left. destruct (JSON_parse responseText);
      repeat first [apply has_status_assign; repeat (apply live_assign); exact Hl
                   |apply has_prop_assign_mono].
  - destruct (JSON_parse responseText); assign_allowed Hk; exact Hs.
Qed.

Lemma shape_ok_on_error reqId s :
  live s reqId -> kind s reqId = JStr "xhr" -> shape_ok s -> shape_ok (on_error reqId s).
Proof.
  intros Hl Hk Hs. unfold on_error. apply shape_ok_push.
  - right. apply has_status_assign. repeat (apply live_assign). exact Hl.
  - assign_allowed Hk. exact Hs.
Qed.

Lemma kind_run_listener c now s l id : kind (run_listener c now s l) id = kind s id.
Proof.
  destruct l as [[[] reqId] t], c; cbn [run_listener]; try reflexivity.
  - unfold on_load, kind. rewrite deref_push. fold (kind s id).
    destruct (JSON_parse _); unfold kind at 1;
      match goal with |- get_field "type" (deref ?s0 id) = _ => change (kind s0 id = kind s id) end;
      rewrite !kind_assign by discriminate; reflexivity.
  - unfold on_error, kind. rewrite deref_push.
    match goal with |- get_field "type" (deref ?s0 id) = _ => change (kind s0 id = kind s id) end.
    rewrite !kind_assign by discriminate. reflexivity.
Qed.

Lemma shape_ok_run_listener c now s l :
  live s l.1.2 -> kind s l.1.2 = JStr "xhr" -> shape_ok s ->
  shape_ok (run_listener c now s l).
Proof.
  destruct l as [[[] reqId] t], c; simpl; intros Hl Hk Hs; try assumption.
  - apply shape_ok_on_load; assumption.
  - apply shape_ok_on_error; assumption.
Qed.

Lemma shape_ok_fold c now ls s :
  (forall l, l ∈ ls -> live s l.1.2 /\ kind s l.1.2 = JStr "xhr") -> shape_ok s ->
  shape_ok (fold_left (run_listener c now) ls s).
Proof.
  revert s. induction ls as [|l ls IH]; intros s Hls Hs; simpl; [assumption|].
  apply IH.
  - intros l' Hin. destruct (Hls l') as [Hl Hk]; [right; exact Hin|].
    split; [apply live_run_listener; exact Hl|].
    rewrite kind_run_listener. exact Hk.
  - destruct (Hls l) as [Hl Hk]; [left|]. apply shape_ok_run_listener; assumption.
Qed.

Lemma shape_ok_fire x c now s : heap_ok s -> shape_ok s -> shape_ok (fire x c now s).
Proof.
  intros Hh Hs. unfold fire. apply shape_ok_fold; [|assumption].
  intros [[k id] t] Hin. simpl. split.
  - apply (listeners_live s Hh x k id t Hin).
  - apply (listeners_xhr s Hs x k id t Hin).
Qed.

Lemma shape_ok_fetch_resume k reqId t0 r now s :
  live s reqId -> kind s reqId = JStr "fetch" -> shape_ok s ->
  shape_ok (fetch_resume k reqId t0 r now s).
Proof.
  intros Hl Hk Hs. unfold fetch_resume, fetch_catch.
  destruct r as [response|msg].
  - destruct (clone response) as [clone0|msg] eqn:Hc.
    + destruct (text_after_json response clone0 Hc) as [msg Ht].
      destruct (json clone0) as [clone1 [responseData|msg']]; simpl in Ht.
      * apply shape_ok_emit, shape_ok_push; [|assign_allowed Hk; exact Hs].
        left. repeat first
          [apply has_status_assign; repeat (apply live_assign); exact Hl
          |apply has_prop_assign_mono].
      * rewrite Ht. apply shape_ok_emit, shape_ok_push; [|assign_allowed Hk; exact Hs].
        left. repeat first
          [apply has_status_assign; repeat (apply live_assign); exact Hl
          |apply has_prop_assign_mono].
    + apply shape_ok_emit, shape_ok_push; [|assign_allowed Hk; exact Hs].
      right. apply has_status_assign. repeat (apply live_assign). exact Hl.
  - apply shape_ok_emit, shape_ok_push; [|assign_allowed Hk; exact Hs].
    right. apply has_status_assign. exact Hl.
Qed.

Lemma kind_alloc_new s s' u m iso ty b :
  kind (with_objects
          (<[S (requestCounter s) := new_requestData (S (requestCounter s)) u m iso ty b]>
             (objects s)) s') (S (requestCounter s))
  = JStr ty.
Proof. unfold kind. rewrite deref_alloc_new. reflexivity. Qed.

Lemma shape_ok_step s e : heap_ok s -> shape_ok s -> shape_ok (step s e).
Proof.
  intros Hh Hs.
  destruct e as [x m u now|x b iso|x c now|u o now iso|k r now iso|iso href ok]; simpl.
  - destruct (XHR_open s); [|apply shape_ok_emit; assumption].
    unfold open_wrapper. apply shape_ok_emit, shape_ok_with_xhrs; [|assumption].
    intros x' k id t. rewrite lookup_total_insert.
    destruct (decide (x = x')) as [->|]; simpl; apply (listeners_xhr s Hs).
  - destruct (XHR_send s); [|apply shape_ok_emit; assumption].
    unfold send_wrapper. destruct (slots (xhr_at s x)) as [sl|] eqn:Hsl;
      [|apply shape_ok_emit; assumption].
    destruct (in_scope (_captureUrl sl)) as [[]|] eqn:Hu;
      try (apply shape_ok_emit; assumption).
    apply shape_ok_emit, shape_ok_with_xhrs.
    + assert (Hold : forall x' k id t,
                 (k, id, t) ∈ listeners (xhr_at s x') ->
                 kind (with_objects
                         (<[S (requestCounter s) :=
                              new_requestData (S (requestCounter s)) (_captureUrl sl)
                                (_captureMethod sl) iso "xhr" (xhr_requestBody b)]>
                            (objects s))
                         (with_requestCounter (S (requestCounter s)) s)) id
                 = JStr "xhr").
      { intros x' k id t Hin. unfold kind.
        rewrite deref_alloc_old; [apply (listeners_xhr s Hs x' k id t Hin)|exact Hh|].
        apply (listeners_live s Hh x' k id t Hin). }
      intros x' k id t. rewrite lookup_total_insert.
      destruct (decide (x = x')) as [->|]; simpl; [|apply Hold].
      intros Hin. apply elem_of_app in Hin as [Hin|Hin]; [apply (Hold x' k id t Hin)|].
      assert (id = S (requestCounter s)) as ->.
      { apply elem_of_cons in Hin as [Hin|Hin]; [congruence|].
        apply list_elem_of_singleton in Hin. congruence. }
      apply kind_alloc_new.
    + apply shape_ok_alloc; [left; reflexivity|assumption..].
  - apply shape_ok_fire; assumption.
  - destruct (window_fetch s).
    + unfold fetch_wrapper. destruct (in_scope u) as [[]|] eqn:Hu.
      * apply shape_ok_emit, shape_ok_with_pending.
        -- intros k id t. simpl. rewrite lookup_insert.
           destruct (decide (calls s = k)).
           ++ intros [= <- <-]. apply (kind_alloc_new (with_calls (S (calls s)) s)).
           ++ intros Hp. unfold kind.
              rewrite (deref_alloc_old (with_calls (S (calls s)) s));
                [apply (pending_fetch s Hs k id t Hp)
                |apply heap_ok_with_calls; exact Hh
                |apply (pending_live s Hh k id t Hp)].
        -- apply (shape_ok_alloc (with_calls (S (calls s)) s));
             [right; reflexivity|apply heap_ok_with_calls; exact Hh
             |apply shape_ok_with_calls; exact Hs].
      * apply shape_ok_emit, shape_ok_with_pending; [|apply shape_ok_with_calls; assumption].
        intros k id t. simpl. rewrite lookup_insert.
        destruct (decide (calls s = k)); [discriminate|]. apply (pending_fetch s Hs).
      * apply shape_ok_emit, shape_ok_with_calls. assumption.
    + apply shape_ok_emit, shape_ok_with_pending; [|apply shape_ok_with_calls; assumption].
      intros k id t. simpl. rewrite lookup_insert.
      destruct (decide (calls s = k)); [discriminate|]. apply (pending_fetch s Hs).
  - destruct (pending s !! k) as [[|reqId t0]|] eqn:Hk; [| |assumption].
    + apply shape_ok_emit, shape_ok_with_pending; [|assumption].
      intros k' id t. rewrite lookup_delete.
      destruct (decide (k = k')); [discriminate|]. apply (pending_fetch s Hs).
    + apply shape_ok_fetch_resume.
      * apply (pending_live s Hh k reqId t0 Hk).
      * apply (pending_fetch s Hs k reqId t0 Hk).
      * apply shape_ok_with_pending; [|assumption].
        intros k' id t. rewrite lookup_delete.
        destruct (decide (k = k')); [discriminate|]. apply (pending_fetch s Hs).
  - destruct Hs as [H1 H2 H3 H4]. destruct ok; split; assumption.
Qed.

Lemma shape_ok_run tr s : heap_ok s -> shape_ok s -> shape_ok (run tr s).
Proof.
  revert s. induction tr as [|e tr IH]; intros s Hh Hs; simpl; [assumption|].
  apply IH; [apply heap_ok_step, Hh|apply shape_ok_step; assumption].
Qed.

End Facts.
End NoHarShapeFacts.

Lemma has_prop_keys k rd : has_prop k rd = true -> In k (keys rd).
Proof.
  destruct rd as [| | | | | |fields]; try discriminate. simpl.
  intros Hh. apply bool_decide_eq_true in Hh as [v Hv].
  induction fields as [|[k0 v0] r IH]; simpl in *; [discriminate|].
  destruct (String.eqb_spec k k0) as [->|Hne]; [left; reflexivity|right; apply IH; exact Hv].
Qed.

Lemma reachable_ok `{JSONApi} tr started :
  NoHarSpec.heap_ok (NoHar.run tr (NoHar.init started))
  /\ NoHarShape.shape_ok (NoHar.run tr (NoHar.init started)).
Proof.
  split.
  - apply NoHarInv.heap_ok_run, NoHarInv.heap_ok_init.
  - apply NoHarShapeFacts.shape_ok_run;
      [apply NoHarInv.heap_ok_init|apply NoHarShapeFacts.shape_ok_init].
Qed.

Lemma records_are_numbered_aux `{JSONApi} (tr : list event) (started : string) :
  Forall (fun id =>
            1 <= id <= NoHar.requestCounter (NoHar.run tr (NoHar.init started))
            /\ get_field "id" (NoHar.deref (NoHar.run tr (NoHar.init started)) id)
               = JNum (Z.of_nat id)
            /\ take 6 (keys (NoHar.deref (NoHar.run tr (NoHar.init started)) id))
               = NoHarShape.base_keys)
         (NoHar.requests (NoHar.run tr (NoHar.init started))).
Proof.
  destruct (reachable_ok tr started) as [Hh Hs].
  apply Forall_forall. intros id Hin.
  pose proof (NoHarSpec.requests_live _ Hh id Hin) as Hl.
  destruct (NoHarShape.records_ok _ Hs id Hl) as (Hpos & Hid & Hbase & _).
  pose proof (NoHarSpec.live_bound _ Hh id Hl) as Hb.
  split; [lia|]. split; assumption.
Qed.

(** X9.  In every session of extract_no_har.js the records of the buffer are
    numbered: the [id] of a record is a number from 1 to [requestCounter],
    the number the wrapper gave the call when it started, and no listener
    overwrites it; and the six keys of the [requestData] literal stay the
    first six keys of the record, in the order of the literal. *)
Theorem records_are_numbered `{JSONApi} (tr : list event) (started : string) :
  let s := NoHar.run tr (NoHar.init started) in
  Forall (fun id =>
            1 <= id <= NoHar.requestCounter s
            /\ get_field "id" (NoHar.deref s id) = JNum (Z.of_nat id)
            /\ take 6 (keys (NoHar.deref s id)) = NoHarShape.base_keys)
         (NoHar.requests s).
Proof. cbn zeta. apply records_are_numbered_aux. Qed.

(** X10.  When each XHR object is sent once and completes once, the records
    of the buffer have different [id]s, and there are no more of them
    than calls counted by [requestCounter]. *)
Theorem buffered_ids_are_distinct `{JSONApi} (tr : list event) (started : string) :
  well_formed ∅ ∅ tr = true ->
  let s := NoHar.run tr (NoHar.init started) in
  NoDup (map (fun id => get_field "id" (NoHar.deref s id)) (NoHar.requests s))
  /\ length (NoHar.requests s) <= NoHar.requestCounter s.
Proof.
  intros Hwf. cbn zeta. destruct (reachable_ok tr started) as [Hh Hs].
  destruct (NoHarLife.life_run tr ∅ ∅ (NoHar.init started)) as (sent & fired & Hlife);
    [apply NoHarInv.heap_ok_init|apply NoHarLife.life_ok_init|exact Hwf|].
  pose proof (NoHarSpec.requests_nodup _ _ _ Hlife) as Hnd.
  assert (Hrange : forall id, id ∈ NoHar.requests (NoHar.run tr (NoHar.init started)) ->
                     1 <= id <= NoHar.requestCounter (NoHar.run tr (NoHar.init started))
                     /\ get_field "id" (NoHar.deref (NoHar.run tr (NoHar.init started)) id)
                        = JNum (Z.of_nat id)).
  { intros id Hin. pose proof (NoHarSpec.requests_live _ Hh id Hin) as Hl.
    destruct (NoHarShape.records_ok _ Hs id Hl) as (Hpos & Hid & _).
    pose proof (NoHarSpec.live_bound _ Hh id Hl). split; [lia|exact Hid]. }
  split.
  - apply (NoDup_fmap_2_strong _ _); [|exact Hnd].
    intros id id' Hin Hin' Heq.
    destruct (Hrange id Hin) as [_ Hid]. destruct (Hrange id' Hin') as [_ Hid'].
    rewrite Hid, Hid' in Heq. injection Heq as Heq. lia.
  - set (n := NoHar.requestCounter (NoHar.run tr (NoHar.init started))) in *.
    replace n with (length (seq 1 n)) at 1 by apply length_seq.
    apply submseteq_length, NoDup_submseteq; [exact Hnd|].
    intros id Hin. apply elem_of_seq. destruct (Hrange id Hin) as [Hr _]. lia.
Qed.

(** A session with a JSON answer, a text answer and an unreadable one:
    three records, numbered 1, 2 and 3. *)
Lemma buffered_ids_are_distinct_witness :
  NoDup (map (fun id => get_field "id"
                          (NoHar.deref (NoHar.run mixed_trace (NoHar.init "")) id))
             (NoHar.requests (NoHar.run mixed_trace (NoHar.init ""))))
  /\ length (NoHar.requests (NoHar.run mixed_trace (NoHar.init "")))
     <= NoHar.requestCounter (NoHar.run mixed_trace (NoHar.init "")).
Proof.
  apply (@buffered_ids_are_distinct JSONSubset.json mixed_trace ""). reflexivity.
Defined.


(** ** After the stop of extract_no_har.js *)

Module NoHarFrame.
Import NoHar NoHarSpec NoHarInv NoHarShape.

Lemma same_frame_refl s : same_frame s s.
Proof. repeat split; auto. Qed.

Lemma same_frame_trans s1 s2 s3 : same_frame s1 s2 -> same_frame s2 s3 -> same_frame s1 s3.
Proof.
  intros (E1 & C1 & X1 & P1 & K1 & L1) (E2 & C2 & X2 & P2 & K2 & L2).
  repeat split; try congruence.
  - intros Hl. apply L1, L2, Hl.
  - intros Hl. apply L2, L1, Hl.
Qed.

Lemma same_frame_assign s id k v : same_frame s (assign id k v s).
Proof. repeat split; try reflexivity; apply live_assign. Qed.

Lemma same_frame_push s id : same_frame s (push id s).
Proof. repeat split; auto. Qed.

Lemma same_frame_emit s e : same_frame s (emit e s).
Proof. repeat split; auto. Qed.

Lemma same_frame_after_assign s s0 id k v :
  same_frame s s0 -> same_frame s (assign id k v s0).
Proof. intros Hs. eapply same_frame_trans; [exact Hs|apply same_frame_assign]. Qed.

Lemma same_frame_after_push s s0 id : same_frame s s0 -> same_frame s (push id s0).
Proof. intros Hs. eapply same_frame_trans; [exact Hs|apply same_frame_push]. Qed.

Lemma same_frame_after_emit s s0 e : same_frame s s0 -> same_frame s (emit e s0).
Proof. intros Hs. eapply same_frame_trans; [exact Hs|apply same_frame_emit]. Qed.

Ltac frame_steps :=
  repeat match goal with
         | |- same_frame ?s ?s => apply same_frame_refl
         | |- same_frame _ (push _ _) => apply same_frame_after_push
         | |- same_frame _ (emit _ _) => apply same_frame_after_emit
         | |- same_frame _ (assign _ _ _ _) => apply same_frame_after_assign
         end.

Section Facts.
Context `{JSONApi}.

Lemma same_frame_run_listener c now s l : same_frame s (run_listener c now s l).
Proof.
  destruct l as [[[] id] t], c; cbn [run_listener]; try apply same_frame_refl.
  - unfold on_load. destruct (JSON_parse _); frame_steps.
  - unfold on_error. frame_steps.
Qed.

Lemma same_frame_fire x c now s : same_frame s (fire x c now s).
Proof.
  unfold fire. generalize (listeners (xhr_at s x)) as ls. intros ls. revert s.
  induction ls as [|l ls IH]; intros s; simpl; [apply same_frame_refl|].
  eapply same_frame_trans; [apply same_frame_run_listener|apply IH].
Qed.

(** The capturing branch of the fetch wrapper, apart from the effect. *)
Lemma same_frame_fetch_resume k reqId t0 r now s :
  same_frame s (fetch_resume k reqId t0 r now s).
Proof.
  unfold fetch_resume, fetch_catch.
  destruct r as [response|msg];
    [destruct (clone response) as [clone0|msg];
     [destruct (json clone0) as [clone1 [responseData|msg]];
      [|destruct (text clone1).2]|]|];
    frame_steps.
Qed.

(** Once the three globals hold the originals, an event creates no
    record and registers no listener. *)
Lemma stopped_step s e :
  entries s = (Original, Original, Original) ->
  entries (step s e) = entries s /\ requestCounter (step s e) = requestCounter s
  /\ xhrs (step s e) = xhrs s
  /\ (forall id, live (step s e) id <-> live s id).
Proof.
  intros He. injection He as Hf Ho Hs.
  destruct e as [x m u now|x b iso|x c now|u o now iso|k r now iso|iso href ok]; simpl.
  - rewrite Ho. repeat split; auto.
  - rewrite Hs. repeat split; auto.
  - destruct (same_frame_fire x c now s) as (E & C & X & _ & _ & L). auto.
  - rewrite Hf. repeat split; auto.
  - destruct (pending s !! k) as [[|reqId t0]|]; try (repeat split; auto; fail).
    destruct (same_frame_fetch_resume k reqId t0 r now
                (with_pending (delete k (pending s)) s)) as (E & C & X & _ & _ & L).
    auto.
  - unfold entries. simpl. rewrite Hf, Ho, Hs. destruct ok; repeat split; auto.
Qed.

Lemma stopped_run tr s :
  entries s = (Original, Original, Original) ->
  entries (run tr s) = entries s /\ requestCounter (run tr s) = requestCounter s
  /\ xhrs (run tr s) = xhrs s
  /\ (forall id, live (run tr s) id <-> live s id).
Proof.
  revert s. induction tr as [|e tr IH]; intros s He; simpl; [repeat split; auto|].
  destruct (stopped_step s e He) as (E & C & X & L).
  destruct (IH (step s e)) as (E' & C' & X' & L'); [congruence|].
  repeat split; try congruence.
  - intros Hl. apply L, L', Hl.
  - intros Hl. apply L', L, Hl.
Qed.

End Facts.
End NoHarFrame.

(** X12.  After [stopCapture] the script captures nothing new, whatever the
    page does next: the three globals keep the originals, [requestCounter]
    stays where it was, no XHR object gets a slot or a listener, and no
    record object is created.  The records that still enter the buffer
    are those of calls that were under way at the stop: every record of
    the buffer has an [id] that the counter had reached by then. *)
Theorem nothing_is_captured_after_stop `{JSONApi}
    (tr : list event) (started iso href : string) (ok : bool) (later : list event) :
  let s := NoHar.run (tr ++ [Stop iso href ok]) (NoHar.init started) in
  let s' := NoHar.run later s in
  entries s' = (Original, Original, Original)
  /\ NoHar.requestCounter s' = NoHar.requestCounter s
  /\ NoHar.xhrs s' = NoHar.xhrs s
  /\ (forall id, NoHarSpec.live s' id <-> NoHarSpec.live s id)
  /\ Forall (fun id => 1 <= id <= NoHar.requestCounter s
                       /\ get_field "id" (NoHar.deref s' id) = JNum (Z.of_nat id))
            (NoHar.requests s').
Proof.
  cbn zeta.
  assert (He : entries (NoHar.run (tr ++ [Stop iso href ok]) (NoHar.init started))
               = (Original, Original, Original)).
  { unfold NoHar.run. rewrite fold_left_app. simpl. destruct ok; reflexivity. }
  destruct (NoHarFrame.stopped_run later _ He) as (E & C & X & L).
  split; [congruence|]. split; [exact C|]. split; [exact X|]. split; [exact L|].
  assert (Hrun : NoHar.run later (NoHar.run (tr ++ [Stop iso href ok]) (NoHar.init started))
                 = NoHar.run ((tr ++ [Stop iso href ok]) ++ later) (NoHar.init started)).
  { unfold NoHar.run. symmetry. apply fold_left_app. }
  pose proof (records_are_numbered_aux ((tr ++ [Stop iso href ok]) ++ later) started) as Hn.
  rewrite <- Hrun in Hn. rewrite C in Hn.
  eapply Forall_impl; [exact Hn|]. intros id (Hr & Hid & _). split; assumption.
Qed.

(** ** The wrappers seen from the page *)

Lemma page_view_app l1 l2 : page_view (l1 ++ l2) = page_view l1 ++ page_view l2.
Proof. unfold page_view. apply List.filter_app. Qed.

Lemma in_scope_plain u : plain_url u = true -> exists b, NoHar.in_scope u = Ret b.
Proof. destruct u; try discriminate; intros _; simpl; eauto. Qed.

Module NoHarPage.
Import NoHar NoHarPageSpec.

Section Facts.
Context `{JSONApi}.

Lemma agree_init started : agree (init started) Native.init.
Proof.
  repeat split; try reflexivity.
  - intros [c Hc]. simpl in Hc. rewrite lookup_empty in Hc. discriminate.
  - simpl. intros Hin. apply elem_of_empty in Hin. contradiction.
  - intros x sl. unfold xhr_at. simpl. rewrite lookup_total_empty. discriminate.
Qed.

Lemma agree_emit s n e :
  is_export e = false -> agree s n -> agree (emit e s) (Native.emit e n).
Proof.
  intros He (Hc & Hp & Hv & Hs). repeat split; try assumption; try apply Hp.
  simpl. rewrite page_view_app, Hv. unfold page_view at 1. simpl. rewrite He. reflexivity.
Qed.

Lemma agree_export s n e : is_export e = true -> agree s n -> agree (emit e s) n.
Proof.
  intros He (Hc & Hp & Hv & Hs). repeat split; try assumption; try apply Hp.
  simpl. rewrite page_view_app, Hv. unfold page_view at 1. simpl. rewrite He.
  apply app_nil_r.
Qed.

(** A state that differs in the records, the buffer, the counter or the
    listeners only. *)
Lemma agree_frame s s' n :
  calls s' = calls s -> pending s' = pending s -> effects s' = effects s ->
  (forall x, slots (xhr_at s' x) = slots (xhr_at s x)) ->
  agree s n -> agree s' n.
Proof.
  intros Ec Ep Ee Es (Hc & Hp & Hv & Hs). repeat split.
  - congruence.
  - rewrite Ep. apply Hp.
  - rewrite Ep. apply Hp.
  - rewrite Ee. exact Hv.
  - intros x sl. rewrite Es. apply Hs.
Qed.

Lemma agree_fetch_call s n u o c :
  agree s n ->
  agree (emit (RealFetch (calls s) u o)
           (with_pending (<[calls s := c]> (pending s)) (with_calls (S (calls s)) s)))
        (Native.step n (FetchCall u o 0 "")).
Proof.
  intros (Hc & Hp & Hv & Hs). repeat split.
  - simpl. congruence.
  - simpl. rewrite <- Hc. intros Hk. rewrite lookup_insert in Hk.
    destruct (decide (calls s = k)) as [->|];
      [apply elem_of_union_l, elem_of_singleton; reflexivity|].
    apply elem_of_union_r, Hp. exact Hk.
  - simpl. rewrite <- Hc. intros Hk. rewrite lookup_insert.
    destruct (decide (calls s = k)) as [|Hne]; [eauto|]. apply Hp.
    apply elem_of_union in Hk as [Hk|Hk]; [|exact Hk].
    apply elem_of_singleton in Hk. congruence.
  - simpl. rewrite page_view_app, Hv, Hc. reflexivity.
  - exact Hs.
Qed.

Lemma agree_settle s n k r :
  is_Some (pending s !! k) -> agree s n ->
  agree (emit (FetchResult k r) (with_pending (delete k (pending s)) s))
        (Native.step n (FetchSettle k r 0 "")).
Proof.
  intros Hk (Hc & Hp & Hv & Hs). simpl.
  rewrite bool_decide_eq_true_2 by (apply Hp; exact Hk). repeat split.
  - exact Hc.
  - simpl. rewrite lookup_delete. destruct (decide (k = k0)) as [->|Hne].
    + intros [c Hc']. discriminate.
    + intros Hk0. apply elem_of_difference. split; [apply Hp; exact Hk0|].
      intros Hin. apply elem_of_singleton in Hin. congruence.
  - simpl. intros Hk0. apply elem_of_difference in Hk0 as [Hk0 Hne].
    rewrite lookup_delete. destruct (decide (k = k0)) as [->|];
      [exfalso; apply Hne, elem_of_singleton; reflexivity|].
    apply Hp. exact Hk0.
  - simpl. rewrite page_view_app, Hv. reflexivity.
  - exact Hs.
Qed.

Lemma agree_step s n e :
  string_urls e = true -> fresh_response e = true ->
  agree s n -> agree (step s e) (Native.step n e).
Proof.
  intros Hu Hf Ha.
  destruct e as [x m u now|x b iso|x c now|u o now iso|k r now iso|iso href ok];
    cbn [step Native.step].
  - destruct (XHR_open s); [|apply agree_emit; [reflexivity|exact Ha]].
    unfold open_wrapper. apply agree_emit; [reflexivity|].
    destruct Ha as (Hc & Hp & Hv & Hs). repeat split; try assumption; try apply Hp.
    intros x' sl. unfold xhr_at. simpl. rewrite lookup_total_insert.
    destruct (decide (x = x')) as [->|]; [|apply Hs].
    simpl. intros [= <-]. exact Hu.
  - destruct (XHR_send s); [|apply agree_emit; [reflexivity|exact Ha]].
    unfold send_wrapper. destruct (slots (xhr_at s x)) as [sl|] eqn:Hsl;
      [|apply agree_emit; [reflexivity|exact Ha]].
    destruct Ha as (Hc & Hp & Hv & Hs).
    destruct (in_scope_plain _ (Hs x sl Hsl)) as [[] ->];
      [|apply agree_emit; [reflexivity|repeat split; assumption || apply Hp]].
    apply agree_emit; [reflexivity|].
    repeat split; try assumption; try apply Hp.
    intros x' sl'. unfold xhr_at. simpl. rewrite lookup_total_insert.
    destruct (decide (x = x')) as [->|]; [|apply Hs].
    simpl. intros [= <-]. apply (Hs x' sl Hsl).
  - destruct (NoHarFrame.same_frame_fire x c now s) as (_ & _ & X & P & K & _).
    apply (agree_frame s); try assumption.
    + apply NoHarFacts.effects_fire.
    + intros x'. unfold xhr_at. rewrite X. reflexivity.
  - destruct (window_fetch s); [|apply (agree_fetch_call s n u o Direct Ha)].
    unfold fetch_wrapper. destruct (in_scope_plain u Hu) as [[] ->].
    + apply (agree_frame
               (emit (RealFetch (calls s) u o)
                  (with_pending (<[calls s := Capturing (S (requestCounter s)) now]> (pending s))
                     (with_calls (S (calls s)) s)))); try reflexivity.
      apply (agree_fetch_call s n u o _ Ha).
    + apply (agree_fetch_call s n u o Direct Ha).
  - destruct (pending s !! k) as [[|reqId t0]|] eqn:Hk.
    + apply agree_settle; [rewrite Hk; eauto|exact Ha].
    + pose proof (Transparency.NoHar_fetch_resume_transparent k reqId t0 r now
                    (with_pending (delete k (pending s)) s)) as He.
      destruct (NoHarFrame.same_frame_fetch_resume k reqId t0 r now
                  (with_pending (delete k (pending s)) s)) as (_ & _ & X & P & K & _).
      apply (agree_frame (emit (FetchResult k r) (with_pending (delete k (pending s)) s)));
        try assumption.
      * rewrite He; [reflexivity|].
        intros response ->. simpl in Hf. apply negb_true_iff in Hf. exact Hf.
      * intros x'. unfold xhr_at. rewrite X. reflexivity.
      * apply agree_settle; [rewrite Hk; eauto|exact Ha].
    + destruct Ha as (Hc & Hp & Hv & Hs).
      rewrite bool_decide_eq_false_2; [repeat split; assumption || apply Hp|].
      intros Hin. apply Hp in Hin as [c Hc']. congruence.
  - simpl. destruct ok; apply agree_export; try reflexivity;
      destruct Ha as (Hc & Hp & Hv & Hs); repeat split; assumption || apply Hp.
Qed.

Lemma agree_run tr s n :
  forallb string_urls tr = true -> forallb fresh_response tr = true ->
  agree s n -> agree (run tr s) (Native.run tr n).
Proof.
  revert s n. induction tr as [|e tr IH]; intros s n Hu Hf Ha; [exact Ha|].
  cbn [forallb] in Hu, Hf.
  apply andb_true_iff in Hu as [Hu Hu']. apply andb_true_iff in Hf as [Hf Hf'].
  apply IH; [assumption..|]. apply agree_step; assumption.
Qed.

End Facts.
End NoHarPage.



Lemma fold_left_keeps {S L A : Type} (proj : S -> A) (f : S -> L -> S) ls s :
  (forall s0 l, proj (f s0 l) = proj s0) -> proj (fold_left f ls s) = proj s.
Proof.
  intros Hf. revert s. induction ls as [|l ls IH]; intros s; simpl; [reflexivity|].
  rewrite IH. apply Hf.
Qed.

Lemma Simple_in_scope_plain u : plain_url u = true -> exists b, Simple.in_scope u = Ret b.
Proof. destruct u; try discriminate; intros _; simpl; eauto. Qed.

Module SimplePage.
Import Simple SimplePageSpec.

Section Facts.
Context `{JSONApi}.

Lemma simple_agree_init : agree init Native.init.
Proof.
  repeat split; try reflexivity.
  - intros [c Hc]. simpl in Hc. rewrite lookup_empty in Hc. discriminate.
  - simpl. intros Hin. apply elem_of_empty in Hin. contradiction.
  - intros x sl. unfold xhr_at. simpl. rewrite lookup_total_empty. discriminate.
  - intros k u o. simpl. rewrite lookup_empty. discriminate.
Qed.

Lemma simple_agree_emit s n e :
  is_export e = false -> agree s n -> agree (emit e s) (Native.emit e n).
Proof.
  intros He (Hc & Hp & Hv & Hs & Hw). repeat split; try assumption; try apply Hp.
  simpl. rewrite page_view_app, Hv. unfold page_view at 1. simpl. rewrite He. reflexivity.
Qed.

Lemma simple_agree_export s n e : is_export e = true -> agree s n -> agree (emit e s) n.
Proof.
  intros He (Hc & Hp & Hv & Hs & Hw). repeat split; try assumption; try apply Hp.
  simpl. rewrite page_view_app, Hv. unfold page_view at 1. simpl. rewrite He.
  apply app_nil_r.
Qed.

Lemma simple_agree_frame s s' n :
  calls s' = calls s -> pending s' = pending s -> effects s' = effects s ->
  (forall x, slots (xhr_at s' x) = slots (xhr_at s x)) ->
  agree s n -> agree s' n.
Proof.
  intros Ec Ep Ee Es (Hc & Hp & Hv & Hs & Hw). repeat split.
  - congruence.
  - rewrite Ep. apply Hp.
  - rewrite Ep. apply Hp.
  - rewrite Ee. exact Hv.
  - intros x sl. rewrite Es. apply Hs.
  - intros k u o. rewrite Ep. apply Hw.
Qed.

Lemma simple_agree_fetch_call s n u o c :
  (forall u' o', c = Awaiting u' o' -> plain_url u' = true) ->
  agree s n ->
  agree (emit (RealFetch (calls s) u o)
           (with_pending (<[calls s := c]> (pending s)) (with_calls (S (calls s)) s)))
        (Native.step n (FetchCall u o 0 "")).
Proof.
  intros Hpl (Hc & Hp & Hv & Hs & Hw). repeat split.
  - simpl. congruence.
  - simpl. rewrite <- Hc. intros Hk. rewrite lookup_insert in Hk.
    destruct (decide (calls s = k)) as [->|];
      [apply elem_of_union_l, elem_of_singleton; reflexivity|].
    apply elem_of_union_r, Hp. exact Hk.
  - simpl. rewrite <- Hc. intros Hk. rewrite lookup_insert.
    destruct (decide (calls s = k)) as [|Hne]; [eauto|]. apply Hp.
    apply elem_of_union in Hk as [Hk|Hk]; [|exact Hk].
    apply elem_of_singleton in Hk. congruence.
  - simpl. rewrite page_view_app, Hv, Hc. reflexivity.
  - exact Hs.
  - intros k u' o'. simpl. rewrite lookup_insert.
    destruct (decide (calls s = k)); [intros [= ->]; eapply Hpl; reflexivity|apply Hw].
Qed.

Lemma simple_agree_settle s n k r :
  is_Some (pending s !! k) -> agree s n ->
  agree (emit (FetchResult k r) (with_pending (delete k (pending s)) s))
        (Native.step n (FetchSettle k r 0 "")).
Proof.
  intros Hk (Hc & Hp & Hv & Hs & Hw). simpl.
  rewrite bool_decide_eq_true_2 by (apply Hp; exact Hk). repeat split.
  - exact Hc.
  - simpl. rewrite lookup_delete. destruct (decide (k = k0)) as [->|Hne].
    + intros [c Hc']. discriminate.
    + intros Hk0. apply elem_of_difference. split; [apply Hp; exact Hk0|].
      intros Hin. apply elem_of_singleton in Hin. congruence.
  - simpl. intros Hk0. apply elem_of_difference in Hk0 as [Hk0 Hne].
    rewrite lookup_delete. destruct (decide (k = k0)) as [->|];
      [exfalso; apply Hne, elem_of_singleton; reflexivity|].
    apply Hp. exact Hk0.
  - simpl. rewrite page_view_app, Hv. reflexivity.
  - exact Hs.
  - intros k0 u o. simpl. rewrite lookup_delete.
    destruct (decide (k = k0)); [discriminate|apply Hw].
Qed.

Lemma simple_fetch_resume_settles k u o r iso s :
  plain_url u = true ->
  exists s1, fetch_resume k u o r iso s = emit (FetchResult k r) s1
             /\ calls s1 = calls s /\ pending s1 = pending s /\ effects s1 = effects s
             /\ xhrs s1 = xhrs s.
Proof.
  intros Hu. unfold fetch_resume. destruct r as [response|msg]; [|exists s; auto].
  destruct (Simple_in_scope_plain u Hu) as [[] ->]; [|exists s; auto].
  eexists. split; [reflexivity|]. auto.
Qed.

Lemma simple_on_load_keeps ref st responseText s :
  let s' := on_load ref st responseText s in
  calls s' = calls s /\ pending s' = pending s /\ effects s' = effects s
  /\ xhrs s' = xhrs s.
Proof. cbn zeta. unfold on_load. destruct (JSON_parse responseText); auto. Qed.

Lemma simple_fire_keeps x c s :
  let s' := fire x c s in
  calls s' = calls s /\ pending s' = pending s /\ effects s' = effects s
  /\ xhrs s' = xhrs s.
Proof.
  cbn zeta. unfold fire.
  assert (Hl : forall s0 ref,
             (calls (run_listener c s0 ref), pending (run_listener c s0 ref),
              effects (run_listener c s0 ref), xhrs (run_listener c s0 ref))
             = (calls s0, pending s0, effects s0, xhrs s0)).
  { intros s0 ref. destruct c; try reflexivity. cbn [run_listener].
    destruct (simple_on_load_keeps ref st responseText s0) as (-> & -> & -> & ->). reflexivity. }
  pose proof (fold_left_keeps (fun s0 => (calls s0, pending s0, effects s0, xhrs s0))
                (run_listener c) (listeners (xhr_at s x)) s Hl) as Hk.
  injection Hk as -> -> -> ->. auto.
Qed.

Lemma simple_agree_step s n e :
  string_urls e = true -> agree s n -> agree (step s e) (Native.step n e).
Proof.
  intros Hu Ha.
  destruct e as [x m u now|x b iso|x c now|u o now iso|k r now iso|iso href ok];
    cbn [step Native.step].
  - destruct (XHR_open s); [|apply simple_agree_emit; [reflexivity|exact Ha]].
    unfold open_wrapper. apply simple_agree_emit; [reflexivity|].
    destruct Ha as (Hc & Hp & Hv & Hs & Hw). repeat split; try assumption; try apply Hp.
    intros x' sl. unfold xhr_at. simpl. rewrite lookup_total_insert.
    destruct (decide (x = x')) as [->|]; [|apply Hs].
    simpl. intros [= <-]. exact Hu.
  - destruct (XHR_send s); [|apply simple_agree_emit; [reflexivity|exact Ha]].
    unfold send_wrapper. destruct (slots (xhr_at s x)) as [sl|] eqn:Hsl;
      [|apply simple_agree_emit; [reflexivity|exact Ha]].
    destruct Ha as (Hc & Hp & Hv & Hs & Hw).
    destruct (Simple_in_scope_plain _ (Hs x sl Hsl)) as [[] ->];
      [|apply simple_agree_emit; [reflexivity|repeat split; assumption || apply Hp]].
    apply simple_agree_emit; [reflexivity|].
    repeat split; try assumption; try apply Hp.
    intros x' sl'. unfold xhr_at. simpl. rewrite lookup_total_insert.
    destruct (decide (x = x')) as [->|]; [|apply Hs].
    simpl. intros [= <-]. apply (Hs x' sl Hsl).
  - destruct (simple_fire_keeps x c s) as (K & P & E & X).
    apply (simple_agree_frame s); try assumption.
    intros x'. unfold xhr_at. rewrite X. reflexivity.
  - destruct (window_fetch s).
    + unfold fetch_wrapper. apply (simple_agree_fetch_call s n u o (Awaiting u o)); [|exact Ha].
      intros u' o' [= <- <-]. exact Hu.
    + apply (simple_agree_fetch_call s n u o Direct); [discriminate|exact Ha].
  - destruct (pending s !! k) as [[|u o]|] eqn:Hk.
    + apply simple_agree_settle; [rewrite Hk; eauto|exact Ha].
    + assert (Hpl : plain_url u = true).
      { destruct Ha as (_ & _ & _ & _ & Hw). apply (Hw k u o Hk). }
      destruct (simple_fetch_resume_settles k u o r iso (with_pending (delete k (pending s)) s) Hpl)
        as (s1 & -> & K & P & E & X).
      simpl in K, P, E, X.
      apply (simple_agree_frame (emit (FetchResult k r) (with_pending (delete k (pending s)) s)));
        [simpl; congruence|simpl; congruence|simpl; congruence| |].
      * intros x'. unfold xhr_at. simpl. rewrite X. reflexivity.
      * apply simple_agree_settle; [rewrite Hk; eauto|exact Ha].
    + destruct Ha as (Hc & Hp & Hv & Hs & Hw).
      rewrite bool_decide_eq_false_2; [repeat split; assumption || apply Hp|].
      intros Hin. apply Hp in Hin as [c Hc']. congruence.
  - destruct (finished s); [exact Ha|].
    unfold finish. destruct ok; apply simple_agree_export; try reflexivity;
      destruct Ha as (Hc & Hp & Hv & Hs & Hw); repeat split; assumption || apply Hp.
Qed.

Lemma simple_agree_run tr s n :
  forallb string_urls tr = true -> agree s n -> agree (run tr s) (Native.run tr n).
Proof.
  revert s n. induction tr as [|e tr IH]; intros s n Hu Ha; [exact Ha|].
  cbn [forallb] in Hu. apply andb_true_iff in Hu as [Hu Hu'].
  apply IH; [assumption|]. apply simple_agree_step; assumption.
Qed.

End Facts.
End SimplePage.



Lemma Reload_in_scope_plain c u :
  plain_url u = true -> exists b, Reload.in_scope c u = Ret b.
Proof. destruct c, u; try discriminate; intros _; simpl; eauto. Qed.

Module ReloadPage.
Import Reload ReloadPageSpec.

Section Facts.
Context `{JSONApi}.

Lemma reload_agree_init : agree init Native.init.
Proof.
  repeat split; try reflexivity.
  - intros [c Hc]. simpl in Hc. rewrite lookup_empty in Hc. discriminate.
  - simpl. intros Hin. apply elem_of_empty in Hin. contradiction.
  - intros x sl. unfold xhr_at. simpl. rewrite lookup_total_empty. discriminate.
  - intros k u o. simpl. rewrite lookup_empty. discriminate.
Qed.

Lemma reload_agree_emit s n e :
  is_export e = false -> agree s n -> agree (emit e s) (Native.emit e n).
Proof.
  intros He (Hc & Hp & Hv & Hs & Hw). repeat split; try assumption; try apply Hp.
  simpl. rewrite page_view_app, Hv. unfold page_view at 1. simpl. rewrite He. reflexivity.
Qed.

Lemma reload_agree_export s n e : is_export e = true -> agree s n -> agree (emit e s) n.
Proof.
  intros He (Hc & Hp & Hv & Hs & Hw). repeat split; try assumption; try apply Hp.
  simpl. rewrite page_view_app, Hv. unfold page_view at 1. simpl. rewrite He.
  apply app_nil_r.
Qed.

Lemma reload_agree_frame s s' n :
  calls s' = calls s -> pending s' = pending s -> effects s' = effects s ->
  (forall x, Simple.slots (xhr_at s' x) = Simple.slots (xhr_at s x)) ->
  agree s n -> agree s' n.
Proof.
  intros Ec Ep Ee Es (Hc & Hp & Hv & Hs & Hw). repeat split.
  - congruence.
  - rewrite Ep. apply Hp.
  - rewrite Ep. apply Hp.
  - rewrite Ee. exact Hv.
  - intros x sl. rewrite Es. apply Hs.
  - intros k u o. rewrite Ep. apply Hw.
Qed.

Lemma reload_agree_fetch_call s n u o c :
  (forall u' o', c = Simple.Awaiting u' o' -> plain_url u' = true) ->
  agree s n ->
  agree (emit (RealFetch (calls s) u o)
           (with_pending (<[calls s := c]> (pending s)) (with_calls (S (calls s)) s)))
        (Native.step n (FetchCall u o 0 "")).
Proof.
  intros Hpl (Hc & Hp & Hv & Hs & Hw). repeat split.
  - simpl. congruence.
  - simpl. rewrite <- Hc. intros Hk. rewrite lookup_insert in Hk.
    destruct (decide (calls s = k)) as [->|];
      [apply elem_of_union_l, elem_of_singleton; reflexivity|].
    apply elem_of_union_r, Hp. exact Hk.
  - simpl. rewrite <- Hc. intros Hk. rewrite lookup_insert.
    destruct (decide (calls s = k)) as [|Hne]; [eauto|]. apply Hp.
    apply elem_of_union in Hk as [Hk|Hk]; [|exact Hk].
    apply elem_of_singleton in Hk. congruence.
  - simpl. rewrite page_view_app, Hv, Hc. reflexivity.
  - exact Hs.
  - intros k u' o'. simpl. rewrite lookup_insert.
    destruct (decide (calls s = k)); [intros [= ->]; eapply Hpl; reflexivity|apply Hw].
Qed.

Lemma reload_agree_settle s n k r :
  is_Some (pending s !! k) -> agree s n ->
  agree (emit (FetchResult k r) (with_pending (delete k (pending s)) s))
        (Native.step n (FetchSettle k r 0 "")).
Proof.
  intros Hk (Hc & Hp & Hv & Hs & Hw). simpl.
  rewrite bool_decide_eq_true_2 by (apply Hp; exact Hk). repeat split.
  - exact Hc.
  - simpl. rewrite lookup_delete. destruct (decide (k = k0)) as [->|Hne].
    + intros [c Hc']. discriminate.
    + intros Hk0. apply elem_of_difference. split; [apply Hp; exact Hk0|].
      intros Hin. apply elem_of_singleton in Hin. congruence.
  - simpl. intros Hk0. apply elem_of_difference in Hk0 as [Hk0 Hne].
    rewrite lookup_delete. destruct (decide (k = k0)) as [->|];
      [exfalso; apply Hne, elem_of_singleton; reflexivity|].
    apply Hp. exact Hk0.
  - simpl. rewrite page_view_app, Hv. reflexivity.
  - exact Hs.
  - intros k0 u o. simpl. rewrite lookup_delete.
    destruct (decide (k = k0)); [discriminate|apply Hw].
Qed.

Lemma reload_fetch_resume_settles k u o r iso s :
  plain_url u = true ->
  exists s1, fetch_resume k u o r iso s = emit (FetchResult k r) s1
             /\ calls s1 = calls s /\ pending s1 = pending s /\ effects s1 = effects s
             /\ xhrs s1 = xhrs s.
Proof.
  intros Hu. unfold fetch_resume. destruct r as [response|msg]; [|exists s; auto].
  destruct (Reload_in_scope_plain (isCapturing s) u Hu) as [[] ->]; [|exists s; auto].
  eexists. split; [reflexivity|]. auto.
Qed.

Lemma reload_on_load_keeps ref st responseText s :
  let s' := on_load ref st responseText s in
  calls s' = calls s /\ pending s' = pending s /\ effects s' = effects s
  /\ xhrs s' = xhrs s.
Proof. cbn zeta. unfold on_load. destruct (JSON_parse responseText); auto. Qed.

Lemma reload_fire_keeps x c s :
  let s' := fire x c s in
  calls s' = calls s /\ pending s' = pending s /\ effects s' = effects s
  /\ xhrs s' = xhrs s.
Proof.
  cbn zeta. unfold fire.
  assert (Hl : forall s0 ref,
             (calls (run_listener c s0 ref), pending (run_listener c s0 ref),
              effects (run_listener c s0 ref), xhrs (run_listener c s0 ref))
             = (calls s0, pending s0, effects s0, xhrs s0)).
  { intros s0 ref. destruct c; try reflexivity. cbn [run_listener].
    destruct (reload_on_load_keeps ref st responseText s0) as (-> & -> & -> & ->). reflexivity. }
  pose proof (fold_left_keeps (fun s0 => (calls s0, pending s0, effects s0, xhrs s0))
                (run_listener c) (Simple.listeners (xhr_at s x)) s Hl) as Hk.
  injection Hk as -> -> -> ->. auto.
Qed.

Lemma reload_agree_step s n e :
  string_urls e = true -> agree s n -> agree (step s e) (Native.step n e).
Proof.
  intros Hu Ha.
  destruct e as [x m u now|x b iso|x c now|u o now iso|k r now iso|iso href ok];
    cbn [step Native.step].
  - destruct (XHR_open s); [|apply reload_agree_emit; [reflexivity|exact Ha]].
    unfold open_wrapper. apply reload_agree_emit; [reflexivity|].
    destruct Ha as (Hc & Hp & Hv & Hs & Hw). repeat split; try assumption; try apply Hp.
    intros x' sl. unfold xhr_at. simpl. rewrite lookup_total_insert.
    destruct (decide (x = x')) as [->|]; [|apply Hs].
    simpl. intros [= <-]. exact Hu.
  - destruct (XHR_send s); [|apply reload_agree_emit; [reflexivity|exact Ha]].
    unfold send_wrapper. destruct (Simple.slots (xhr_at s x)) as [sl|] eqn:Hsl;
      [|apply reload_agree_emit; [reflexivity|exact Ha]].
    destruct Ha as (Hc & Hp & Hv & Hs & Hw).
    destruct (Reload_in_scope_plain (isCapturing s) _ (Hs x sl Hsl)) as [[] ->];
      [|apply reload_agree_emit; [reflexivity|repeat split; assumption || apply Hp]].
    apply reload_agree_emit; [reflexivity|].
    repeat split; try assumption; try apply Hp.
    intros x' sl'. unfold xhr_at. simpl. rewrite lookup_total_insert.
    destruct (decide (x = x')) as [->|]; [|apply Hs].
    simpl. intros [= <-]. apply (Hs x' sl Hsl).
  - destruct (reload_fire_keeps x c s) as (K & P & E & X).
    apply (reload_agree_frame s); try assumption.
    intros x'. unfold xhr_at. rewrite X. reflexivity.
  - destruct (window_fetch s).
    + unfold fetch_wrapper. apply (reload_agree_fetch_call s n u o (Simple.Awaiting u o)); [|exact Ha].
      intros u' o' [= <- <-]. exact Hu.
    + apply (reload_agree_fetch_call s n u o Simple.Direct); [discriminate|exact Ha].
  - destruct (pending s !! k) as [[|u o]|] eqn:Hk.
    + apply reload_agree_settle; [rewrite Hk; eauto|exact Ha].
    + assert (Hpl : plain_url u = true).
      { destruct Ha as (_ & _ & _ & _ & Hw). apply (Hw k u o Hk). }
      destruct (reload_fetch_resume_settles k u o r iso (with_pending (delete k (pending s)) s) Hpl)
        as (s1 & -> & K & P & E & X).
      simpl in K, P, E, X.
      apply (reload_agree_frame (emit (FetchResult k r) (with_pending (delete k (pending s)) s)));
        [simpl; congruence|simpl; congruence|simpl; congruence| |].
      * intros x'. unfold xhr_at. simpl. rewrite X. reflexivity.
      * apply reload_agree_settle; [rewrite Hk; eauto|exact Ha].
    + destruct Ha as (Hc & Hp & Hv & Hs & Hw).
      rewrite bool_decide_eq_false_2; [repeat split; assumption || apply Hp|].
      intros Hin. apply Hp in Hin as [c Hc']. congruence.
  - destruct (isCapturing s); [|exact Ha].
    unfold finish. destruct ok; cbn [fst].
    + apply reload_agree_export; [reflexivity|].
      destruct Ha as (Hc & Hp & Hv & Hs & Hw); repeat split; assumption || apply Hp.
    + destruct Ha as (Hc & Hp & Hv & Hs & Hw); repeat split; assumption || apply Hp.
Qed.

Lemma reload_agree_run tr s n :
  forallb string_urls tr = true -> agree s n -> agree (run tr s) (Native.run tr n).
Proof.
  revert s n. induction tr as [|e tr IH]; intros s n Hu Ha; [exact Ha|].
  cbn [forallb] in Hu. apply andb_true_iff in Hu as [Hu Hu'].
  apply IH; [assumption|]. apply reload_agree_step; assumption.
Qed.

End Facts.
End ReloadPage.



(** ** The capture window of extract_with_reload.js *)

Module ReloadWindow.
Import Reload ReloadSpec.

Section Facts.
Context `{JSONApi}.

Lemma reload_on_load_frame ref st responseText s :
  let s' := on_load ref st responseText s in
  isCapturing s' = isCapturing s /\ allocated s' = allocated s /\ xhrs s' = xhrs s
  /\ window_fetch s' = window_fetch s /\ XHR_open s' = XHR_open s
  /\ XHR_send s' = XHR_send s /\ effects s' = effects s
  /\ capturedRequests s' = capturedRequests s ++ [ref].
Proof. cbn zeta. unfold on_load. destruct (JSON_parse responseText); repeat split. Qed.

(** What a dispatch does: it appends listeners of the object to the
    buffer and leaves the rest. *)
Lemma reload_fire_frame x c s :
  let s' := fire x c s in
  isCapturing s' = isCapturing s /\ allocated s' = allocated s /\ xhrs s' = xhrs s
  /\ window_fetch s' = window_fetch s /\ XHR_open s' = XHR_open s
  /\ XHR_send s' = XHR_send s /\ effects s' = effects s
  /\ exists more, capturedRequests s' = capturedRequests s ++ more
                  /\ forall ref, ref ∈ more -> ref ∈ Simple.listeners (xhr_at s x).
Proof.
  cbn zeta. unfold fire.
  assert (Hgen : forall ls s0,
             let s' := fold_left (run_listener c) ls s0 in
             isCapturing s' = isCapturing s0 /\ allocated s' = allocated s0
             /\ xhrs s' = xhrs s0
             /\ window_fetch s' = window_fetch s0 /\ XHR_open s' = XHR_open s0
             /\ XHR_send s' = XHR_send s0 /\ effects s' = effects s0
             /\ exists more, capturedRequests s' = capturedRequests s0 ++ more
                             /\ forall ref, ref ∈ more -> ref ∈ ls).
  { induction ls as [|l ls IH]; intros s0; cbn zeta; simpl.
    - repeat split. exists []. rewrite app_nil_r. split; [reflexivity|].
      intros ref Hin. exact Hin.
    - destruct (IH (run_listener c s0 l)) as (I & A & X & F & O & S & E & more & Hm & Hin).
      assert (Hl : isCapturing (run_listener c s0 l) = isCapturing s0
                   /\ allocated (run_listener c s0 l) = allocated s0
                   /\ xhrs (run_listener c s0 l) = xhrs s0
                   /\ window_fetch (run_listener c s0 l) = window_fetch s0
                   /\ XHR_open (run_listener c s0 l) = XHR_open s0
                   /\ XHR_send (run_listener c s0 l) = XHR_send s0
                   /\ effects (run_listener c s0 l) = effects s0
                   /\ exists one, capturedRequests (run_listener c s0 l)
                                  = capturedRequests s0 ++ one
                                  /\ forall ref, ref ∈ one -> ref = l).
      { destruct c; cbn [run_listener];
          try (repeat split; exists []; rewrite app_nil_r; split; [reflexivity|];
               intros ref Hr; apply elem_of_nil in Hr; contradiction).
        destruct (reload_on_load_frame l st responseText s0) as (I' & A' & X' & F' & O' & S' & E' & R').
        repeat split; try assumption. exists [l]. split; [exact R'|].
        intros ref Hr. apply list_elem_of_singleton in Hr. exact Hr. }
      destruct Hl as (I' & A' & X' & F' & O' & S' & E' & one & Ho & Hone).
      repeat split; try congruence.
      exists (one ++ more). split; [rewrite Hm, Ho, app_assoc; reflexivity|].
      intros ref Hr. apply elem_of_app in Hr as [Hr|Hr].
      + apply elem_of_cons. left. apply Hone. exact Hr.
      + apply elem_of_cons. right. apply Hin. exact Hr. }
  apply Hgen.
Qed.

(** After the window the fetch wrapper records nothing and hands over
    what the real [fetch] gave, whatever the URL argument is. *)
Lemma fetch_resume_closed k u o r iso s :
  isCapturing s = false -> fetch_resume k u o r iso s = emit (FetchResult k r) s.
Proof.
  intros Hc. unfold fetch_resume. rewrite Hc. destruct r; reflexivity.
Qed.

Lemma closed_step s e :
  closed s ->
  closed (step s e) /\ allocated (step s e) = allocated s /\ xhrs (step s e) = xhrs s
  /\ exists more, capturedRequests (step s e) = capturedRequests s ++ more
                  /\ forall ref, ref ∈ more -> exists x, ref ∈ Simple.listeners (xhr_at s x).
Proof.
  intros (Hc & Hf & Ho & Hs).
  assert (Hnil : exists more : list nat,
             capturedRequests s = capturedRequests s ++ more
             /\ forall ref, ref ∈ more -> exists x, ref ∈ Simple.listeners (xhr_at s x)).
  { exists []. rewrite app_nil_r. split; [reflexivity|].
    intros ref Hr. apply elem_of_nil in Hr. contradiction. }
  destruct e as [x m u now|x b iso|x c now|u o now iso|k r now iso|iso href ok]; simpl.
  - rewrite Ho. repeat split; assumption.
  - rewrite Hs. repeat split; assumption.
  - destruct (reload_fire_frame x c s) as (I & A & X & F & O & S & E & more & Hm & Hin).
    repeat split; try congruence. exists more. split; [exact Hm|]. eauto.
  - rewrite Hf. repeat split; assumption.
  - destruct (pending s !! k) as [[|u o]|]; try (repeat split; assumption).
    rewrite fetch_resume_closed by exact Hc. repeat split; assumption.
  - rewrite Hc. repeat split; assumption.
Qed.

Lemma closed_run tr s :
  closed s ->
  closed (run tr s) /\ allocated (run tr s) = allocated s /\ xhrs (run tr s) = xhrs s
  /\ forall ref, ref ∈ capturedRequests (run tr s) ->
                 ref ∈ capturedRequests s \/ exists x, ref ∈ Simple.listeners (xhr_at s x).
Proof.
  revert s. induction tr as [|e tr IH]; intros s Hc; simpl.
  - repeat split; try apply Hc. auto.
  - destruct (closed_step s e Hc) as (Hc' & A & X & more & Hm & Hin).
    destruct (IH (step s e) Hc') as (Hc'' & A' & X' & Hrefs).
    repeat split; try apply Hc''; try congruence.
    intros ref Hr. destruct (Hrefs ref Hr) as [Hold|[x Hx]].
    + rewrite Hm in Hold. apply elem_of_app in Hold as [Hold|Hnew]; [left; exact Hold|].
      right. apply Hin. exact Hnew.
    + right. exists x. unfold xhr_at in *. rewrite <- X. exact Hx.
Qed.

Lemma closed_after_stop tr iso href ok : closed (run (tr ++ [Stop iso href ok]) init).
Proof.
  unfold run. rewrite fold_left_app. simpl.
  set (s := fold_left step tr init).
  destruct (isCapturing s) eqn:Hc.
  - unfold finish. destruct ok; repeat split.
  - assert (Hinv : forall tr0 s0,
               (isCapturing s0 = false -> closed s0) ->
               isCapturing (fold_left step tr0 s0) = false ->
               closed (fold_left step tr0 s0)).
    { induction tr0 as [|e tr0 IH]; intros s0 Hs0; simpl; [exact Hs0|].
      apply IH. intros Hc'.
      destruct (isCapturing s0) eqn:Hc0.
      - destruct e as [x m u now|x b iso'|x c now|u o now iso'|k r now iso'|iso' href' ok'];
          simpl in *.
        + destruct (XHR_open s0); simpl in Hc'; congruence.
        + destruct (XHR_send s0); [|simpl in Hc'; congruence].
          unfold send_wrapper in Hc'. destruct (Simple.slots (xhr_at s0 x)) as [sl|];
            [destruct (in_scope (isCapturing s0) (Simple._mpg_url sl)) as [[]|]|];
            simpl in Hc'; congruence.
        + destruct (reload_fire_frame x c s0) as (I & _). congruence.
        + destruct (window_fetch s0); simpl in Hc'; congruence.
        + destruct (pending s0 !! k) as [[|u o]|]; try (simpl in Hc'; congruence).
          unfold fetch_resume in Hc'. destruct r as [response|msg]; [|simpl in Hc'; congruence].
          destruct (in_scope _ u) as [[]|]; simpl in Hc'; congruence.
        + rewrite Hc0. unfold finish. destruct ok'; repeat split.
      - apply closed_step. apply Hs0. reflexivity. }
    apply Hinv; [|exact Hc]. discriminate.
Qed.

End Facts.
End ReloadWindow.


(** ** The export of extract_with_reload.js *)

Module ReloadExport.
Import Reload ReloadSpec ReloadWindow.

Section Facts.
Context `{JSONApi}.

Lemma reload_data_count_matches iso href s : count_matches (data iso href s).
Proof.
  exists (map (deref s) (capturedRequests s)).
  split; [reflexivity|]. simpl. rewrite length_map. reflexivity.
Qed.

(** An event other than the end of the countdown exports nothing and
    leaves [isCapturing] as it is. *)
Lemma quiet_step s e :
  (forall iso href ok, e <> Stop iso href ok) ->
  exports (effects (step s e)) = exports (effects s)
  /\ isCapturing (step s e) = isCapturing s.
Proof.
  intros Hne.
  destruct e as [x m u now|x b iso|x c now|u o now iso|k r now iso|iso href ok]; simpl.
  - destruct (XHR_open s); simpl; rewrite exports_app, app_nil_r; split; reflexivity.
  - destruct (XHR_send s); [|simpl; rewrite exports_app, app_nil_r; split; reflexivity].
    unfold send_wrapper. destruct (Simple.slots (xhr_at s x)) as [sl|];
      [destruct (in_scope (isCapturing s) (Simple._mpg_url sl)) as [[]|]|];
      simpl; rewrite exports_app, app_nil_r; split; reflexivity.
  - destruct (reload_fire_frame x c s) as (I & _ & _ & _ & _ & _ & E & _).
    rewrite E. split; [reflexivity|exact I].
  - destruct (window_fetch s); simpl; rewrite exports_app, app_nil_r; split; reflexivity.
  - destruct (pending s !! k) as [[|u o]|]; [| |split; reflexivity].
    + simpl. rewrite exports_app, app_nil_r. split; reflexivity.
    + unfold fetch_resume. destruct r as [response|msg];
        [destruct (in_scope _ u) as [[]|]|];
        simpl; rewrite exports_app, app_nil_r; split; reflexivity.
  - exfalso. apply (Hne iso href ok). reflexivity.
Qed.

(** The states a session reaches: the window is open and nothing has
    been exported, or it is closed and there is at most one export. *)
Lemma open_or_closed tr :
  (isCapturing (run tr init) = true /\ exports (effects (run tr init)) = [])
  \/ (closed (run tr init)
      /\ length (exports (effects (run tr init))) <= 1
      /\ Forall count_matches (exports (effects (run tr init)))).
Proof.
  induction tr as [|e tr IH] using rev_ind; [left; split; reflexivity|].
  unfold run in *. rewrite fold_left_app. cbn [fold_left].
  set (s := fold_left step tr init) in *.
  destruct IH as [[Hc He]|(Hcl & Hlen & Hall)].
  - destruct e as [x m u now|x b iso|x c now|u o now iso|k r now iso|iso href ok];
      try (left; match goal with
                 | |- context [step s ?ev] =>
                     destruct (quiet_step s ev) as [Hq Hi]; [discriminate|]
                 end; rewrite Hq, Hi; split; assumption).
    right. simpl. rewrite Hc. unfold finish. destruct ok; cbn [fst].
    + split; [repeat split|]. simpl. rewrite exports_app, He. simpl.
      split; [lia|]. repeat constructor. apply reload_data_count_matches.
    + split; [repeat split|]. simpl. rewrite He. split; [simpl; lia|constructor].
  - right. destruct (closed_step s e Hcl) as (Hcl' & _).
    split; [exact Hcl'|].
    destruct e as [x m u now|x b iso|x c now|u o now iso|k r now iso|iso href ok];
      try (match goal with
           | |- context [step s ?ev] =>
               destruct (quiet_step s ev) as [Hq Hi]; [discriminate|]
           end; rewrite Hq; split; assumption).
    simpl. destruct Hcl as (Hc & _). rewrite Hc. split; assumption.
Qed.

End Facts.
End ReloadExport.

(** X17.  extract_with_reload.js exports at most once, and not at all when the
    download fails.  In every session there is at most one export; it is
    a download whose [total_captured] is the number of entries of its
    [api_calls]; while [isCapturing] holds nothing has been exported.  The
    download is in no [try] block: when it fails the body throws after it
    has removed its wrappers, no artifact is handed over (no copy is
    printed to the console either), and nothing that follows produces
    one. *)
Theorem Reload_exports_once_or_not_at_all `{JSONApi} (tr : list event) :
  let s := Reload.run tr Reload.init in
  length (exports (Reload.effects s)) <= 1
  /\ Forall count_matches (exports (Reload.effects s))
  /\ (Reload.isCapturing s = true ->
      exports (Reload.effects s) = []
      /\ forall iso href,
           (forall ok,
              (Reload.finish iso href ok s).2
              = if ok then Ret (Reload.data iso href s) else Throw "download failed")
           /\ (forall later,
                 exports (Reload.effects
                            (Reload.run (Stop iso href false :: later) s)) = [])).
Proof.
  cbn zeta. destruct (ReloadExport.open_or_closed tr) as [[Hc He]|(Hcl & Hlen & Hall)].
  - rewrite He. split; [simpl; lia|]. split; [constructor|]. intros _.
    split; [reflexivity|]. intros iso href. split; [intros []; reflexivity|].
    intros later.
    assert (Hrun : Reload.run (Stop iso href false :: later) (Reload.run tr Reload.init)
                     = Reload.run ((tr ++ [Stop iso href false]) ++ later) Reload.init).
      { unfold Reload.run. rewrite !fold_left_app. reflexivity. }
      rewrite Hrun.
      assert (Hstop : exports (Reload.effects (Reload.run (tr ++ [Stop iso href false])
                                                 Reload.init)) = []).
      { unfold Reload.run. rewrite fold_left_app. simpl.
        fold (Reload.run tr Reload.init). rewrite Hc. exact He. }
      clear Hrun. induction later as [|e later IH] using rev_ind.
      * rewrite app_nil_r. exact Hstop.
      * rewrite app_assoc. unfold Reload.run in *. rewrite fold_left_app. cbn [fold_left].
        set (s' := fold_left Reload.step ((tr ++ [Stop iso href false]) ++ later)
                     Reload.init) in *.
        assert (Hcl : ReloadSpec.closed s').
        { unfold s'. rewrite fold_left_app.
          apply (ReloadWindow.closed_run later).
          apply ReloadWindow.closed_after_stop. }
        destruct e as [x m u now|x b iso0|x c now|u o now iso0|k r now iso0|iso0 href0 ok0];
          try (match goal with
               | |- context [Reload.step s' ?ev] =>
                   destruct (ReloadExport.quiet_step s' ev) as [Hq _]; [discriminate|]
               end; rewrite Hq; exact IH).
        simpl. destruct Hcl as (Hc' & _). rewrite Hc'. exact IH.
  - split; [exact Hlen|]. split; [exact Hall|].
    intros Hc. destruct Hcl as (Hc' & _). congruence.
Qed.

(** ** Requests opened before the script *)

Module Unopened.
Import UnopenedSpec.

Section Facts.
Context `{JSONApi}.

Lemma NoHar_blank_step s e x :
  opens x e = false -> NoHar_blank s x -> NoHar_blank (NoHar.step s e) x.
Proof.
  intros Ho [Hs Hl].
  destruct e as [x' m u now|x' b iso|x' c now|u o now iso|k r now iso|iso href ok]; simpl.
  - simpl in Ho. apply Nat.eqb_neq in Ho.
    destruct (NoHar.XHR_open s); [|split; assumption].
    unfold NoHar.open_wrapper, NoHar_blank, NoHar.xhr_at. simpl.
    rewrite lookup_total_insert_ne by exact Ho. split; assumption.
  - destruct (NoHar.XHR_send s); [|split; assumption].
    unfold NoHar.send_wrapper.
    destruct (NoHar.slots (NoHar.xhr_at s x')) as [sl|] eqn:Hsl; [|split; assumption].
    destruct (NoHar.in_scope (NoHar._captureUrl sl)) as [[]|]; try (split; assumption).
    unfold NoHar_blank, NoHar.xhr_at. simpl.
    rewrite lookup_total_insert_ne by (intros ->; congruence). split; assumption.
  - destruct (NoHarFrame.same_frame_fire x' c now s) as (_ & _ & X & _).
    unfold NoHar_blank, NoHar.xhr_at. rewrite X. split; assumption.
  - destruct (NoHar.window_fetch s); [|split; assumption].
    unfold NoHar.fetch_wrapper. destruct (NoHar.in_scope u) as [[]|]; split; assumption.
  - destruct (NoHar.pending s !! k) as [[|reqId t0]|]; try (split; assumption).
    destruct (NoHarFrame.same_frame_fetch_resume k reqId t0 r now
                (NoHar.with_pending (delete k (NoHar.pending s)) s)) as (_ & _ & X & _).
    unfold NoHar_blank, NoHar.xhr_at. rewrite X. split; assumption.
  - destruct ok; split; assumption.
Qed.

Lemma NoHar_blank_run tr s x :
  never_opened x tr = true -> NoHar_blank s x -> NoHar_blank (NoHar.run tr s) x.
Proof.
  revert s. induction tr as [|e tr IH]; intros s Hn Hb; [exact Hb|].
  cbn [never_opened forallb] in Hn. apply andb_true_iff in Hn as [He Hn].
  apply negb_true_iff in He. apply IH; [exact Hn|]. apply NoHar_blank_step; assumption.
Qed.

Lemma Simple_blank_step s e x :
  opens x e = false -> Simple_blank s x -> Simple_blank (Simple.step s e) x.
Proof.
  intros Ho [Hs Hl].
  destruct e as [x' m u now|x' b iso|x' c now|u o now iso|k r now iso|iso href ok]; simpl.
  - simpl in Ho. apply Nat.eqb_neq in Ho.
    destruct (Simple.XHR_open s); [|split; assumption].
    unfold Simple.open_wrapper, Simple_blank, Simple.xhr_at. simpl.
    rewrite lookup_total_insert_ne by exact Ho. split; assumption.
  - destruct (Simple.XHR_send s); [|split; assumption].
    unfold Simple.send_wrapper.
    destruct (Simple.slots (Simple.xhr_at s x')) as [sl|] eqn:Hsl; [|split; assumption].
    destruct (Simple.in_scope (Simple._mpg_url sl)) as [[]|]; try (split; assumption).
    unfold Simple_blank, Simple.xhr_at. simpl.
    rewrite lookup_total_insert_ne by (intros ->; congruence). split; assumption.
  - destruct (SimplePage.simple_fire_keeps x' c s) as (_ & _ & _ & X).
    unfold Simple_blank, Simple.xhr_at. rewrite X. split; assumption.
  - destruct (Simple.window_fetch s); split; assumption.
  - destruct (Simple.pending s !! k) as [[|u o]|]; try (split; assumption).
    unfold Simple.fetch_resume. destruct r as [response|msg]; [|split; assumption].
    destruct (Simple.in_scope u) as [[]|]; split; assumption.
  - destruct (Simple.finished s); [split; assumption|]. destruct ok; split; assumption.
Qed.

Lemma Simple_blank_run tr s x :
  never_opened x tr = true -> Simple_blank s x -> Simple_blank (Simple.run tr s) x.
Proof.
  revert s. induction tr as [|e tr IH]; intros s Hn Hb; [exact Hb|].
  cbn [never_opened forallb] in Hn. apply andb_true_iff in Hn as [He Hn].
  apply negb_true_iff in He. apply IH; [exact Hn|]. apply Simple_blank_step; assumption.
Qed.

Lemma Reload_blank_step s e x :
  opens x e = false -> Reload_blank s x -> Reload_blank (Reload.step s e) x.
Proof.
  intros Ho [Hs Hl].
  destruct e as [x' m u now|x' b iso|x' c now|u o now iso|k r now iso|iso href ok]; simpl.
  - simpl in Ho. apply Nat.eqb_neq in Ho.
    destruct (Reload.XHR_open s); [|split; assumption].
    unfold Reload.open_wrapper, Reload_blank, Reload.xhr_at. simpl.
    rewrite lookup_total_insert_ne by exact Ho. split; assumption.
  - destruct (Reload.XHR_send s); [|split; assumption].
    unfold Reload.send_wrapper.
    destruct (Simple.slots (Reload.xhr_at s x')) as [sl|] eqn:Hsl; [|split; assumption].
    destruct (Reload.in_scope _ (Simple._mpg_url sl)) as [[]|]; try (split; assumption).
    unfold Reload_blank, Reload.xhr_at. simpl.
    rewrite lookup_total_insert_ne by (intros ->; congruence). split; assumption.
  - destruct (ReloadWindow.reload_fire_frame x' c s) as (_ & _ & X & _).
    unfold Reload_blank, Reload.xhr_at. rewrite X. split; assumption.
  - destruct (Reload.window_fetch s); split; assumption.
  - destruct (Reload.pending s !! k) as [[|u o]|]; try (split; assumption).
    unfold Reload.fetch_resume. destruct r as [response|msg]; [|split; assumption].
    destruct (Reload.in_scope _ u) as [[]|]; split; assumption.
  - destruct (Reload.isCapturing s); [|split; assumption]. destruct ok; split; assumption.
Qed.

Lemma Reload_blank_run tr s x :
  never_opened x tr = true -> Reload_blank s x -> Reload_blank (Reload.run tr s) x.
Proof.
  revert s. induction tr as [|e tr IH]; intros s Hn Hb; [exact Hb|].
  cbn [never_opened forallb] in Hn. apply andb_true_iff in Hn as [He Hn].
  apply negb_true_iff in He. apply IH; [exact Hn|]. apply Reload_blank_step; assumption.
Qed.

End Facts.
End Unopened.

(** X18.  A request that was opened before the script was pasted is never
    recorded, whatever its URL: the wrapped [send] finds no slot on the
    object and hands the call to the real [send] without creating a
    record or adding a listener, and the completion of the request
    changes nothing in the state of the script.  This holds for the three
    scripts that filter by URL. *)
Theorem early_requests_are_not_recorded `{JSONApi}
    (tr : list event) (started : string) (x : nat) :
  never_opened x tr = true ->
  (forall b iso c now,
     NoHar.step (NoHar.run tr (NoHar.init started)) (XhrSend x b iso)
     = NoHar.emit (RealSend x b) (NoHar.run tr (NoHar.init started))
     /\ NoHar.step (NoHar.run tr (NoHar.init started)) (XhrFire x c now)
        = NoHar.run tr (NoHar.init started))
  /\ (forall b iso c now,
        Simple.step (Simple.run tr Simple.init) (XhrSend x b iso)
        = Simple.emit (RealSend x b) (Simple.run tr Simple.init)
        /\ Simple.step (Simple.run tr Simple.init) (XhrFire x c now)
           = Simple.run tr Simple.init)
  /\ (forall b iso c now,
        Reload.step (Reload.run tr Reload.init) (XhrSend x b iso)
        = Reload.emit (RealSend x b) (Reload.run tr Reload.init)
        /\ Reload.step (Reload.run tr Reload.init) (XhrFire x c now)
           = Reload.run tr Reload.init).
Proof.
  intros Hn. split; [|split].
  - destruct (Unopened.NoHar_blank_run tr (NoHar.init started) x Hn) as [Hs Hl].
    { split; unfold NoHar.xhr_at; simpl; rewrite lookup_total_empty; reflexivity. }
    intros b iso c now. split; simpl.
    + destruct (NoHar.XHR_send _); [|reflexivity]. unfold NoHar.send_wrapper.
      rewrite Hs. reflexivity.
    + unfold NoHar.fire. rewrite Hl. reflexivity.
  - destruct (Unopened.Simple_blank_run tr Simple.init x Hn) as [Hs Hl].
    { split; unfold Simple.xhr_at; simpl; rewrite lookup_total_empty; reflexivity. }
    intros b iso c now. split; simpl.
    + destruct (Simple.XHR_send _); [|reflexivity]. unfold Simple.send_wrapper.
      rewrite Hs. reflexivity.
    + unfold Simple.fire. rewrite Hl. reflexivity.
  - destruct (Unopened.Reload_blank_run tr Reload.init x Hn) as [Hs Hl].
    { split; unfold Reload.xhr_at; simpl; rewrite lookup_total_empty; reflexivity. }
    intros b iso c now. split; simpl.
    + destruct (Reload.XHR_send _); [|reflexivity]. unfold Reload.send_wrapper.
      rewrite Hs. reflexivity.
    + unfold Reload.fire. rewrite Hl. reflexivity.
Qed.

(** The session [early_trace]: the object 3 is sent and loads without
    having been opened under the script, and the buffer stays empty. *)
Lemma early_requests_are_not_recorded_witness :
  never_opened 3 early_trace = true
  /\ NoHar.requests (NoHar.run early_trace (NoHar.init "")) = []
  /\ NoHar.step (NoHar.run early_trace (NoHar.init ""))
       (XhrFire 3 (Load 200 "OK" "[]" "") 9)
     = NoHar.run early_trace (NoHar.init "").
Proof.
  split; [reflexivity|]. split; [reflexivity|].
  apply (proj1 (@early_requests_are_not_recorded JSONSubset.json early_trace "" 3 eq_refl)
           BAbsent "" (Load 200 "OK" "[]" "") 9%Z).
Defined.

(** ** The list of endpoints *)

Module EndpointsFacts.
Import Endpoints.

Lemma hd_split_from c cur s :
  hd ""%string (split_from (String c "") 0 cur s) = (cur ++ before c s)%string.
Proof.
  revert cur. induction s as [|x s IH]; intros cur; cbn [split_from before].
  - rewrite string_app_nil_r. reflexivity.
  - assert (Hp : String.prefix (String c "") (String x s) = Ascii.eqb x c).
    { simpl. destruct (ascii_dec c x) as [->|Hne].
      - rewrite Ascii.eqb_refl. destruct s; reflexivity.
      - symmetry. apply Ascii.eqb_neq. congruence. }
    rewrite Hp. destruct (Ascii.eqb x c).
    + simpl. rewrite string_app_nil_r. reflexivity.
    + rewrite IH, string_app_assoc. reflexivity.
Qed.

Lemma before_lacks c s : lacks c (before c s) = true.
Proof.
  induction s as [|x s IH]; simpl; [reflexivity|].
  destruct (Ascii.eqb x c) eqn:He; [reflexivity|]. simpl. rewrite He, IH. reflexivity.
Qed.

Lemma before_prefix c s : String.prefix (before c s) s = true.
Proof.
  induction s as [|x s IH]; simpl; [reflexivity|].
  destruct (Ascii.eqb x c); [reflexivity|]. simpl.
  destruct (ascii_dec x x); [exact IH|contradiction].
Qed.

Lemma unique_from_spec xs seen :
  NoDup (unique_from seen xs)
  /\ (forall x, x ∈ unique_from seen xs <-> x ∈ xs /\ x ∉ seen)
  /\ length (unique_from seen xs) <= length xs.
Proof.
  revert seen. induction xs as [|x xs IH]; intros seen; cbn [unique_from].
  - split; [constructor|]. split; [|reflexivity].
    intros y. split; [intros Hy; apply elem_of_nil in Hy; contradiction|].
    intros [Hy _]. exact Hy.
  - destruct (bool_decide (x ∈ seen)) eqn:Hs.
    + apply bool_decide_eq_true in Hs. destruct (IH seen) as (Hnd & Hin & Hlen).
      split; [exact Hnd|]. split; [|simpl; lia].
      intros y. rewrite Hin, elem_of_cons. split; [intros [Hy Hn]; auto|].
      intros [[->|Hy] Hn]; [contradiction|auto].
    + apply bool_decide_eq_false in Hs. destruct (IH (x :: seen)) as (Hnd & Hin & Hlen).
      split; [|split; [|simpl; lia]].
      * apply NoDup_cons. split; [|exact Hnd].
        rewrite Hin. intros [_ Hn]. apply Hn. left.
      * intros y. rewrite !elem_of_cons, Hin, elem_of_cons. split.
        -- intros [->|[Hy Hn]]; [auto|]. split; [auto|].
           intros Hseen. apply Hn. right. exact Hseen.
        -- intros [[->|Hy] Hn]; [auto|].
           destruct (decide (y = x)) as [->|Hne]; [auto|]. right. split; [exact Hy|].
           intros [->|Hseen]; contradiction.
Qed.

Section Facts.
Context `{URLApi}.

Lemma map_exc_strings (rs : list jsval) :
  forallb has_string_url rs = true ->
  exists xs, map_exc endpoint rs = Ret xs
             /\ length xs = length rs
             /\ forall r, r ∈ rs -> exists p, endpoint r = Ret p /\ p ∈ xs.
Proof.
  induction rs as [|r rs IH]; intros Hs; cbn [map_exc].
  - exists []. split; [reflexivity|]. split; [reflexivity|].
    intros r Hin. apply elem_of_nil in Hin. contradiction.
  - cbn [forallb] in Hs. apply andb_true_iff in Hs as [Hr Hs].
    destruct (IH Hs) as (xs & Hxs & Hlen & Hin).
    assert (Hp : exists p, endpoint r = Ret p).
    { unfold endpoint, has_string_url in *.
      destruct (URL_pathname (get_field "url" r)); [eauto|].
      destruct (get_field "url" r); try discriminate. eauto. }
    destruct Hp as [p Hp]. rewrite Hp, Hxs. simpl.
    exists (p :: xs). split; [reflexivity|]. split; [simpl; lia|].
    intros r' Hr'. apply elem_of_cons in Hr' as [->|Hr'].
    + exists p. split; [exact Hp|left].
    + destruct (Hin r' Hr') as (p' & Hp' & Hin'). exists p'. split; [exact Hp'|right; exact Hin'].
Qed.

End Facts.
End EndpointsFacts.

(** X19.  The list of endpoints of extract_data_simple.js and of
    extract_with_reload.js.  When the [url] of every record is a string
    the list is built without an exception; it names each endpoint once,
    and has the endpoint of every record; and the endpoint of a record
    whose URL does not parse is the URL up to its first question mark. *)
Theorem endpoints_are_listed_once `{Endpoints.URLApi} (capturedRequests : list jsval) :
  forallb has_string_url capturedRequests = true ->
  exists l,
    Endpoints.endpoints capturedRequests = Ret l
    /\ NoDup l
    /\ length l <= length capturedRequests
    /\ (forall r, r ∈ capturedRequests -> exists p, Endpoints.endpoint r = Ret p /\ p ∈ l)
    /\ (forall r url,
          get_field "url" r = JStr url ->
          Endpoints.URL_pathname (JStr url) = None ->
          Endpoints.endpoint r = Ret (before "?" url)
          /\ lacks "?" (before "?" url) = true
          /\ String.prefix (before "?" url) url = true).
Proof.
  intros Hs. destruct (EndpointsFacts.map_exc_strings capturedRequests Hs)
    as (xs & Hxs & Hlen & Hin).
  destruct (EndpointsFacts.unique_from_spec xs []) as (Hnd & Hmem & Hle).
  exists (Endpoints.unique_from [] xs). unfold Endpoints.endpoints. rewrite Hxs. simpl.
  split; [reflexivity|]. split; [exact Hnd|]. split; [lia|]. split.
  - intros r Hr. destruct (Hin r Hr) as (p & Hp & Hpx). exists p. split; [exact Hp|].
    apply Hmem. split; [exact Hpx|]. intros Hn. apply elem_of_nil in Hn. contradiction.
  - intros r url Hu Hnone. unfold Endpoints.endpoint. rewrite Hu, Hnone.
    unfold split. rewrite EndpointsFacts.hd_split_from.
    split; [reflexivity|].
    split; [apply EndpointsFacts.before_lacks|apply EndpointsFacts.before_prefix].
Qed.

(** Two relative URLs that differ in the query: one endpoint. *)
Lemma endpoints_are_listed_once_witness :
  forallb has_string_url relative_records = true
  /\ exists l,
       @Endpoints.endpoints Endpoints.relative_only relative_records = Ret l
       /\ NoDup l /\ length l <= 2.
Proof.
  split; [reflexivity|].
  destruct (@endpoints_are_listed_once Endpoints.relative_only relative_records eq_refl)
    as (l & Hl & Hnd & Hlen & _).
  exists l. split; [exact Hl|]. split; [exact Hnd|exact Hlen].
Defined.

(** ** The capture of extract_data.js *)

Module CaptureFacts.
Import Capture CapturePageSpec.

Section Facts.
Context `{JSONApi}.

Lemma capture_on_load_keeps ref st responseText s :
  let s' := on_load ref st responseText s in
  calls s' = calls s /\ pending s' = pending s /\ effects s' = effects s
  /\ xhrs s' = xhrs s /\ XHR_send s' = XHR_send s
  /\ capturedRequests s' = capturedRequests s ++ [ref].
Proof. cbn zeta. unfold on_load. destruct (JSON_parse responseText); repeat split. Qed.

Lemma capture_run_listener_keeps c s l :
  let s' := run_listener c s l in
  calls s' = calls s /\ pending s' = pending s /\ effects s' = effects s
  /\ xhrs s' = xhrs s /\ XHR_send s' = XHR_send s
  /\ capturedRequests s `prefix_of` capturedRequests s'.
Proof.
  cbn zeta. destruct l as [[] ref], c; cbn [run_listener]; try (repeat split; reflexivity).
  - destruct (capture_on_load_keeps ref st responseText s) as (K & P & E & X & S & R).
    repeat split; try assumption. rewrite R. apply prefix_app_r. reflexivity.
  - unfold on_error. repeat split. simpl. apply prefix_app_r. reflexivity.
Qed.

Lemma capture_fire_keeps x c s :
  let s' := fire x c s in
  calls s' = calls s /\ pending s' = pending s /\ effects s' = effects s
  /\ xhrs s' = xhrs s /\ XHR_send s' = XHR_send s
  /\ capturedRequests s `prefix_of` capturedRequests s'.
Proof.
  cbn zeta. unfold fire. generalize (listeners (xhr_at s x)) as ls. intros ls. revert s.
  induction ls as [|l ls IH]; intros s; simpl; [repeat split; reflexivity|].
  destruct (capture_run_listener_keeps c s l) as (K & P & E & X & S & R).
  destruct (IH (run_listener c s l)) as (K' & P' & E' & X' & S' & R').
  repeat split; try congruence. etransitivity; eassumption.
Qed.

Lemma capture_step_grows s e :
  capturedRequests s `prefix_of` capturedRequests (step s e).
Proof.
  destruct e as [x m u now|x b iso|x c now|u o now iso|k r now iso|iso href ok]; simpl.
  - destruct (XHR_open s); reflexivity.
  - destruct (XHR_send s); reflexivity.
  - apply capture_fire_keeps.
  - destruct (window_fetch s); reflexivity.
  - destruct (pending s !! k) as [[|u o iso0]|]; try reflexivity.
    simpl. apply prefix_app_r. reflexivity.
  - reflexivity.
Qed.

Lemma capture_run_grows tr s :
  capturedRequests s `prefix_of` capturedRequests (run tr s).
Proof. apply (fold_left_prefix capturedRequests). apply capture_step_grows. Qed.

Lemma capture_agree_init : agree init Native.init.
Proof.
  repeat split; try reflexivity.
  - intros [c Hc]. simpl in Hc. rewrite lookup_empty in Hc. discriminate.
  - simpl. intros Hin. apply elem_of_empty in Hin. contradiction.
Qed.

Lemma capture_agree_emit s n e :
  is_export e = false -> agree s n -> agree (emit e s) (Native.emit e n).
Proof.
  intros He (Hc & Hp & Hv). repeat split; try assumption; try apply Hp.
  simpl. rewrite page_view_app, Hv. unfold page_view at 1. simpl. rewrite He. reflexivity.
Qed.

Lemma capture_agree_frame s s' n :
  calls s' = calls s -> pending s' = pending s -> effects s' = effects s ->
  agree s n -> agree s' n.
Proof.
  intros Ec Ep Ee (Hc & Hp & Hv). repeat split.
  - congruence.
  - rewrite Ep. apply Hp.
  - rewrite Ep. apply Hp.
  - rewrite Ee. exact Hv.
Qed.

Lemma capture_agree_fetch_call s n u o c :
  agree s n ->
  agree (emit (RealFetch (calls s) u o)
           (with_pending (<[calls s := c]> (pending s)) (with_calls (S (calls s)) s)))
        (Native.step n (FetchCall u o 0 "")).
Proof.
  intros (Hc & Hp & Hv). repeat split.
  - simpl. congruence.
  - simpl. rewrite <- Hc. intros Hk. rewrite lookup_insert in Hk.
    destruct (decide (calls s = k)) as [->|];
      [apply elem_of_union_l, elem_of_singleton; reflexivity|].
    apply elem_of_union_r, Hp. exact Hk.
  - simpl. rewrite <- Hc. intros Hk. rewrite lookup_insert.
    destruct (decide (calls s = k)) as [|Hne]; [eauto|]. apply Hp.
    apply elem_of_union in Hk as [Hk|Hk]; [|exact Hk].
    apply elem_of_singleton in Hk. congruence.
  - simpl. rewrite page_view_app, Hv, Hc. reflexivity.
Qed.

Lemma capture_agree_settle s n k r :
  is_Some (pending s !! k) -> agree s n ->
  agree (emit (FetchResult k r) (with_pending (delete k (pending s)) s))
        (Native.step n (FetchSettle k r 0 "")).
Proof.
  intros Hk (Hc & Hp & Hv). simpl.
  rewrite bool_decide_eq_true_2 by (apply Hp; exact Hk). repeat split.
  - exact Hc.
  - simpl. rewrite lookup_delete. destruct (decide (k = k0)) as [->|Hne].
    + intros [c Hc']. discriminate.
    + intros Hk0. apply elem_of_difference. split; [apply Hp; exact Hk0|].
      intros Hin. apply elem_of_singleton in Hin. congruence.
  - simpl. intros Hk0. apply elem_of_difference in Hk0 as [Hk0 Hne].
    rewrite lookup_delete. destruct (decide (k = k0)) as [->|];
      [exfalso; apply Hne, elem_of_singleton; reflexivity|].
    apply Hp. exact Hk0.
  - simpl. rewrite page_view_app, Hv. reflexivity.
Qed.

Lemma settled_with_fresh r :
  (forall response, r = Resolved response -> bodyUsed response = false) ->
  settled_with r = r.
Proof.
  intros Hf. destruct r as [response|msg]; [|reflexivity].
  unfold settled_with, clone. rewrite (Hf response eq_refl). reflexivity.
Qed.

Lemma capture_agree_step s n e :
  fresh_response e = true -> agree s n -> agree (step s e) (Native.step n e).
Proof.
  intros Hf Ha.
  destruct e as [x m u now|x b iso|x c now|u o now iso|k r now iso|iso href ok];
    cbn [step Native.step].
  - destruct (XHR_open s); [|apply capture_agree_emit; [reflexivity|exact Ha]].
    unfold open_wrapper. apply capture_agree_emit; [reflexivity|].
    destruct Ha as (Hc & Hp & Hv). repeat split; try assumption; apply Hp.
  - destruct (XHR_send s); [|apply capture_agree_emit; [reflexivity|exact Ha]].
    unfold send_wrapper. apply capture_agree_emit; [reflexivity|].
    destruct Ha as (Hc & Hp & Hv). repeat split; try assumption; apply Hp.
  - destruct (capture_fire_keeps x c s) as (K & P & E & _).
    apply (capture_agree_frame s); assumption.
  - destruct (window_fetch s).
    + unfold fetch_wrapper. apply (capture_agree_fetch_call s n u o _ Ha).
    + apply (capture_agree_fetch_call s n u o Direct Ha).
  - destruct (pending s !! k) as [[|u o iso0]|] eqn:Hk.
    + apply capture_agree_settle; [rewrite Hk; eauto|exact Ha].
    + unfold fetch_resume. rewrite settled_with_fresh.
      * apply (capture_agree_frame
                 (emit (FetchResult k r) (with_pending (delete k (pending s)) s)));
          [reflexivity..|].
        apply capture_agree_settle; [rewrite Hk; eauto|exact Ha].
      * intros response ->. simpl in Hf. apply negb_true_iff in Hf. exact Hf.
    + destruct Ha as (Hc & Hp & Hv).
      rewrite bool_decide_eq_false_2; [repeat split; assumption || apply Hp|].
      intros Hin. apply Hp in Hin as [c Hc']. congruence.
  - destruct Ha as (Hc & Hp & Hv). repeat split; assumption || apply Hp.
Qed.

Lemma capture_agree_run tr s n :
  forallb fresh_response tr = true -> agree s n -> agree (run tr s) (Native.run tr n).
Proof.
  revert s n. induction tr as [|e tr IH]; intros s n Hf Ha; [exact Ha|].
  cbn [forallb] in Hf. apply andb_true_iff in Hf as [Hf Hf'].
  apply IH; [assumption|]. apply capture_agree_step; assumption.
Qed.

Lemma capture_blank_step s e x :
  touches x e = false -> (forall iso href ok, e <> Stop iso href ok) ->
  XHR_send s = Wrapper /\ blank s x ->
  XHR_send (step s e) = Wrapper /\ blank (step s e) x.
Proof.
  intros Ho Hne (Hw & Hs & Hl).
  destruct e as [x' m u now|x' b iso|x' c now|u o now iso|k r now iso|iso href ok]; simpl.
  - simpl in Ho. apply Nat.eqb_neq in Ho.
    destruct (XHR_open s); [|repeat split; assumption].
    unfold open_wrapper, blank, xhr_at. simpl.
    rewrite lookup_total_insert_ne by exact Ho. repeat split; assumption.
  - simpl in Ho. apply Nat.eqb_neq in Ho.
    rewrite Hw. unfold send_wrapper, blank, xhr_at. simpl.
    rewrite lookup_total_insert_ne by exact Ho. repeat split; assumption.
  - destruct (capture_fire_keeps x' c s) as (_ & _ & _ & X & S & _).
    unfold blank, xhr_at. rewrite X, S. repeat split; assumption.
  - destruct (window_fetch s); repeat split; assumption.
  - destruct (pending s !! k) as [[|u o iso0]|]; repeat split; assumption.
  - exfalso. apply (Hne iso href ok). reflexivity.
Qed.

Lemma capture_blank_run tr s x :
  forallb (fun e => negb (touches x e)) tr = true -> no_stop tr = true ->
  XHR_send s = Wrapper /\ blank s x ->
  XHR_send (run tr s) = Wrapper /\ blank (run tr s) x.
Proof.
  revert s. induction tr as [|e tr IH]; intros s Ht Hn Hb; [exact Hb|].
  cbn [forallb no_stop] in Ht, Hn.
  apply andb_true_iff in Ht as [He Ht]. apply andb_true_iff in Hn as [Hs Hn].
  apply negb_true_iff in He. apply IH; [exact Ht|exact Hn|].
  apply capture_blank_step; [exact He| |exact Hb].
  intros iso href ok ->. discriminate.
Qed.

End Facts.
End CaptureFacts.






(** ** The buffers are append-only *)

(** X22.  The buffers of the four scripts are append-only.  Whatever happens
    next in a session (calls, completions, a stop, calls after the stop),
    the buffer then begins with the buffer of now: no script ever removes,
    replaces or reorders an entry of its buffer, and the number of
    captured calls never goes down. *)
Theorem buffers_only_grow `{JSONApi} (tr more : list event) (started : string) :
  NoHar.requests (NoHar.run tr (NoHar.init started))
    `prefix_of` NoHar.requests (NoHar.run (tr ++ more) (NoHar.init started))
  /\ Simple.capturedRequests (Simple.run tr Simple.init)
       `prefix_of` Simple.capturedRequests (Simple.run (tr ++ more) Simple.init)
  /\ Reload.capturedRequests (Reload.run tr Reload.init)
       `prefix_of` Reload.capturedRequests (Reload.run (tr ++ more) Reload.init)
  /\ Capture.capturedRequests (Capture.run tr Capture.init)
       `prefix_of` Capture.capturedRequests (Capture.run (tr ++ more) Capture.init).
Proof.
  split; [|split; [|split]].
  - replace (NoHar.run (tr ++ more) (NoHar.init started))
      with (NoHar.run more (NoHar.run tr (NoHar.init started)))
      by (symmetry; apply fold_left_app).
    apply Growth.NoHar_run_grows.
  - replace (Simple.run (tr ++ more) Simple.init)
      with (Simple.run more (Simple.run tr Simple.init))
      by (symmetry; apply fold_left_app).
    apply Growth.Simple_run_grows.
  - replace (Reload.run (tr ++ more) Reload.init)
      with (Reload.run more (Reload.run tr Reload.init))
      by (symmetry; apply fold_left_app).
    apply Growth.Reload_run_grows.
  - replace (Capture.run (tr ++ more) Capture.init)
      with (Capture.run more (Capture.run tr Capture.init))
      by (symmetry; apply fold_left_app).
    apply CaptureFacts.capture_run_grows.
Qed.
